(** * RidePulse: the data-synchronisation pipeline

    A shallow embedding of [app/parks/efteling.py] (state normalisation,
    single-rider merge, virtual-queue window, WIS response cache, the four
    live fetch methods) and of [app/scheduler.py] (per-park isolation of a
    tick, derived park status, snapshot writer), with the properties of the
    specification stated and proved over it.

    Conventions of the embedding.
    - A Python [str] is the sequence of its code points, here restricted to
      U+0000..U+00FF: one [ascii] per code point.
    - A decoded JSON payload is a [json] value; a dict is an association
      list in insertion order whose lookup takes the first binding of a key
      (a decoded dict has one binding per key).
    - A raised exception is [Raise e]; [e] is the exception class.
    - A [datetime] is its wall-clock reading in microseconds since
      0001-01-01T00:00:00 together with its [tzinfo] and [fold].
    - What the Python runtime and third-party libraries decide
      ([int] on a [str], [datetime.fromisoformat], the zone database,
      pydantic's coercion to [str]) is a [Runtime] the development is
      parametric in. *)

From Stdlib Require Import ZArith Lia Ascii.
From stdpp Require Import base option list strings gmap sorting.

Local Open Scope Z_scope.

(** ** Exceptions and results *)

Inductive exn :=
  | KeyError | IndexError | TypeError | ValueError | AttributeError
  | OverflowError | ValidationError | HTTPError | OSError.

Inductive result (A : Type) :=
  | Ok (a : A)
  | Raise (e : exn).
Arguments Ok {A} a.
Arguments Raise {A} e.

Global Instance result_ret : MRet result := λ A a, Ok a.
Global Instance result_bind : MBind result := λ A B f m,
  match m with Ok a => f a | Raise e => Raise e end.

Global Instance result_fmap : FMap result := λ A B f m,
  match m with Ok a => Ok (f a) | Raise e => Raise e end.

Global Instance exn_eq_dec : EqDecision exn.
Proof. solve_decision. Defined.

(** ** Python values of a decoded JSON document *)

(** A [float]: a finite double is the dyadic rational [m * 2^e]. *)
Inductive pyfloat :=
  | Finite (m e : Z)
  | NaN
  | Inf (negative : bool).

#[warnings="-register-all"]
Inductive json :=
  | JNull
  | JBool (b : bool)
  | JInt (n : Z)
  | JFloat (f : pyfloat)
  | JStr (s : string)
  | JList (l : list json)
  | JDict (d : list (string * json)).

Abbreviation dict := (list (string * json)).

(** [bool(v)] *)
Definition truthy (v : json) : bool :=
  match v with
  | JNull => false
  | JBool b => b
  | JInt n => negb (n =? 0)
  | JFloat (Finite m _) => negb (m =? 0)
  | JFloat _ => true
  | JStr s => negb (String.eqb s "")
  | JList l => match l with [] => false | _ => true end
  | JDict d => match d with [] => false | _ => true end
  end.

(** [a or b] *)
Definition py_or (a b : json) : json := if truthy a then a else b.

(** [d.get(k, default)] on a dict *)
Fixpoint dict_get (d : dict) (k : string) (default : json) : json :=
  match d with
  | [] => default
  | (k', v) :: d' => if String.eqb k' k then v else dict_get d' k default
  end.

(** [v.get(k, default)]: only a dict has [get] *)
Definition py_get (v : json) (k : string) (default : json) : result json :=
  match v with
  | JDict d => Ok (dict_get d k default)
  | _ => Raise AttributeError
  end.

(** [v[k]] for a str key [k] *)
Definition py_getitem (v : json) (k : string) : result json :=
  match v with
  | JDict d =>
      match dict_get d k JNull, existsb (λ kv, String.eqb kv.1 k) d with
      | x, true => Ok x
      | _, false => Raise KeyError
      end
  | _ => Raise TypeError
  end.

(** [v == s] for a str constant [s] *)
Definition py_eq_str (v : json) (s : string) : bool :=
  match v with JStr s' => String.eqb s' s | _ => false end.

(** ** str methods *)

Definition code (c : ascii) : Z := Z.of_N (N_of_ascii c).

(** [str.lower] on one code point below U+0100: A-Z, À-Ö and Ø-Þ. *)
Definition lower_char (c : ascii) : ascii :=
  let n := code c in
  if ((65 <=? n) && (n <=? 90)) || ((192 <=? n) && (n <=? 222) && negb (n =? 215))
  then ascii_of_N (Z.to_N (n + 32)) else c.

Fixpoint lower (s : string) : string :=
  match s with
  | EmptyString => EmptyString
  | String c s' => String (lower_char c) (lower s')
  end.

(** [str.isspace] on one code point below U+0100. *)
Definition isspace (c : ascii) : bool :=
  let n := code c in
  ((9 <=? n) && (n <=? 13)) || ((28 <=? n) && (n <=? 32)) || (n =? 133) || (n =? 160).

Fixpoint lstrip (s : string) : string :=
  match s with
  | EmptyString => EmptyString
  | String c s' => if isspace c then lstrip s' else s
  end.

Definition strip (s : string) : string :=
  String.rev (lstrip (String.rev (lstrip s))).

(** [s.startswith(p)] *)
Fixpoint startswith (s p : string) : bool :=
  match p, s with
  | EmptyString, _ => true
  | String a p', String b s' => if Ascii.eqb a b then startswith s' p' else false
  | String _ _, EmptyString => false
  end.

(** [s.endswith(p)] *)
Definition endswith (s p : string) : bool :=
  startswith (String.rev s) (String.rev p).

(** [p in s] *)
Fixpoint contains (s p : string) : bool :=
  startswith s p ||
  match s with
  | EmptyString => false
  | String _ s' => contains s' p
  end.

(** [s.replace(old, "")] for a non-empty [old]: occurrences are removed from
    left to right without overlap; [skip] counts the code points of the
    occurrence being removed that are still to drop. *)
Fixpoint remove_from (old : string) (skip : nat) (s : string) : string :=
  match s with
  | EmptyString => EmptyString
  | String c s' =>
      match skip with
      | S k => remove_from old k s'
      | O => if startswith s old
             then remove_from old (String.length old - 1) s'
             else String c (remove_from old O s')
      end
  end.

Definition replace_empty (s old : string) : string := remove_from old O s.

(** [v.lower()]: only a str has [lower] *)
Definition py_lower (v : json) : result string :=
  match v with
  | JStr s => Ok (lower s)
  | _ => Raise AttributeError
  end.

(** [for x in v]: the items a loop over [v] visits *)
Definition py_iter (v : json) : result (list json) :=
  match v with
  | JList l => Ok l
  | JStr s => Ok ((λ c, JStr (String c EmptyString)) <$> String.list_ascii_of_string s)
  | JDict d => Ok ((λ kv, JStr kv.1) <$> d)
  | _ => Raise TypeError
  end.

(** [for x in a + b]: [+] concatenates two lists or two strs and adds two
    numbers, and is a TypeError otherwise; a number is then not iterable. *)
Definition py_iter_add (a b : json) : result (list json) :=
  match a, b with
  | JList l1, JList l2 => Ok (l1 ++ l2)
  | JStr s1, JStr s2 => py_iter (JStr (s1 +:+ s2))
  | _, _ => Raise TypeError
  end.

(** [v[0]] *)
Definition py_first (v : json) : result json :=
  match v with
  | JList (x :: _) => Ok x
  | JList [] => Raise IndexError
  | JStr (String c _) => Ok (JStr (String c EmptyString))
  | JStr EmptyString => Raise IndexError
  | JDict _ => Raise KeyError
  | _ => Raise TypeError
  end.

(** [d[k] = v] on a dict in insertion order *)
Fixpoint dict_set {V} (d : list (string * V)) (k : string) (v : V) : list (string * V) :=
  match d with
  | [] => [(k, v)]
  | (k', v') :: d' =>
      if String.eqb k' k then (k', v) :: d' else (k', v') :: dict_set d' k v
  end.

(** [d[k]] where it is known to be bound, [None] otherwise *)
Fixpoint dict_lookup {V} (d : list (string * V)) (k : string) : option V :=
  match d with
  | [] => None
  | (k', v) :: d' => if String.eqb k' k then Some v else dict_lookup d' k
  end.

(** ** datetime *)

Inductive tzinfo :=
  | PARK_TIMEZONE              (* ZoneInfo("Europe/Amsterdam") *)
  | FixedOffset (offset : Z).  (* timezone(timedelta(microseconds=offset)) *)

Record datetime := { wall : Z; tz : tzinfo; fold : bool }.

Definition US_PER_MINUTE : Z := 60 * 1000000.
Definition US_PER_DAY : Z := 86400 * 1000000.
(** [date.max.toordinal()]: 9999-12-31 *)
Definition MAXORDINAL : Z := 3652059.

(** [dt.replace(second=0, microsecond=0)] *)
Definition replace_second_microsecond (dt : datetime) : datetime :=
  {| wall := wall dt - wall dt `mod` US_PER_MINUTE; tz := tz dt; fold := fold dt |}.

(** [timedelta(minutes=m)], in microseconds: more than 999999999 days in
    either direction is an OverflowError. *)
Definition timedelta_minutes (m : Z) : result Z :=
  let us := m * US_PER_MINUTE in
  if (-999999999 <=? us `div` US_PER_DAY) && (us `div` US_PER_DAY <=? 999999999)
  then Ok us else Raise OverflowError.

(** [dt + td]: wall-clock arithmetic that keeps [tzinfo]; a result outside
    years 1..9999 is an OverflowError. *)
Definition dt_add (dt : datetime) (td : Z) : result datetime :=
  let w := wall dt + td in
  if (0 <=? w) && (w <? MAXORDINAL * US_PER_DAY)
  then Ok {| wall := w; tz := tz dt; fold := false |}
  else Raise OverflowError.

(** The wall clock of a civil date and time (proleptic Gregorian). *)
Definition days_before_year (y : Z) : Z :=
  let p := y - 1 in p * 365 + p `div` 4 - p `div` 100 + p `div` 400.

Definition is_leap (y : Z) : bool :=
  (y `mod` 4 =? 0) && (negb (y `mod` 100 =? 0) || (y `mod` 400 =? 0)).

Definition days_before_month (y m : Z) : Z :=
  nth (Z.to_nat m) [0; 0; 31; 59; 90; 120; 151; 181; 212; 243; 273; 304; 334] 0
  + (if (2 <? m) && is_leap y then 1 else 0).

Definition civil (y mo d h mi s : Z) : Z :=
  ((days_before_year y + days_before_month y mo + d - 1) * 86400
   + h * 3600 + mi * 60 + s) * 1000000.

(** ** What the runtime decides *)

Class Runtime := {
  (** [int(s)] for a str [s]; [None] is a ValueError *)
  int_of_str : string → option Z;
  (** [str(v)] for a value that is not a str *)
  str_of : json → string;
  (** [datetime.fromisoformat(s)]: the wall clock and, for an aware result,
      the offset; [None] when it raises *)
  fromisoformat : string → option (Z * option Z);
  (** [PARK_TIMEZONE.utcoffset(dt)] from the wall clock and fold of [dt] *)
  park_utcoffset : Z → bool → Z;
  (** pydantic validation of a [str] field given a value that is not a
      str; [None] is a ValidationError *)
  coerce_str : json → option string
}.

Section Python.
Context `{Runtime}.

(** [int(v)] *)
Definition py_int (v : json) : result Z :=
  match v with
  | JBool b => Ok (if b then 1 else 0)
  | JInt n => Ok n
  | JFloat (Finite m e) => Ok (if 0 <=? e then m * 2 ^ e else m `quot` 2 ^ (- e))
  | JFloat NaN => Raise ValueError
  | JFloat (Inf _) => Raise OverflowError
  | JStr s => match int_of_str s with Some n => Ok n | None => Raise ValueError end
  | JNull | JList _ | JDict _ => Raise TypeError
  end.

(** [try: x = int(v or 0)  except (ValueError, TypeError): x = default] *)
Definition int_or {A} (v : json) (some : Z → A) (default : A) : result A :=
  match py_int (py_or v (JInt 0)) with
  | Ok n => Ok (some n)
  | Raise ValueError | Raise TypeError => Ok default
  | Raise e => Raise e
  end.

(** [str(v)] *)
Definition py_str (v : json) : string :=
  match v with JStr s => s | _ => str_of v end.

(** A [str] field of a pydantic model *)
Definition validate_str (v : json) : result string :=
  match v with
  | JStr s => Ok s
  | _ => match coerce_str v with Some s => Ok s | None => Raise ValidationError end
  end.

(** [dt.utcoffset()] *)
Definition utcoffset (dt : datetime) : Z :=
  match tz dt with
  | PARK_TIMEZONE => park_utcoffset (wall dt) (fold dt)
  | FixedOffset o => o
  end.

(** [a - b] on aware datetimes, in microseconds: the wall clocks are
    subtracted when both carry the same tzinfo object, the instants
    otherwise. *)
Definition dt_sub (a b : datetime) : Z :=
  match tz a, tz b with
  | PARK_TIMEZONE, PARK_TIMEZONE => wall a - wall b
  | _, _ => (wall a - utcoffset a) - (wall b - utcoffset b)
  end.

(** [a < b] and [a >= b] on aware datetimes *)
Definition dt_lt (a b : datetime) : bool := dt_sub a b <? 0.
Definition dt_ge (a b : datetime) : bool := 0 <=? dt_sub a b.

End Python.

(** ** Schemas ([app/models/schemas.py]); fields the connector leaves at
    their defaults are omitted. *)

Module AttractionStatus.
Inductive t := open | open_soon | maintenance | breakdown | closed.
Global Instance eq_dec : EqDecision t.
Proof. solve_decision. Defined.
(** [status.value] *)
Definition value (s : t) : string :=
  match s with
  | open => "open" | open_soon => "open_soon" | maintenance => "maintenance"
  | breakdown => "breakdown" | closed => "closed"
  end.
End AttractionStatus.

Module SingleRiderInfo.
Record t := { available : bool; status : option string; wait_time : option Z }.
End SingleRiderInfo.

Module VirtualQueueState.
Inductive t := available | temporarily_full | full | closed.
Global Instance eq_dec : EqDecision t.
Proof. solve_decision. Defined.
End VirtualQueueState.

Module VirtualQueueInfo.
Record t := {
  available : bool;
  state : option VirtualQueueState.t;
  return_start : option datetime;
  return_end : option datetime }.
End VirtualQueueInfo.

Module AttractionLive.
Record t := {
  id : string;
  name : string;
  status : AttractionStatus.t;
  wait_time : option Z;
  single_rider : option SingleRiderInfo.t;
  virtual_queue : option VirtualQueueInfo.t }.
End AttractionLive.

Module ShowTime.
Record t := {
  start_date_time : datetime;
  end_date_time : datetime;
  edition : option string }.
End ShowTime.

Module Show.
Record t := {
  id : string;
  name : string;
  status : string;
  show_times : list ShowTime.t }.
End Show.

Module VenueStatus.
Inductive t := open | closed.
End VenueStatus.

(** [Restaurant] and [Shop] declare the same fields. *)
Module Venue.
Record t := {
  id : string;
  name : string;
  status : VenueStatus.t;
  opening_time : option datetime;
  closing_time : option datetime }.
End Venue.

Module Efteling.

Section Connector.
Context `{Runtime}.

Definition VQ_WINDOW_MINUTES : Z := 15.

(** ** State mapping *)

Definition mapping : list (string * AttractionStatus.t) :=
  [ ("open", AttractionStatus.open);
    ("nognietopen", AttractionStatus.open_soon);
    ("storing", AttractionStatus.breakdown);
    ("tijdelijkbuitenbedrijf", AttractionStatus.breakdown);
    ("inonderhoud", AttractionStatus.maintenance);
    ("buitenbedrijf", AttractionStatus.closed);
    ("gesloten", AttractionStatus.closed);
    ("wachtrijgesloten", AttractionStatus.closed);
    ("", AttractionStatus.closed) ].

(** The raw states of the Efteling vocabulary. *)
Definition known_states : list string :=
  ["open"; "nognietopen"; "storing"; "tijdelijkbuitenbedrijf"; "inonderhoud";
   "buitenbedrijf"; "gesloten"; "wachtrijgesloten"].

(** [_map_state(raw)]: a warning is logged for a state outside [mapping];
    logging has no effect on the result. *)
Definition _map_state (raw : json) : result AttractionStatus.t :=
  state ← strip <$> py_lower (py_or raw (JStr ""));
  match dict_lookup mapping state with
  | None => Ok AttractionStatus.closed
  | Some st => Ok st
  end.

(** ** Attractions *)

Definition hashable (v : json) : bool :=
  match v with JList _ | JDict _ => false | _ => true end.

(** One step of [{e["Id"]: e for e in ...}]: [e["Id"]] must exist and be
    hashable. *)
Definition entry_pair (e : json) : result (json * dict) :=
  k ← py_getitem e "Id";
  match e with
  | JDict d => if hashable k then Ok (k, d) else Raise TypeError
  | _ => Raise TypeError
  end.

(** The first loop calls [entry_id.lower()] on every key of [all_entries]
    before anything else can be observed, so a key that is not a str ends
    the call with AttributeError; the keys are strs from there on. *)
Definition str_key (p : json * dict) : result (string * dict) :=
  match p.1 with
  | JStr s => Ok (s, p.2)
  | _ => Raise AttributeError
  end.

Definition dict_of {V} (ps : list (string * V)) : list (string * V) :=
  foldl (λ acc p, dict_set acc p.1 p.2) [] ps.

(** [all_entries], keyed by str *)
Definition all_entries_of (data : json) : result (list (string * dict)) :=
  info ← py_get data "AttractionInfo" (JList []);
  items ← py_iter info;
  pairs ← mapM entry_pair items;
  dict_of <$> mapM str_key pairs.

Definition is_single_rider (entry_id : string) : bool :=
  let lower := lower entry_id in
  contains lower "singlerider" || endswith lower "sr".

Definition parent_id_of (entry_id : string) : string :=
  replace_empty (replace_empty (lower entry_id) "singlerider") "sr".

(** [next((k for k in all_entries if k.lower() == parent_id), None)] *)
Fixpoint find_match (keys : list string) (parent_id : string) : option string :=
  match keys with
  | [] => None
  | k :: ks => if String.eqb (lower k) parent_id then Some k else find_match ks parent_id
  end.

(** [entry_id] is a secondary entry matched to the entry [parent]. *)
Definition matched (keys : list string) (entry_id parent : string) : Prop :=
  is_single_rider entry_id = true
  ∧ find_match keys (parent_id_of entry_id) = Some parent
  ∧ parent ≠ "".

(** The loop that fills [single_rider_map]: sr_id → parent_id.  [if match:]
    is false for [None] and for the empty str. *)
Definition single_rider_step (all_entries : list (string * dict))
    (single_rider_map : list (string * string)) (entry_id : string)
  : list (string * string) :=
  if is_single_rider entry_id then
    match find_match all_entries.*1 (parent_id_of entry_id) with
    | Some m => if String.eqb m "" then single_rider_map
                else dict_set single_rider_map entry_id m
    | None => single_rider_map
    end
  else single_rider_map.

Definition single_rider_map_of (all_entries : list (string * dict))
  : list (string * string) :=
  foldl (single_rider_step all_entries) [] all_entries.*1.

(** [special_merge.get(entry_id, entry_id)] *)
Definition special_merge : list (string * string) :=
  [("droomvluchtstandby", "droomvlucht")].

Definition resolved_id_of (entry_id : string) : string :=
  default entry_id (dict_lookup special_merge entry_id).

(** [next((k for k, v in single_rider_map.items() if v == entry_id), None)] *)
Fixpoint find_sr (single_rider_map : list (string * string)) (entry_id : string)
  : option string :=
  match single_rider_map with
  | [] => None
  | (k, v) :: m => if String.eqb v entry_id then Some k else find_sr m entry_id
  end.

(** [wait_time]: read only when [status] is open *)
Definition wait_time_of (status : AttractionStatus.t) (entry : dict)
  : result (option Z) :=
  match status with
  | AttractionStatus.open => int_or (dict_get entry "WaitingTime" JNull) Some None
  | _ => Ok None
  end.

(** The [# ── Single Rider ──] block *)
Definition single_rider_of (all_entries : list (string * dict))
    (single_rider_map : list (string * string)) (entry_id : string)
  : result (option SingleRiderInfo.t) :=
  match find_sr single_rider_map entry_id with
  | Some sr_id =>
      if String.eqb sr_id "" then Ok None else
      match dict_lookup all_entries sr_id with
      | Some sr =>
          sr_status ← _map_state (dict_get sr "State" (JStr ""));
          sr_wait ← wait_time_of sr_status sr;
          Ok (Some {| SingleRiderInfo.available := true;
                      SingleRiderInfo.status :=
                        Some (if decide (sr_status = AttractionStatus.open)
                              then "open" else "closed");
                      SingleRiderInfo.wait_time := sr_wait |})
      | None => Ok None
      end
  | None => Ok None
  end.

(** The [# ── Virtual Queue ──] block; [now] is what
    [datetime.now(PARK_TIMEZONE)] returns when the block reads the clock. *)
Definition virtual_queue_of (now : datetime) (entry : dict)
  : result (option VirtualQueueInfo.t) :=
  let vq_raw := dict_get entry "VirtualQueue" JNull in
  if truthy vq_raw then
    st ← py_get vq_raw "State" JNull;
    vq_state_raw ← py_lower (py_or st (JStr ""));
    vq_wait ← py_get vq_raw "WaitingTime" JNull;
    if String.eqb vq_state_raw "walkin" then
      Ok (Some {| VirtualQueueInfo.available := true;
                  VirtualQueueInfo.state := Some VirtualQueueState.temporarily_full;
                  VirtualQueueInfo.return_start := None;
                  VirtualQueueInfo.return_end := None |})
    else if String.eqb vq_state_raw "enabled" then
      let now_park := replace_second_microsecond now in
      wait_min ← int_or vq_wait (λ n, n) 0;
      td ← timedelta_minutes wait_min;
      return_start ← dt_add now_park td;
      window ← timedelta_minutes VQ_WINDOW_MINUTES;
      return_end ← dt_add return_start window;
      Ok (Some {| VirtualQueueInfo.available := true;
                  VirtualQueueInfo.state := Some VirtualQueueState.available;
                  VirtualQueueInfo.return_start := Some return_start;
                  VirtualQueueInfo.return_end := Some return_end |})
    else if String.eqb vq_state_raw "full" then
      Ok (Some {| VirtualQueueInfo.available := true;
                  VirtualQueueInfo.state := Some VirtualQueueState.full;
                  VirtualQueueInfo.return_start := None;
                  VirtualQueueInfo.return_end := None |})
    else
      Ok (Some {| VirtualQueueInfo.available := true;
                  VirtualQueueInfo.state := Some VirtualQueueState.closed;
                  VirtualQueueInfo.return_start := None;
                  VirtualQueueInfo.return_end := None |})
  else Ok None.

(** [entry.get("Type") not in ("Attraction", "Attracties")] *)
Definition is_attraction_type (entry : dict) : bool :=
  let ty := dict_get entry "Type" JNull in
  py_eq_str ty "Attraction" || py_eq_str ty "Attracties".

(** The body of the loop over [all_entries.items()]: [None] is [continue]. *)
Definition attraction_of (all_entries : list (string * dict))
    (single_rider_map : list (string * string)) (now : datetime)
    (entry_id : string) (entry : dict) : result (option AttractionLive.t) :=
  if negb (is_attraction_type entry) then Ok None
  else if bool_decide (entry_id ∈ single_rider_map.*1) then Ok None
  else
    let resolved_id := resolved_id_of entry_id in
    status ← _map_state (dict_get entry "State" (JStr ""));
    wait_time ← wait_time_of status entry;
    single_rider ← single_rider_of all_entries single_rider_map entry_id;
    virtual_queue ← virtual_queue_of now entry;
    name ← validate_str (dict_get entry "Name" (JStr "Unknown"));
    Ok (Some {| AttractionLive.id := resolved_id;
                AttractionLive.name := name;
                AttractionLive.status := status;
                AttractionLive.wait_time := wait_time;
                AttractionLive.single_rider := single_rider;
                AttractionLive.virtual_queue := virtual_queue |}).

(** The loop itself; [clock i] is the park-local time at which the entry at
    position [i] of [all_entries] is processed. *)
Fixpoint attractions_from (all_entries : list (string * dict))
    (single_rider_map : list (string * string)) (clock : nat → datetime)
    (i : nat) (items : list (string * dict)) : result (list AttractionLive.t) :=
  match items with
  | [] => Ok []
  | (entry_id, entry) :: rest =>
      a ← attraction_of all_entries single_rider_map (clock i) entry_id entry;
      r ← attractions_from all_entries single_rider_map clock (S i) rest;
      Ok (match a with Some x => x :: r | None => r end)
  end.

(** [fetch_wait_times]: [wis] is the outcome of [await self._fetch_wis()]. *)
Definition fetch_wait_times (wis : result json) (clock : nat → datetime)
  : result (list AttractionLive.t) :=
  match wis with
  | Raise _ => Ok []
  | Ok data =>
      all_entries ← all_entries_of data;
      attractions_from all_entries (single_rider_map_of all_entries) clock 0 all_entries
  end.

(** ** Helpers *)

(** [_parse_dt(value)]: every exception of the parse is caught. *)
Definition _parse_dt (value : json) : option datetime :=
  if truthy value then
    match fromisoformat (py_str value) with
    | Some (w, Some offset) => Some {| wall := w; tz := FixedOffset offset; fold := false |}
    | Some (w, None) => Some {| wall := w; tz := PARK_TIMEZONE; fold := false |}
    | None => None
    end
  else None.

(** ** Shows *)

(** The body of [for t in raw_times]: [None] when [start and end] fails. *)
Definition show_time_of (t : json) : result (option ShowTime.t) :=
  start ← _parse_dt <$> py_get t "StartDateTime" JNull;
  end_ ← _parse_dt <$> py_get t "EndDateTime" JNull;
  match start, end_ with
  | Some start, Some end_ =>
      ed ← py_get t "Edition" JNull;
      edition ← validate_str (py_or ed (JStr "Showtime"));
      Ok (Some {| ShowTime.start_date_time := start;
                  ShowTime.end_date_time := end_;
                  ShowTime.edition := Some edition |})
  | _, _ => Ok None
  end.

(** [show_times.sort(key=lambda x: x.start_date_time)]: a stable sort that
    compares keys with [<]. *)
Fixpoint insert_by_start (x : ShowTime.t) (l : list ShowTime.t) : list ShowTime.t :=
  match l with
  | [] => [x]
  | y :: l' =>
      if dt_lt (ShowTime.start_date_time x) (ShowTime.start_date_time y)
      then x :: y :: l' else y :: insert_by_start x l'
  end.

Definition sort_by_start (l : list ShowTime.t) : list ShowTime.t :=
  foldl (λ acc x, insert_by_start x acc) [] l.

(** [any(st.start_date_time >= now_park for st in show_times)] *)
Definition has_upcoming (now_park : datetime) (show_times : list ShowTime.t) : bool :=
  existsb (λ st, dt_ge (ShowTime.start_date_time st) now_park) show_times.

(** The body of the loop of [fetch_shows]: [None] is [continue]. *)
Definition show_of (now_park : datetime) (entry : json) : result (option Show.t) :=
  ty ← py_get entry "Type" JNull;
  if negb (py_eq_str ty "Shows en Entertainment") then Ok None else
  upcoming ← py_get entry "ShowTimes" JNull;
  past ← py_get entry "PastShowTimes" JNull;
  raw_times ← py_iter_add (py_or upcoming (JList [])) (py_or past (JList []));
  parsed ← mapM show_time_of raw_times;
  let show_times := sort_by_start (omap (λ x, x) parsed) in
  raw_id ← py_get entry "Id" (JStr "");
  id ← py_lower raw_id;
  raw_name ← py_get entry "Name" (JStr "Unknown");
  name ← validate_str raw_name;
  Ok (Some {| Show.id := id;
              Show.name := name;
              Show.status := if has_upcoming now_park show_times then "open" else "closed";
              Show.show_times := show_times |}).

(** [fetch_shows]: [now_park] is read once, before the loop. *)
Definition fetch_shows (wis : result json) (now_park : datetime)
  : result (list Show.t) :=
  match wis with
  | Raise _ => Ok []
  | Ok data =>
      info ← py_get data "AttractionInfo" (JList []);
      items ← py_iter info;
      omap (λ x, x) <$> mapM (show_of now_park) items
  end.

(** ** Restaurants and shops *)

(** The body of the loops of [fetch_restaurants] and [fetch_shops], which
    differ in the [Type] they keep. *)
Definition venue_of (type : string) (entry : json) : result (option Venue.t) :=
  ty ← py_get entry "Type" JNull;
  if negb (py_eq_str ty type) then Ok None else
  opening ← py_get entry "OpeningTimes" JNull;
  let times := py_or opening (JList []) in
  '(opening_time, closing_time, status) ←
    (if truthy times then
       first ← py_first times;
       hour_from ← py_get first "HourFrom" JNull;
       first' ← py_first times;
       hour_to ← py_get first' "HourTo" JNull;
       Ok (_parse_dt hour_from, _parse_dt hour_to, VenueStatus.open)
     else Ok (None, None, VenueStatus.closed));
  raw_id ← py_get entry "Id" (JStr "");
  id ← py_lower raw_id;
  raw_name ← py_get entry "Name" (JStr "Unknown");
  name ← validate_str raw_name;
  Ok (Some {| Venue.id := id;
              Venue.name := name;
              Venue.status := status;
              Venue.opening_time := opening_time;
              Venue.closing_time := closing_time |}).

Definition venues (type : string) (wis : result json) : result (list Venue.t) :=
  match wis with
  | Raise _ => Ok []
  | Ok data =>
      info ← py_get data "AttractionInfo" (JList []);
      items ← py_iter info;
      omap (λ x, x) <$> mapM (venue_of type) items
  end.

Definition fetch_restaurants : result json → result (list Venue.t) := venues "Horeca".
Definition fetch_shops : result json → result (list Venue.t) := venues "Souvenirwinkel".

(** ** The WIS response cache *)

(** The two attributes of the connector instance; [JNull] is [None].  Times
    are UTC instants in microseconds. *)
Record EftelingConnector := {
  _wis_cache : json;
  _wis_cache_time : option Z }.

Definition WIS_CACHE_SECONDS : Z := 60.

(** The guard of [_fetch_wis].  [(now - t).total_seconds()] divides a whole
    number of microseconds by 10^6 with correct rounding, and 60 is a
    double, so the comparison with 60 agrees with the exact one. *)
Definition cache_is_fresh (self : EftelingConnector) (now : Z) : bool :=
  match _wis_cache self, _wis_cache_time self with
  | JNull, _ => false
  | _, None => false
  | _, Some t => now - t <? WIS_CACHE_SECONDS * 1000000
  end.

(** [_fetch_wis]: [transport n] is the outcome of the GET number [n] issued
    by this connector ([raise_for_status] and [resp.json()] included), and
    [calls] counts the GETs issued so far. *)
Definition _fetch_wis (transport : nat → result json) (now : Z)
    (self : EftelingConnector) (calls : nat)
  : result json * EftelingConnector * nat :=
  if cache_is_fresh self now then (Ok (_wis_cache self), self, calls)
  else
    match transport calls with
    | Ok data =>
        (Ok data, {| _wis_cache := data; _wis_cache_time := Some now |}, S calls)
    | Raise e => (Raise e, self, S calls)
    end.

End Connector.
End Efteling.

(** * The scheduler ([app/scheduler.py]) *)

Module Scheduler.

Abbreviation path := (list string).

(** What a park connector returns during one tick ([BaseParkConnector]). *)
Record Connector (Calendar : Type) := {
  park_name : string;
  fetch_wait_times : result (list AttractionLive.t);
  fetch_shows : result (list Show.t);
  fetch_restaurants : result (list Venue.t);
  fetch_shops : result (list Venue.t);
  fetch_calendar : result Calendar }.
Arguments park_name {_} _.
Arguments fetch_wait_times {_} _.
Arguments fetch_shows {_} _.
Arguments fetch_restaurants {_} _.
Arguments fetch_shops {_} _.
Arguments fetch_calendar {_} _.

(** A document of the [wait_times] collection; a key that is only sometimes
    set is an option. *)
Record Doc := {
  doc_park_id : string;
  ride_id : string;
  ride_name : string;
  doc_status : string;
  doc_wait_time : option Z;
  timestamp : Z;
  single_rider_wait : option (option Z);
  single_rider_status : option (option string);
  virtual_queue_state : option (option VirtualQueueState.t) }.

(** The dict written to [live.json]; [model_dump] keeps the content of the
    models. *)
Record LiveData := {
  park_id : string;
  live_park_name : string;
  last_updated : Z;
  park_status : string;
  attractions : list AttractionLive.t;
  shows : list Show.t;
  restaurants : list Venue.t;
  shops : list Venue.t }.

Inductive LogRecord :=
  | UnhandledError (park_id : string) (e : exn)
  | CalendarError (park_id : string) (e : exn)
  | InsertFailed (park_id : string) (e : exn).

(** The files under [DATA_DIR], the [wait_times] collection ([None] when
    [get_db()] is [None]) and the error log. *)
Record World := {
  files : gmap path string;
  db : option (list Doc);
  log : list LogRecord }.

(** ** Snapshot writer *)

Inductive fs_op :=
  | Mkdir (dir : path)
  | OpenW (p : path)
  | Write (p : path) (chunk : string)
  | Close (p : path)
  | Rename (src dst : path).

(** The effect of one file-system operation on the files a reader can open:
    [open(p, "w")] creates or truncates, [write] appends, [rename] replaces
    the destination by the source in one step. *)
Definition fs_step (fs : gmap path string) (op : fs_op) : gmap path string :=
  match op with
  | Mkdir _ => fs
  | OpenW p => <[p := ""]> fs
  | Write p chunk => alter (λ content, content +:+ chunk) p fs
  | Close _ => fs
  | Rename src dst =>
      match fs !! src with
      | Some content => <[dst := content]> (delete src fs)
      | None => fs
      end
  end.

(** The paths an operation can change. *)
Definition targets (op : fs_op) : list path :=
  match op with
  | Mkdir _ | Close _ => []
  | OpenW p | Write p _ => [p]
  | Rename src dst => [src; dst]
  end.

Definition run (ops : list fs_op) (fs : gmap path string) : gmap path string :=
  foldl fs_step fs ops.

(** The complete document [json.dump] produces from its chunks. *)
Definition document (chunks : list string) : string :=
  foldl String.append "" chunks.

(** The world after the [try] around a park's step: an exception is logged
    with the record of the job. *)
Definition after_step (record : string → exn → LogRecord) (park_id : string)
    (r : result unit) (w : World) : World :=
  match r with
  | Ok _ => w
  | Raise e => {| files := files w; db := db w; log := log w ++ [record park_id e] |}
  end.

Section Jobs.
Context {Calendar : Type}.
(** [DATA_DIR], as path components *)
Variable DATA_DIR : path.
(** The chunks [json.dump(data, f, default=str, ensure_ascii=False,
    indent=2)] writes *)
Variable dump_live : LiveData → list string.
Variable dump_calendar : Calendar → list string.
(** [db.wait_times.insert_many(docs, ordered=False)]: the collection
    afterwards and the exception raised, if any *)
Variable insert_many : list Doc → list Doc → list Doc * option exn.
(** [datetime.now(timezone.utc)] at the start of a park's step *)
Variable clock : string → Z.
(** The operation of a write to the given final path that fails with
    OSError, if any *)
Variable disk_fault : path → option nat.

Definition park_dir (park_id : string) : path := DATA_DIR ++ [park_id].
Definition tmp_path (park_id filename : string) : path :=
  park_dir park_id ++ [filename +:+ ".tmp"].
Definition final_path (park_id filename : string) : path :=
  park_dir park_id ++ [filename].

(** The file-system operations of [_write_json], in order. *)
Definition write_ops (park_id filename : string) (chunks : list string) : list fs_op :=
  [Mkdir (park_dir park_id); OpenW (tmp_path park_id filename)]
  ++ (Write (tmp_path park_id filename) <$> chunks)
  ++ [Close (tmp_path park_id filename);
      Rename (tmp_path park_id filename) (final_path park_id filename)].

(** The operations before the rename, which leave the final path alone. *)
Definition staging (park_id filename : string) (chunks : list string) : list fs_op :=
  [Mkdir (park_dir park_id); OpenW (tmp_path park_id filename)]
  ++ (Write (tmp_path park_id filename) <$> chunks)
  ++ [Close (tmp_path park_id filename)].

(** [_write_json(park_id, filename, data)], given the chunks of [data]: the
    operations before a failing one have taken place. *)
Definition _write_json (park_id filename : string) (chunks : list string)
    (fs : gmap path string) : result unit * gmap path string :=
  let ops := write_ops park_id filename chunks in
  match disk_fault (final_path park_id filename) with
  | Some n =>
      if bool_decide (n < length ops)%nat
      then (Raise OSError, run (take n ops) fs)
      else (Ok (), run ops fs)
  | None => (Ok (), run ops fs)
  end.

(** ** Job: live data *)

Definition _derive_park_status (attractions : list AttractionLive.t) : string :=
  match attractions with
  | [] => "unknown"
  | _ =>
      if existsb (λ a, bool_decide
                    (AttractionStatus.value (AttractionLive.status a)
                       ∈ ["open"; "open_soon"])) attractions
      then "open" else "closed"
  end.

Definition doc_of (park_id : string) (now : Z) (attr : AttractionLive.t) : Doc :=
  let sr := match AttractionLive.single_rider attr with
            | Some sr => if SingleRiderInfo.available sr then Some sr else None
            | None => None
            end in
  let vq := match AttractionLive.virtual_queue attr with
            | Some vq => if VirtualQueueInfo.available vq then Some vq else None
            | None => None
            end in
  {| doc_park_id := park_id;
     ride_id := AttractionLive.id attr;
     ride_name := AttractionLive.name attr;
     doc_status := AttractionStatus.value (AttractionLive.status attr);
     doc_wait_time := AttractionLive.wait_time attr;
     timestamp := now;
     single_rider_wait := SingleRiderInfo.wait_time <$> sr;
     single_rider_status := SingleRiderInfo.status <$> sr;
     virtual_queue_state := VirtualQueueInfo.state <$> vq |}.

(** The [# ── MongoDB ──] block: a failed insert is logged and swallowed. *)
Definition store_history (park_id : string) (now : Z)
    (attractions : list AttractionLive.t) (w : World) : World :=
  match attractions, db w with
  | _ :: _, Some collection =>
      let '(collection', failure) := insert_many (doc_of park_id now <$> attractions) collection in
      {| files := files w;
         db := Some collection';
         log := match failure with
                | Some e => log w ++ [InsertFailed park_id e]
                | None => log w
                end |}
  | _, _ => w
  end.

Definition live_data_of (park_id : string) (connector : Connector Calendar) (now : Z)
    (attractions : list AttractionLive.t) (shows : list Show.t)
    (restaurants shops : list Venue.t) : LiveData :=
  {| park_id := park_id;
     live_park_name := park_name connector;
     last_updated := now;
     park_status := _derive_park_status attractions;
     attractions := attractions;
     shows := shows;
     restaurants := restaurants;
     shops := shops |}.

Definition _fetch_park_live (park_id : string) (connector : Connector Calendar)
    (w : World) : result unit * World :=
  let now := clock park_id in
  match fetch_wait_times connector with
  | Raise e => (Raise e, w)
  | Ok attractions =>
  match fetch_shows connector with
  | Raise e => (Raise e, w)
  | Ok shows =>
  match fetch_restaurants connector with
  | Raise e => (Raise e, w)
  | Ok restaurants =>
  match fetch_shops connector with
  | Raise e => (Raise e, w)
  | Ok shops =>
      let w := store_history park_id now attractions w in
      let live_data := live_data_of park_id connector now attractions shows restaurants shops in
      let '(r, fs) := _write_json park_id "live.json" (dump_live live_data) (files w) in
      (r, {| files := fs; db := db w; log := log w |})
  end end end end.

(** [fetch_all_live]: [PARKS.items()] in order; [except Exception] around
    each park. *)
Fixpoint fetch_all_live (PARKS : list (string * Connector Calendar)) (w : World) : World :=
  match PARKS with
  | [] => w
  | (park_id, connector) :: rest =>
      let '(r, w') := _fetch_park_live park_id connector w in
      fetch_all_live rest
        match r with
        | Ok _ => w'
        | Raise e => {| files := files w'; db := db w';
                        log := log w' ++ [UnhandledError park_id e] |}
        end
  end.

(** ** Job: calendars *)

Definition fetch_park_calendar (park_id : string) (connector : Connector Calendar)
    (w : World) : result unit * World :=
  match fetch_calendar connector with
  | Raise e => (Raise e, w)
  | Ok calendar =>
      let '(r, fs) := _write_json park_id "calendar.json" (dump_calendar calendar) (files w) in
      (r, {| files := fs; db := db w; log := log w |})
  end.

Fixpoint fetch_all_calendars (PARKS : list (string * Connector Calendar)) (w : World) : World :=
  match PARKS with
  | [] => w
  | (park_id, connector) :: rest =>
      let '(r, w') := fetch_park_calendar park_id connector w in
      fetch_all_calendars rest
        match r with
        | Ok _ => w'
        | Raise e => {| files := files w'; db := db w';
                        log := log w' ++ [CalendarError park_id e] |}
        end
  end.

End Jobs.
End Scheduler.

(** * What the connector returns, read off its loops *)

Module Returned.
Import Efteling.

(** The entries the loop of [fetch_wait_times] appends for: of an attraction
    type and not a key of [single_rider_map]. *)
Definition is_returned (single_rider_map : list (string * string))
    (p : string * dict) : bool :=
  is_attraction_type p.2 && negb (bool_decide (p.1 ∈ single_rider_map.*1)).

Fixpoint returned_ids (single_rider_map : list (string * string))
    (items : list (string * dict)) : list string :=
  match items with
  | [] => []
  | p :: rest =>
      if is_returned single_rider_map p
      then resolved_id_of p.1 :: returned_ids single_rider_map rest
      else returned_ids single_rider_map rest
  end.

(** The state of a virtual queue that is not enabled. *)
Definition queue_state (vq_state_raw : string) : VirtualQueueState.t :=
  if String.eqb vq_state_raw "walkin" then VirtualQueueState.temporarily_full
  else if String.eqb vq_state_raw "full" then VirtualQueueState.full
  else VirtualQueueState.closed.

(** What two datetimes of one kind of tzinfo are ordered by: the wall clock
    under [PARK_TIMEZONE], the instant under a fixed offset. *)
Definition sort_key (dt : datetime) : Z :=
  match tz dt with
  | PARK_TIMEZONE => wall dt
  | FixedOffset o => wall dt - o
  end.

(** All of [PARK_TIMEZONE], or all of fixed offsets. *)
Definition one_kind (l : list datetime) : Prop :=
  Forall (λ dt, tz dt = PARK_TIMEZONE) l
  ∨ Forall (λ dt, ∃ o, tz dt = FixedOffset o) l.

End Returned.

(** * The four fetches of a live tick on the Efteling connector

    [_fetch_park_live] awaits the four methods one after another on one
    connector instance; each of them starts with [self._fetch_wis()]. *)

Module LiveFetch.
Import Efteling.

Section Methods.
Context `{Runtime}.
(** The outcome of the GET number [n] *)
Variable transport : nat → result json.
(** [datetime.now(timezone.utc)] in the [n]-th call of [_fetch_wis] of the
    tick *)
Variable t : nat → Z.
(** [datetime.now(PARK_TIMEZONE)]: the [n]-th one of [fetch_wait_times], and
    the one of [fetch_shows] *)
Variable clock : nat → datetime.
Variable now_park : datetime.

Definition Fetched : Type :=
  list AttractionLive.t * list Show.t * list Venue.t * list Venue.t.

(** Lines 82 to 85 of [_fetch_park_live]: what the four awaits return, the
    connector afterwards and the number of GETs issued; an exception of a
    method ends the step. *)
Definition live_fetches (self : EftelingConnector) (calls : nat)
  : result Fetched * EftelingConnector * nat :=
  let '(wis, self, calls) := _fetch_wis transport (t 0) self calls in
  match fetch_wait_times wis clock with
  | Raise e => (Raise e, self, calls)
  | Ok attractions =>
  let '(wis, self, calls) := _fetch_wis transport (t 1) self calls in
  match fetch_shows wis now_park with
  | Raise e => (Raise e, self, calls)
  | Ok shows =>
  let '(wis, self, calls) := _fetch_wis transport (t 2) self calls in
  match fetch_restaurants wis with
  | Raise e => (Raise e, self, calls)
  | Ok restaurants =>
  let '(wis, self, calls) := _fetch_wis transport (t 3) self calls in
  match fetch_shops wis with
  | Raise e => (Raise e, self, calls)
  | Ok shops => (Ok (attractions, shows, restaurants, shops), self, calls)
  end end end end.

(** The four methods on one and the same response. *)
Definition fetched_from (wis : result json) : result Fetched :=
  attractions ← fetch_wait_times wis clock;
  shows ← fetch_shows wis now_park;
  restaurants ← fetch_restaurants wis;
  shops ← fetch_shops wis;
  Ok (attractions, shows, restaurants, shops).

End Methods.
End LiveFetch.

(** * The calendar schemas ([app/models/schemas.py]) *)

Module ParkHours.
Record t := {
  opening_time : string;
  closing_time : string;
  type : string;
  description : option string }.
End ParkHours.

Module ParkDay.
Record t := {
  date : string;
  is_open : bool;
  hours : list ParkHours.t;
  special_event : option string }.
End ParkDay.

Module ParkCalendar.
Record t := {
  park_id : string;
  park_name : string;
  last_updated : Z;
  days : list ParkDay.t }.
End ParkCalendar.

(** * The park registry ([app/parks/__init__.py]) *)

Module Parks.

(** [_PlaceholderConnector(park_id, park_name)]; [now] is
    [datetime.now(timezone.utc)] in [fetch_calendar]. *)
Definition _PlaceholderConnector (park_id park_name : string) (now : Z)
  : Scheduler.Connector ParkCalendar.t :=
  {| Scheduler.park_name := park_name;
     Scheduler.fetch_wait_times := Ok [];
     Scheduler.fetch_shows := Ok [];
     Scheduler.fetch_restaurants := Ok [];
     Scheduler.fetch_shops := Ok [];
     Scheduler.fetch_calendar :=
       Ok {| ParkCalendar.park_id := park_id;
             ParkCalendar.park_name := park_name;
             ParkCalendar.last_updated := now;
             ParkCalendar.days := [] |} |}.

(** [PARKS], in insertion order; [efteling] is what [EftelingConnector()]
    returns during the tick. *)
Definition PARKS (efteling : Scheduler.Connector ParkCalendar.t) (now : Z)
  : list (string * Scheduler.Connector ParkCalendar.t) :=
  [ ("efteling", efteling);
    ("disneylandparis", _PlaceholderConnector "disneylandparis" "Disneyland Paris" now);
    ("europapark", _PlaceholderConnector "europapark" "Europa-Park" now);
    ("phantasialand", _PlaceholderConnector "phantasialand" "Phantasialand" now) ].

Definition get_park (efteling : Scheduler.Connector ParkCalendar.t) (now : Z)
    (park_id : string) : option (Scheduler.Connector ParkCalendar.t) :=
  dict_lookup (PARKS efteling now) park_id.

End Parks.

(** * Reading the snapshots ([app/services/data_loader.py]) *)

Module DataLoader.
Import Scheduler.

(** What a handler does: return, raise an [HTTPException] with a status
    code, or raise something else. *)
Inductive response (A : Type) :=
  | Return (a : A)
  | HTTPException (status_code : Z)
  | Uncaught (e : exn).
Arguments Return {A} a.
Arguments HTTPException {A} status_code.
Arguments Uncaught {A} e.

Definition SUPPORTED_PARKS : list string :=
  ["efteling"; "disneylandparis"; "europapark"; "phantasialand"].

(** [s.lstrip("/")] and [s.rstrip("/")] *)
Fixpoint lstrip_slashes (s : string) : string :=
  match s with
  | EmptyString => EmptyString
  | String c s' => if Ascii.eqb c "/" then lstrip_slashes s' else s
  end.

Fixpoint rstrip_slashes (s : string) : string :=
  match s with
  | EmptyString => EmptyString
  | String c s' =>
      match rstrip_slashes s' with
      | EmptyString => if Ascii.eqb c "/" then EmptyString else String c EmptyString
      | rest => String c rest
      end
  end.

(** [s.split("/")[0]]: what comes before the first "/" *)
Fixpoint first_segment (s : string) : string :=
  match s with
  | EmptyString => EmptyString
  | String c s' => if Ascii.eqb c "/" then EmptyString else String c (first_segment s')
  end.

(** [get_park_id(request)], given [request.url.path] *)
Definition get_park_id (url_path : string) : response string :=
  let park_id := first_segment (rstrip_slashes (lstrip_slashes url_path)) in
  if bool_decide (park_id ∈ SUPPORTED_PARKS) then Return park_id
  else HTTPException 404.

Section Files.
(** [DATA_DIR] and [RIDE_INFO_DIR], as path components *)
Variable DATA_DIR RIDE_INFO_DIR : path.
(** [json.load] on the content of a file *)
Variable json_load : string → result json.

(** [with open(path, "r", encoding="utf-8") as f: return json.load(f)] on a
    file that exists *)
Definition read_json (content : string) : response json :=
  match json_load content with
  | Ok data => Return data
  | Raise e => Uncaught e
  end.

Definition load_live_json (fs : gmap path string) (park_id : string) : response json :=
  match fs !! (DATA_DIR ++ [park_id; "live.json"]) with
  | None => HTTPException 503
  | Some content => read_json content
  end.

Definition load_calendar_json (fs : gmap path string) (park_id : string) : response json :=
  match fs !! (DATA_DIR ++ [park_id; "calendar.json"]) with
  | None => HTTPException 503
  | Some content => read_json content
  end.

Definition load_ride_info (fs : gmap path string) (park_id : string) : response json :=
  match fs !! (RIDE_INFO_DIR ++ [park_id +:+ ".json"]) with
  | None => HTTPException 404
  | Some content => read_json content
  end.

End Files.
End DataLoader.

(** * Static ride info ([app/routers/ride_info.py]) *)

Module Routers.
Import Scheduler DataLoader.

(** [next((a for a in items if a["id"] == ride_id), None)]: the generator
    stops at the first match. *)
Fixpoint first_with_id (ride_id : string) (items : list json) : result json :=
  match items with
  | [] => Ok JNull
  | a :: rest =>
      id ← py_getitem a "id";
      if py_eq_str id ride_id then Ok a else first_with_id ride_id rest
  end.

Section Handlers.
Variable RIDE_INFO_DIR : path.
Variable json_load : string → result json.

(** [get_single_ride_info(request, ride_id)] *)
Definition get_single_ride_info (fs : gmap path string) (url_path ride_id : string)
  : response json :=
  match get_park_id url_path with
  | HTTPException status_code => HTTPException status_code
  | Uncaught e => Uncaught e
  | Return park_id =>
  match load_ride_info RIDE_INFO_DIR json_load fs park_id with
  | HTTPException status_code => HTTPException status_code
  | Uncaught e => Uncaught e
  | Return data =>
      match attractions ← py_get data "attractions" (JList []);
            items ← py_iter attractions;
            first_with_id ride_id items with
      | Raise e => Uncaught e
      | Ok ride => if truthy ride then Return ride else HTTPException 404
      end
  end end.

End Handlers.
End Routers.

(** * The opening calendar ([EftelingConnector.fetch_calendar]) *)

Module Calendar.

(** ** The date fields of a datetime

    [_ord2ymd] of CPython's datetime, on proleptic Gregorian ordinals
    (0001-01-01 is day 1). *)

Definition DI400Y : Z := 146097.
Definition DI100Y : Z := 36524.
Definition DI4Y : Z := 1461.

Definition _DAYS_IN_MONTH : list Z :=
  [-1; 31; 28; 31; 30; 31; 30; 31; 31; 30; 31; 30; 31].
Definition _DAYS_BEFORE_MONTH : list Z :=
  [-1; 0; 31; 59; 90; 120; 151; 181; 212; 243; 273; 304; 334].

Definition _days_in_month (y m : Z) : Z :=
  if (m =? 2) && is_leap y then 29 else nth (Z.to_nat m) _DAYS_IN_MONTH 0.

(** The month and the day of day [n], counted from 0, of a year: the
    estimate [(n + 50) >> 5] is exact or one too large. *)
Definition month_and_day (leapyear : bool) (n : Z) : Z * Z :=
  let month := Z.shiftr (n + 50) 5 in
  let preceding := nth (Z.to_nat month) _DAYS_BEFORE_MONTH 0
                   + (if (2 <? month) && leapyear then 1 else 0) in
  if n <? preceding then
    let month := month - 1 in
    let preceding := preceding
                     - (nth (Z.to_nat month) _DAYS_IN_MONTH 0
                        + (if (month =? 2) && leapyear then 1 else 0)) in
    (month, n - preceding + 1)
  else (month, n - preceding + 1).

Definition _ord2ymd (n : Z) : Z * Z * Z :=
  let n := n - 1 in
  let n400 := n `div` DI400Y in
  let n := n `mod` DI400Y in
  let n100 := n `div` DI100Y in
  let n := n `mod` DI100Y in
  let n4 := n `div` DI4Y in
  let n := n `mod` DI4Y in
  let n1 := n `div` 365 in
  let n := n `mod` 365 in
  let year := n400 * 400 + 1 + n100 * 100 + n4 * 4 + n1 in
  if (n1 =? 4) || (n100 =? 4) then (year - 1, 12, 31)
  else
    let leapyear := (n1 =? 3) && (negb (n4 =? 24) || (n100 =? 3)) in
    let '(month, day) := month_and_day leapyear n in
    (year, month, day).

(** [dt.year], [dt.month] and [dt.day] *)
Definition ymd (dt : datetime) : Z * Z * Z := _ord2ymd (wall dt `div` US_PER_DAY + 1).
Definition year (dt : datetime) : Z := (ymd dt).1.1.
Definition month (dt : datetime) : Z := (ymd dt).1.2.
Definition day (dt : datetime) : Z := (ymd dt).2.

(** [dt.replace(day=1)] *)
Definition replace_day_1 (dt : datetime) : datetime :=
  {| wall := wall dt - (day dt - 1) * US_PER_DAY; tz := tz dt; fold := fold dt |}.

(** [(now.replace(day=1) + timedelta(days=32 * offset)).replace(day=1)] *)
Definition target_of (now : datetime) (offset : Z) : result datetime :=
  replace_day_1 <$> dt_add (replace_day_1 now) (32 * offset * US_PER_DAY).

(** The month [k] months after month [m] of year [y] *)
Definition months_later (y m k : Z) : Z * Z :=
  (y + (m - 1 + k) `div` 12, (m - 1 + k) `mod` 12 + 1).

(** ** Sorting the hours of a day *)

(** [a < b] on strs: by code points, a proper prefix first *)
Fixpoint str_lt (a b : string) : bool :=
  match a, b with
  | _, EmptyString => false
  | EmptyString, String _ _ => true
  | String x a', String y b' =>
      if code x <? code y then true
      else if code y <? code x then false
      else str_lt a' b'
  end.

Fixpoint insert_by_key (x : string * json) (l : list (string * json))
  : list (string * json) :=
  match l with
  | [] => [x]
  | y :: l' => if str_lt x.1 y.1 then x :: y :: l' else y :: insert_by_key x l'
  end.

(** The key of an item when it is a str *)
Definition str_keyed (kv : json * json) : option (string * json) :=
  match kv.1 with
  | JStr s => Some (s, kv.2)
  | _ => None
  end.

(** What [GET CALENDAR_URL.format(year, month)] gives inside the [try]:
    status 400, an exception ([raise_for_status], the transport or
    [resp.json()]), or the decoded payload. *)
Inductive month_response :=
  | Status400
  | Failed (e : exn)
  | Payload (cal : json).

Section Fetch.
Context `{Runtime}.
(** [sorted] on two or more items whose keys are not all strs: the order it
    gives, or the TypeError of a comparison *)
Variable sorted_mixed : list (json * json) → result (list json).
Variable get : Z → Z → month_response.

(** [sorted(items, key=...)], given the items with their keys: a stable
    sort that compares keys with [<]; without a second item nothing is
    compared. *)
Definition sorted_by_key (keyed : list (json * json)) : result (list json) :=
  match keyed with
  | [] | [_] => Ok keyed.*2
  | _ =>
      match mapM str_keyed keyed with
      | Some strs => Ok (foldl (λ acc x, insert_by_key x acc) [] strs).*2
      | None => sorted_mixed keyed
      end
  end.

(** One [ParkHours(...)] of the comprehension over [enumerate(raw_hours)] *)
Definition park_hours_of (idx : nat) (h : json) : result ParkHours.t :=
  open ← py_get h "Open" (JStr "");
  close ← py_get h "Close" (JStr "");
  opening_time ← validate_str open;
  closing_time ← validate_str close;
  Ok {| ParkHours.opening_time := opening_time;
        ParkHours.closing_time := closing_time;
        ParkHours.type := if Nat.eqb idx 0 then "operating" else "informational";
        ParkHours.description := if Nat.eqb idx 0 then None else Some "Evening Hours" |}.

Fixpoint hours_from (idx : nat) (raw_hours : list json) : result (list ParkHours.t) :=
  match raw_hours with
  | [] => Ok []
  | h :: rest =>
      x ← park_hours_of idx h;
      xs ← hours_from (S idx) rest;
      Ok (x :: xs)
  end.

(** The body of [for day_entry in cal.get("OpeningHours", [])] *)
Definition day_of (day_entry : json) : result ParkDay.t :=
  raw ← py_get day_entry "OpeningHours" (JList []);
  items ← py_iter raw;
  keys ← mapM (λ h, py_get h "Open" (JStr "00:00")) items;
  raw_hours ← sorted_by_key (zip keys items);
  park_hours ← hours_from 0 raw_hours;
  raw_date ← py_get day_entry "Date" (JStr "");
  date ← validate_str raw_date;
  Ok {| ParkDay.date := date;
        ParkDay.is_open := bool_decide (0 < length park_hours)%nat;
        ParkDay.hours := park_hours;
        ParkDay.special_event := None |}.

Definition month_days (cal : json) : result (list ParkDay.t) :=
  opening ← py_get cal "OpeningHours" (JList []);
  entries ← py_iter opening;
  mapM day_of entries.

(** The days a target month adds *)
Definition contribution (target : datetime) : result (list ParkDay.t) :=
  match get (year target) (month target) with
  | Status400 | Failed _ => Ok []
  | Payload cal => month_days cal
  end.

(** [for offset in range(3)], with the days collected so far: a month that
    answers 400 or fails is skipped. *)
Fixpoint months (now : datetime) (offsets : list Z) (days : list ParkDay.t)
  : result (list ParkDay.t) :=
  match offsets with
  | [] => Ok days
  | offset :: rest =>
      target ← target_of now offset;
      match get (year target) (month target) with
      | Status400 | Failed _ => months now rest days
      | Payload cal =>
          new ← month_days cal;
          months now rest (days ++ new)
      end
  end.

(** [fetch_calendar]: [now] is [datetime.now(PARK_TIMEZONE)] and [utc_now]
    the later [datetime.now(timezone.utc)]. *)
Definition fetch_calendar (now : datetime) (utc_now : Z) : result ParkCalendar.t :=
  days ← months now [0; 1; 2] [];
  Ok {| ParkCalendar.park_id := "efteling";
        ParkCalendar.park_name := "Efteling";
        ParkCalendar.last_updated := utc_now;
        ParkCalendar.days := days |}.

End Fetch.
End Calendar.

(** * A runtime for the closed examples

    It decides the inputs the examples use the way CPython does: decimal
    integer literals, ISO 8601 strings of the form
    [YYYY-MM-DDTHH:MM:SS] with an optional [+HH:MM] or [-HH:MM], Central
    European Time (UTC+1, the offset of Europe/Amsterdam in winter), and no
    coercion of other values to [str]. *)

Module Sample.

Fixpoint number (acc : Z) (cs : list ascii) : option Z :=
  match cs with
  | [] => Some acc
  | c :: cs' =>
      match Ascii.is_nat c with
      | Some d => number (acc * 10 + Z.of_nat d) cs'
      | None => None
      end
  end.

Definition decimal (s : string) : option Z :=
  match String.list_ascii_of_string (strip s) with
  | [] => None
  | "-"%char :: ((_ :: _) as cs) => Z.opp <$> number 0 cs
  | "+"%char :: ((_ :: _) as cs) => number 0 cs
  | cs => number 0 cs
  end.

Definition days_in_month (y m : Z) : Z :=
  if m =? 2 then (if is_leap y then 29 else 28)
  else if (m =? 4) || (m =? 6) || (m =? 9) || (m =? 11) then 30 else 31.

Definition offset_of (cs : list ascii) : option (option Z) :=
  match cs with
  | [] => Some None
  | sign :: h1 :: h2 :: ":"%char :: m1 :: m2 :: [] =>
      h ← number 0 [h1; h2];
      m ← number 0 [m1; m2];
      if (h <? 24) && (m <? 60) then
        if Ascii.eqb sign "+" then Some (Some ((h * 60 + m) * US_PER_MINUTE))
        else if Ascii.eqb sign "-" then Some (Some (- ((h * 60 + m) * US_PER_MINUTE)))
        else None
      else None
  | _ => None
  end.

Definition iso8601 (s : string) : option (Z * option Z) :=
  match String.list_ascii_of_string s with
  | y1 :: y2 :: y3 :: y4 :: "-"%char :: mo1 :: mo2 :: "-"%char :: d1 :: d2 :: "T"%char
    :: h1 :: h2 :: ":"%char :: mi1 :: mi2 :: ":"%char :: s1 :: s2 :: rest =>
      y ← number 0 [y1; y2; y3; y4];
      mo ← number 0 [mo1; mo2];
      d ← number 0 [d1; d2];
      h ← number 0 [h1; h2];
      mi ← number 0 [mi1; mi2];
      sec ← number 0 [s1; s2];
      offset ← offset_of rest;
      if (1 <=? y) && (1 <=? mo) && (mo <=? 12) && (1 <=? d) && (d <=? days_in_month y mo)
         && (h <? 24) && (mi <? 60) && (sec <? 60)
      then Some (civil y mo d h mi sec, offset) else None
  | _ => None
  end.

Definition CET : Z := 60 * US_PER_MINUTE.

Global Instance runtime : Runtime := {|
  int_of_str := decimal;
  str_of := λ _, "";
  fromisoformat := iso8601;
  park_utcoffset := λ _ _, CET;
  coerce_str := λ _, None |}.

(** [datetime(y, mo, d, h, mi, s, tzinfo=PARK_TIMEZONE)] *)
Definition park_time (y mo d h mi s : Z) : datetime :=
  {| wall := civil y mo d h mi s; tz := PARK_TIMEZONE; fold := false |}.

(** An [AttractionInfo] entry of type Attraction *)
Definition attraction_entry (id state : string) (wait : Z) : json :=
  JDict [("Id", JStr id); ("Name", JStr id); ("Type", JStr "Attraction");
         ("State", JStr state); ("WaitingTime", JInt wait)].

Definition wis (entries : list json) : json :=
  JDict [("AttractionInfo", JList entries)].

(** An attraction whose virtual queue is enabled with the given wait. *)
Definition enabled_entry (wait : json) : json :=
  JDict [("Id", JStr "python"); ("Name", JStr "Python"); ("Type", JStr "Attraction");
         ("State", JStr "open"); ("WaitingTime", JInt 10);
         ("VirtualQueue", JDict [("State", JStr "enabled"); ("WaitingTime", wait)])].

Definition enabled_result (return_start return_end : datetime) : AttractionLive.t :=
  {| AttractionLive.id := "python";
     AttractionLive.name := "Python";
     AttractionLive.status := AttractionStatus.open;
     AttractionLive.wait_time := Some 10;
     AttractionLive.single_rider := None;
     AttractionLive.virtual_queue :=
       Some {| VirtualQueueInfo.available := true;
               VirtualQueueInfo.state := Some VirtualQueueState.available;
               VirtualQueueInfo.return_start := Some return_start;
               VirtualQueueInfo.return_end := Some return_end |} |}.

(** The clock of the examples: 2026-02-20T14:00:00, park-local. *)
Definition clock (i : nat) : datetime := park_time 2026 2 20 14 0 0.

Definition dreamflight : AttractionLive.t :=
  {| AttractionLive.id := "dreamflight";
     AttractionLive.name := "dreamflight";
     AttractionLive.status := AttractionStatus.open;
     AttractionLive.wait_time := Some 12;
     AttractionLive.single_rider :=
       Some {| SingleRiderInfo.available := true;
               SingleRiderInfo.status := Some "open";
               SingleRiderInfo.wait_time := Some 3 |};
     AttractionLive.virtual_queue := None |}.

(** A show with one show time *)
Definition show_entry (start_ end_ : string) : json :=
  JDict [("Id", JStr "Raveleijn"); ("Name", JStr "Raveleijn");
         ("Type", JStr "Shows en Entertainment");
         ("ShowTimes", JList [JDict [("StartDateTime", JStr start_);
                                     ("EndDateTime", JStr end_)]])].

Definition show_time (start_ end_ : datetime) : ShowTime.t :=
  {| ShowTime.start_date_time := start_;
     ShowTime.end_date_time := end_;
     ShowTime.edition := Some "Showtime" |}.

Definition show_result (status : string) (st : ShowTime.t) : Show.t :=
  {| Show.id := "raveleijn"; Show.name := "Raveleijn";
     Show.status := status; Show.show_times := [st] |}.

(** [datetime(y, mo, d, h, mi, s, tzinfo=timezone(timedelta(hours=1)))] *)
Definition cet_time (y mo d h mi s : Z) : datetime :=
  {| wall := civil y mo d h mi s; tz := FixedOffset CET; fold := false |}.

(** A tick over two parks: the first connector fails in [fetch_shows], the
    second returns empty lists. *)
Definition failing : Scheduler.Connector unit :=
  {| Scheduler.park_name := "Efteling";
     Scheduler.fetch_wait_times := Ok [dreamflight];
     Scheduler.fetch_shows := Raise AttributeError;
     Scheduler.fetch_restaurants := Ok [];
     Scheduler.fetch_shops := Ok [];
     Scheduler.fetch_calendar := Raise HTTPError |}.

Definition placeholder : Scheduler.Connector unit :=
  {| Scheduler.park_name := "Europa-Park";
     Scheduler.fetch_wait_times := Ok [];
     Scheduler.fetch_shows := Ok [];
     Scheduler.fetch_restaurants := Ok [];
     Scheduler.fetch_shops := Ok [];
     Scheduler.fetch_calendar := Ok () |}.

Definition PARKS : list (string * Scheduler.Connector unit) :=
  [("efteling", failing); ("europapark", placeholder)].

Definition DATA_DIR : list string := ["data"].

Definition dump_live (d : Scheduler.LiveData) : list string :=
  ["{"; Scheduler.park_id d; ":"; Scheduler.park_status d; "}"].

Definition insert_many (docs collection : list Scheduler.Doc)
  : list Scheduler.Doc * option exn := (collection ++ docs, None).

Definition no_fault (p : list string) : option nat := None.

Definition utc_clock (park_id : string) : Z := civil 2026 2 20 13 0 0.

Definition empty_world : Scheduler.World :=
  {| Scheduler.files := ∅; Scheduler.db := Some []; Scheduler.log := [] |}.

(** A ride in maintenance, as returned *)
Definition bob : AttractionLive.t :=
  {| AttractionLive.id := "bob";
     AttractionLive.name := "bob";
     AttractionLive.status := AttractionStatus.maintenance;
     AttractionLive.wait_time := None;
     AttractionLive.single_rider := None;
     AttractionLive.virtual_queue := None |}.

(** A single-rider entry without a parent, as returned *)
Definition batasr : AttractionLive.t :=
  {| AttractionLive.id := "batasr";
     AttractionLive.name := "batasr";
     AttractionLive.status := AttractionStatus.open;
     AttractionLive.wait_time := Some 5;
     AttractionLive.single_rider := None;
     AttractionLive.virtual_queue := None |}.

(** A show whose two show times come latest first in the payload *)
Definition evening_first : json :=
  JDict [("Id", JStr "Aquanura"); ("Name", JStr "Aquanura");
         ("Type", JStr "Shows en Entertainment");
         ("ShowTimes",
          JList [JDict [("StartDateTime", JStr "2026-02-20T20:00:00");
                        ("EndDateTime", JStr "2026-02-20T20:15:00")];
                 JDict [("StartDateTime", JStr "2026-02-20T16:00:00");
                        ("EndDateTime", JStr "2026-02-20T16:15:00")]])].

Definition aquanura (show_times : list ShowTime.t) : Show.t :=
  {| Show.id := "aquanura"; Show.name := "Aquanura";
     Show.status := "open"; Show.show_times := show_times |}.

(** A restaurant without opening times *)
Definition closed_venue : json :=
  JDict [("Id", JStr "Polles-Keuken"); ("Name", JStr "Polles Keuken");
         ("Type", JStr "Horeca"); ("OpeningTimes", JList [])].

Definition polles_keuken : Venue.t :=
  {| Venue.id := "polles-keuken";
     Venue.name := "Polles Keuken";
     Venue.status := VenueStatus.closed;
     Venue.opening_time := None;
     Venue.closing_time := None |}.

(** A day of the calendar whose evening hours come first in the payload *)
Definition christmas : json :=
  JDict [("Date", JStr "2026-12-25");
         ("OpeningHours",
          JList [JDict [("Open", JStr "18:00"); ("Close", JStr "22:00")];
                 JDict [("Open", JStr "10:00"); ("Close", JStr "18:00")]])].

Definition christmas_day : ParkDay.t :=
  {| ParkDay.date := "2026-12-25";
     ParkDay.is_open := true;
     ParkDay.hours :=
       [ {| ParkHours.opening_time := "10:00";
            ParkHours.closing_time := "18:00";
            ParkHours.type := "operating";
            ParkHours.description := None |};
         {| ParkHours.opening_time := "18:00";
            ParkHours.closing_time := "22:00";
            ParkHours.type := "informational";
            ParkHours.description := Some "Evening Hours" |} ];
     ParkDay.special_event := None |}.

(** November 2026 answers 400, December has one day, every other month
    fails. *)
Definition calendar_get (y m : Z) : Calendar.month_response :=
  if (y =? 2026) && (m =? 12)
  then Calendar.Payload (JDict [("OpeningHours", JList [christmas])])
  else if (y =? 2026) && (m =? 11) then Calendar.Status400
  else Calendar.Failed HTTPError.

(** A [sorted] that meets keys it cannot compare *)
Definition unsortable (keyed : list (json * json)) : result (list json) :=
  Raise TypeError.

Definition efteling_calendar (days : list ParkDay.t) : ParkCalendar.t :=
  {| ParkCalendar.park_id := "efteling";
     ParkCalendar.park_name := "Efteling";
     ParkCalendar.last_updated := 0;
     ParkCalendar.days := days |}.

End Sample.

(** * Properties *)

(** ** State normaliser *)

Module StateNormalizer.
Import Efteling.

Lemma py_lower_or_empty (s : string) :
  py_lower (py_or (JStr s) (JStr "")) = Ok (lower s).
Proof.
  unfold py_or, truthy. destruct (String.eqb_spec s "") as [->|]; reflexivity.
Qed.

Lemma map_state_falsy (raw : json) :
  truthy raw = false → _map_state raw = Ok AttractionStatus.closed.
Proof.
  intros Hf. unfold _map_state, py_or. rewrite Hf. reflexivity.
Qed.

(** C1. For a raw state that, lower-cased and stripped, is one of the eight
    known states, [_map_state] returns the documented status; for every
    other str it returns closed; for [None] and every other falsy value it
    returns closed.  It never raises on a str or on a falsy value. *)
Theorem map_state_vocabulary :
  (∀ s : string, ∃ st,
      _map_state (JStr s) = Ok st ∧
      let state := strip (lower s) in
      (state = "open" → st = AttractionStatus.open) ∧
      (state = "nognietopen" → st = AttractionStatus.open_soon) ∧
      (state = "storing" → st = AttractionStatus.breakdown) ∧
      (state = "tijdelijkbuitenbedrijf" → st = AttractionStatus.breakdown) ∧
      (state = "inonderhoud" → st = AttractionStatus.maintenance) ∧
      (state = "buitenbedrijf" → st = AttractionStatus.closed) ∧
      (state = "gesloten" → st = AttractionStatus.closed) ∧
      (state = "wachtrijgesloten" → st = AttractionStatus.closed) ∧
      (state ∉ known_states → st = AttractionStatus.closed))
  ∧ _map_state JNull = Ok AttractionStatus.closed
  ∧ _map_state (JStr "") = Ok AttractionStatus.closed
  ∧ (∀ raw : json, truthy raw = false → _map_state raw = Ok AttractionStatus.closed).
Proof.
  split; [|split; [reflexivity|split; [reflexivity|exact map_state_falsy]]].
  intros s. unfold _map_state. rewrite py_lower_or_empty.
  cbn -[String.eqb strip lower].
  generalize (strip (lower s)) as state. intros state.
  unfold known_states.
  repeat match goal with
  | |- context [String.eqb ?k state] =>
      destruct (String.eqb_spec k state) as [<-|?];
      [eexists; split; [reflexivity|];
       repeat split; intros; (reflexivity || discriminate || set_solver)|]
  end.
  eexists; split; [reflexivity|].
  repeat split; intros; (reflexivity || congruence).
Qed.

Lemma map_state_vocabulary_witness :
  ∃ st, _map_state (JStr "  Storing ") = Ok st ∧ st = AttractionStatus.breakdown.
Proof.
  destruct (proj1 map_state_vocabulary "  Storing ") as (st & Hst & _ & _ & Hstoring & _).
  exists st. split; [exact Hst | apply Hstoring; reflexivity].
Defined.

Example map_state_open : _map_state (JStr "  OPEN ") = Ok AttractionStatus.open.
Proof. reflexivity. Qed.

Example map_state_storing : _map_state (JStr "Storing") = Ok AttractionStatus.breakdown.
Proof. reflexivity. Qed.

Example map_state_unknown : _map_state (JStr "onbekend") = Ok AttractionStatus.closed.
Proof. reflexivity. Qed.

End StateNormalizer.

(** ** Reasoning about results *)

Lemma bind_Ok {A B} (m : result A) (f : A → result B) (b : B) :
  m ≫= f = Ok b → ∃ a, m = Ok a ∧ f a = Ok b.
Proof. destruct m as [a|e]; [eauto | discriminate]. Qed.

Lemma fmap_Ok {A B} (m : result A) (f : A → B) (b : B) :
  f <$> m = Ok b → ∃ a, m = Ok a ∧ b = f a.
Proof. destruct m as [a|e]; [|discriminate]. intros [= <-]. eauto. Qed.

Ltac inv_Ok :=
  repeat match goal with
  | H : Ok _ = Ok _ |- _ => injection H as H; try subst
  | H : Raise _ = Ok _ |- _ => discriminate H
  | H : _ ≫= _ = Ok _ |- _ =>
      let a := fresh "a" in let Ha := fresh "Ha" in
      apply bind_Ok in H as (a & Ha & H)
  | H : _ <$> _ = Ok _ |- _ =>
      let a := fresh "a" in let Ha := fresh "Ha" in
      apply fmap_Ok in H as (a & Ha & H)
  end.

(** ** Virtual queue *)

Module VirtualQueue.
Import Efteling.

Section Window.
Context `{Runtime}.

Lemma dt_add_Ok (dt r : datetime) (td : Z) :
  dt_add dt td = Ok r →
  wall r = wall dt + td ∧ tz r = tz dt ∧ fold r = false.
Proof.
  unfold dt_add. case_match; [|discriminate]. intros [= <-]. done.
Qed.

(** The invariant of the [# ── Virtual Queue ──] block. *)
Lemma virtual_queue_of_window (now : datetime) (entry : dict) (vq : VirtualQueueInfo.t) :
  virtual_queue_of now entry = Ok (Some vq) →
  (VirtualQueueInfo.state vq = Some VirtualQueueState.available
   ↔ is_Some (VirtualQueueInfo.return_start vq)
     ∧ is_Some (VirtualQueueInfo.return_end vq))
  ∧ (∀ s e, VirtualQueueInfo.return_start vq = Some s →
            VirtualQueueInfo.return_end vq = Some e →
            dt_sub e s = VQ_WINDOW_MINUTES * US_PER_MINUTE).
Proof.
  unfold virtual_queue_of. case_match; [|discriminate].
  intros Hvq. inv_Ok.
  repeat case_match; inv_Ok; cbn;
    try (split; [split; [discriminate | intros [[? [=]] _]] | discriminate]).
  split; [split; eauto|].
  intros s e [= <-] [= <-].
  match goal with
  | H1 : timedelta_minutes VQ_WINDOW_MINUTES = Ok ?w, H2 : dt_add _ ?w = Ok _ |- _ =>
      apply dt_add_Ok in H2 as (Hw & Htz & Hf); vm_compute in H1; injection H1 as <-
  end.
  unfold dt_sub, utcoffset. rewrite Htz, Hw.
  change (VQ_WINDOW_MINUTES * US_PER_MINUTE) with 900000000.
  match goal with |- context [tz ?x] => destruct (tz x) end; lia.
Qed.

End Window.
End VirtualQueue.

(** ** The attraction loop *)

Module Attractions.
Import Efteling.

Section Loop.
Context `{Runtime}.
Implicit Types (all_entries items : list (string * dict)).
Implicit Types (single_rider_map : list (string * string)).

Lemma attraction_of_fields all_entries single_rider_map now entry_id entry a :
  attraction_of all_entries single_rider_map now entry_id entry = Ok (Some a) →
  is_attraction_type entry = true
  ∧ (entry_id ∉ fst <$> single_rider_map)
  ∧ AttractionLive.id a = resolved_id_of entry_id
  ∧ _map_state (dict_get entry "State" (JStr "")) = Ok (AttractionLive.status a)
  ∧ wait_time_of (AttractionLive.status a) entry = Ok (AttractionLive.wait_time a)
  ∧ (single_rider_of all_entries single_rider_map entry_id
     = Ok (AttractionLive.single_rider a))
  ∧ virtual_queue_of now entry = Ok (AttractionLive.virtual_queue a).
Proof.
  unfold attraction_of.
  destruct (is_attraction_type entry); [|discriminate]. cbn [negb].
  case_bool_decide; [discriminate|].
  intros Ha. inv_Ok. cbn. done.
Qed.

Lemma attraction_of_emits all_entries single_rider_map now entry_id entry r :
  attraction_of all_entries single_rider_map now entry_id entry = Ok r →
  is_attraction_type entry = true →
  entry_id ∉ fst <$> single_rider_map →
  ∃ a, r = Some a.
Proof.
  unfold attraction_of. intros Hr Ht Hk. rewrite Ht in Hr. cbn [negb] in Hr.
  rewrite bool_decide_eq_false_2 in Hr by done.
  inv_Ok. eauto.
Qed.

Lemma attractions_from_cons all_entries single_rider_map clock i k e items out :
  attractions_from all_entries single_rider_map clock i ((k, e) :: items) = Ok out →
  ∃ r rest,
    attraction_of all_entries single_rider_map (clock i) k e = Ok r
    ∧ attractions_from all_entries single_rider_map clock (S i) items = Ok rest
    ∧ out = match r with Some x => x :: rest | None => rest end.
Proof.
  cbn [attractions_from]. intros Hout.
  apply bind_Ok in Hout as (r & Hr & Hout).
  apply bind_Ok in Hout as (rest & Hrest & Hout).
  injection Hout as <-. eauto.
Qed.

Lemma attractions_from_elem all_entries single_rider_map clock i items out a :
  attractions_from all_entries single_rider_map clock i items = Ok out →
  a ∈ out →
  ∃ j entry_id entry,
    items !! j = Some (entry_id, entry)
    ∧ (attraction_of all_entries single_rider_map (clock (i + j)%nat) entry_id entry
       = Ok (Some a)).
Proof.
  revert i out. induction items as [|[k e] items IH]; intros i out Hout Ha.
  - injection Hout as <-. by apply elem_of_nil in Ha.
  - apply attractions_from_cons in Hout as (r & rest & Hr & Hrest & ->).
    assert (a ∈ rest → ∃ j entry_id entry,
      ((k, e) :: items) !! j = Some (entry_id, entry)
      ∧ (attraction_of all_entries single_rider_map (clock (i + j)%nat) entry_id entry
         = Ok (Some a))) as Hin_rest.
    { intros Hin. destruct (IH _ _ Hrest Hin) as (j & k' & e' & Hj & Hat).
      exists (S j), k', e'. split; [done|].
      by replace (i + S j)%nat with (S i + j)%nat by lia. }
    destruct r as [x|]; [|by apply Hin_rest].
    apply elem_of_cons in Ha as [->|Hin]; [|by apply Hin_rest].
    exists 0%nat, k, e. split; [done|]. by rewrite Nat.add_0_r.
Qed.

Lemma attractions_from_item all_entries single_rider_map clock i items out j entry_id entry :
  attractions_from all_entries single_rider_map clock i items = Ok out →
  items !! j = Some (entry_id, entry) →
  ∃ r, attraction_of all_entries single_rider_map (clock (i + j)%nat) entry_id entry = Ok r
       ∧ ∀ a, r = Some a → a ∈ out.
Proof.
  revert i out j. induction items as [|[k e] items IH]; intros i out j Hout Hj.
  - done.
  - apply attractions_from_cons in Hout as (r & rest & Hr & Hrest & ->).
    destruct j as [|j]; cbn in Hj.
    + injection Hj as -> ->. exists r. rewrite Nat.add_0_r. split; [done|].
      intros x ->. apply elem_of_cons. by left.
    + destruct (IH _ _ _ Hrest Hj) as (r' & Hr' & Hin).
      exists r'. replace (i + S j)%nat with (S i + j)%nat by lia. split; [done|].
      intros x Hx. destruct r; [apply elem_of_cons; right|]; by apply Hin.
Qed.

End Loop.
End Attractions.

(** ** The return window of the virtual queue *)

Module ReturnWindow.
Import Efteling.

Section Window.
Context `{Runtime}.

(** C2. Every VirtualQueueInfo in the result of [fetch_wait_times] has state
    available exactly when return_start and return_end are both set, and
    then return_end - return_start is the window of 15 minutes. *)
Theorem virtual_queue_window_invariant (wis : result json) (clock : nat → datetime)
    (out : list AttractionLive.t) (a : AttractionLive.t) (vq : VirtualQueueInfo.t) :
  fetch_wait_times wis clock = Ok out →
  a ∈ out →
  AttractionLive.virtual_queue a = Some vq →
  (VirtualQueueInfo.state vq = Some VirtualQueueState.available
   ↔ is_Some (VirtualQueueInfo.return_start vq)
     ∧ is_Some (VirtualQueueInfo.return_end vq))
  ∧ (∀ s e, VirtualQueueInfo.return_start vq = Some s →
            VirtualQueueInfo.return_end vq = Some e →
            dt_sub e s = 15 * US_PER_MINUTE).
Proof.
  intros Hout Ha Hvq. destruct wis as [data|err].
  - cbn [fetch_wait_times] in Hout.
    apply bind_Ok in Hout as (all_entries & _ & Hout).
    destruct (Attractions.attractions_from_elem _ _ _ _ _ _ _ Hout Ha)
      as (j & k & e & _ & Hat).
    apply Attractions.attraction_of_fields in Hat as (_ & _ & _ & _ & _ & _ & Hq).
    rewrite Hvq in Hq. exact (VirtualQueue.virtual_queue_of_window _ _ _ Hq).
  - injection Hout as <-. by apply elem_of_nil in Ha.
Qed.

Lemma timedelta_minutes_Ok (m : Z) :
  - (MAXORDINAL * US_PER_DAY) < m * US_PER_MINUTE < MAXORDINAL * US_PER_DAY →
  timedelta_minutes m = Ok (m * US_PER_MINUTE).
Proof.
  intros Hm. unfold timedelta_minutes.
  assert (-999999999 ≤ (m * US_PER_MINUTE) `div` US_PER_DAY ≤ 999999999) as [Hlo Hhi].
  { unfold MAXORDINAL, US_PER_DAY in *. split.
    - apply Z.div_le_lower_bound; lia.
    - apply Z.div_le_upper_bound; lia. }
  apply Z.leb_le in Hlo, Hhi. by rewrite Hlo, Hhi.
Qed.

Lemma dt_add_in_range (dt : datetime) (td : Z) :
  0 ≤ wall dt + td < MAXORDINAL * US_PER_DAY →
  dt_add dt td = Ok {| wall := wall dt + td; tz := tz dt; fold := false |}.
Proof.
  intros [Hlo Hhi]. unfold dt_add.
  apply Z.leb_le in Hlo. apply Z.ltb_lt in Hhi. by rewrite Hlo, Hhi.
Qed.

(** C3, as amended. When the raw state of the virtual queue is enabled, the
    result is available with return_start the clock reading, seconds and
    microseconds cleared, plus the wait in minutes, and return_end 15
    minutes later (for a window inside the range of datetime).  The wait is
    [int(WaitingTime or 0)]: an integer is taken as it is, negative or not;
    a str that [int] rejects, a missing value, a list or a dict count as 0.
    For a wait of 20 at 2026-02-20T14:00:00 the window is
    [14:20:00, 14:35:00). *)
Theorem enabled_return_window :
  (∀ (now : datetime) (entry vq : dict) (wait_min : Z),
     0 ≤ wall now < MAXORDINAL * US_PER_DAY →
     dict_get entry "VirtualQueue" JNull = JDict vq →
     vq ≠ [] →
     py_lower (py_or (dict_get vq "State" JNull) (JStr "")) = Ok "enabled" →
     int_or (dict_get vq "WaitingTime" JNull) (λ n, n) 0 = Ok wait_min →
     let start := wall (replace_second_microsecond now) + wait_min * US_PER_MINUTE in
     0 ≤ start →
     start + 15 * US_PER_MINUTE < MAXORDINAL * US_PER_DAY →
     virtual_queue_of now entry
     = Ok (Some {| VirtualQueueInfo.available := true;
                   VirtualQueueInfo.state := Some VirtualQueueState.available;
                   VirtualQueueInfo.return_start :=
                     Some {| wall := start; tz := tz now; fold := false |};
                   VirtualQueueInfo.return_end :=
                     Some {| wall := start + 15 * US_PER_MINUTE;
                             tz := tz now; fold := false |} |}))
  ∧ (∀ n : Z, int_or (JInt n) (λ n, n) 0 = Ok n)
  ∧ (∀ s : string, int_of_str s = None → int_or (JStr s) (λ n, n) 0 = Ok 0)
  ∧ int_or JNull (λ n, n) 0 = Ok 0
  ∧ (∀ l, int_or (JList l) (λ n, n) 0 = Ok 0)
  ∧ (∀ d, int_or (JDict d) (λ n, n) 0 = Ok 0)
  ∧ fetch_wait_times (Ok (Sample.wis [Sample.enabled_entry (JInt 20)]))
      (λ _, Sample.park_time 2026 2 20 14 0 0)
    = Ok [Sample.enabled_result (Sample.park_time 2026 2 20 14 20 0)
                         (Sample.park_time 2026 2 20 14 35 0)].
Proof.
  split; [|split; [|split; [|split; [|split; [|split]]]]].
  - intros now entry vq wait_min Hnow Hvq Hne Hst Hwait start Hlo Hhi.
    unfold virtual_queue_of. rewrite Hvq.
    assert (truthy (JDict vq) = true) as -> by (by destruct vq).
    cbn [py_get mbind result_bind]. rewrite Hst. cbn [mbind result_bind].
    replace (String.eqb "enabled" "walkin") with false by reflexivity.
    replace (String.eqb "enabled" "enabled") with true by reflexivity.
    rewrite Hwait. cbn [mbind result_bind].
    assert (0 ≤ wall (replace_second_microsecond now) ≤ wall now) as Htrunc.
    { cbn [replace_second_microsecond wall].
      pose proof (Z.mod_pos_bound (wall now) US_PER_MINUTE) as Hmod.
      pose proof (Z.mod_le (wall now) US_PER_MINUTE) as Hle.
      unfold US_PER_MINUTE in *. lia. }
    subst start. unfold US_PER_MINUTE, MAXORDINAL, US_PER_DAY in *.
    rewrite (timedelta_minutes_Ok wait_min)
      by (unfold US_PER_MINUTE, MAXORDINAL, US_PER_DAY; lia).
    cbn [mbind result_bind].
    rewrite dt_add_in_range
      by (unfold US_PER_MINUTE, MAXORDINAL, US_PER_DAY; lia).
    cbn [mbind result_bind].
    rewrite (timedelta_minutes_Ok VQ_WINDOW_MINUTES)
      by (unfold VQ_WINDOW_MINUTES, US_PER_MINUTE, MAXORDINAL, US_PER_DAY; lia).
    unfold VQ_WINDOW_MINUTES.
    cbn [mbind result_bind].
    rewrite dt_add_in_range
      by (cbn [wall]; unfold US_PER_MINUTE, MAXORDINAL, US_PER_DAY; lia).
    reflexivity.
  - intros n. unfold int_or, py_or. cbn [truthy].
    destruct (Z.eqb_spec n 0) as [->|]; reflexivity.
  - intros s Hs. unfold int_or, py_or. cbn [truthy].
    destruct (String.eqb s ""); cbn [negb py_int]; [reflexivity|].
    by rewrite Hs.
  - reflexivity.
  - intros []; reflexivity.
  - intros []; reflexivity.
  - vm_compute. reflexivity.
Qed.

End Window.

Lemma virtual_queue_window_invariant_witness :
  let a := Sample.enabled_result (Sample.park_time 2026 2 20 14 20 0)
                                 (Sample.park_time 2026 2 20 14 35 0) in
  let vq := {| VirtualQueueInfo.available := true;
               VirtualQueueInfo.state := Some VirtualQueueState.available;
               VirtualQueueInfo.return_start := Some (Sample.park_time 2026 2 20 14 20 0);
               VirtualQueueInfo.return_end := Some (Sample.park_time 2026 2 20 14 35 0) |} in
  fetch_wait_times (Ok (Sample.wis [Sample.enabled_entry (JInt 20)])) Sample.clock = Ok [a]
  ∧ a ∈ [a]
  ∧ AttractionLive.virtual_queue a = Some vq
  ∧ dt_sub (Sample.park_time 2026 2 20 14 35 0) (Sample.park_time 2026 2 20 14 20 0)
    = 15 * US_PER_MINUTE.
Proof.
  intros a vq.
  assert (fetch_wait_times (Ok (Sample.wis [Sample.enabled_entry (JInt 20)])) Sample.clock
          = Ok [a]) as Hout by (vm_compute; reflexivity).
  assert (a ∈ [a]) as Ha by apply list_elem_of_here.
  assert (AttractionLive.virtual_queue a = Some vq) as Hvq by reflexivity.
  split; [exact Hout|]. split; [exact Ha|]. split; [exact Hvq|].
  exact (proj2 (virtual_queue_window_invariant _ _ _ _ _ Hout Ha Hvq) _ _ eq_refl eq_refl).
Defined.

(** A wait that is not a number counts as 0; the seconds of the clock are
    cleared. *)
Lemma enabled_return_window_witness :
  virtual_queue_of (Sample.park_time 2026 2 20 14 0 42)
    [("VirtualQueue", JDict [("State", JStr "Enabled"); ("WaitingTime", JStr "soon")])]
  = Ok (Some {| VirtualQueueInfo.available := true;
                VirtualQueueInfo.state := Some VirtualQueueState.available;
                VirtualQueueInfo.return_start := Some (Sample.park_time 2026 2 20 14 0 0);
                VirtualQueueInfo.return_end := Some (Sample.park_time 2026 2 20 14 15 0) |}).
Proof.
  exact (proj1 enabled_return_window (Sample.park_time 2026 2 20 14 0 42)
           [("VirtualQueue", JDict [("State", JStr "Enabled"); ("WaitingTime", JStr "soon")])]
           [("State", JStr "Enabled"); ("WaitingTime", JStr "soon")] 0
           ltac:(vm_compute; split; [discriminate | reflexivity])
           eq_refl ltac:(discriminate) eq_refl eq_refl
           ltac:(vm_compute; discriminate) ltac:(vm_compute; reflexivity)).
Defined.

(** A wait of -5 minutes at 14:00 opens the window at 13:55, not at 14:00. *)
Lemma negative_wait_is_not_zero :
  fetch_wait_times (Ok (Sample.wis [Sample.enabled_entry (JInt (-5))]))
    Sample.clock
  = Ok [Sample.enabled_result (Sample.park_time 2026 2 20 13 55 0)
                       (Sample.park_time 2026 2 20 14 10 0)]
  ∧ Sample.park_time 2026 2 20 13 55 0 ≠ Sample.park_time 2026 2 20 14 0 0.
Proof. split; [vm_compute; reflexivity | discriminate]. Qed.

End ReturnWindow.

(** ** Single-rider merge *)

Module SingleRider.
Import Efteling.

Lemma elem_of_dict_set {V} (d : list (string * V)) (k k' : string) (v v' : V) :
  (k', v') ∈ dict_set d k v → (k', v') ∈ d ∨ (k' = k ∧ v' = v).
Proof.
  induction d as [|[k0 v0] d IH]; cbn [dict_set].
  - intros Hin. apply list_elem_of_singleton in Hin. injection Hin as -> ->. tauto.
  - destruct (String.eqb_spec k0 k) as [->|Hne]; rewrite !elem_of_cons.
    + intros [[= -> ->]|Hin]; tauto.
    + intros [?|Hin]; [tauto|]. destruct (IH Hin); tauto.
Qed.

Lemma dict_set_keep {V} (d : list (string * V)) (k k' : string) (v v' : V) :
  (k', v') ∈ d → k' ≠ k ∨ v' = v → (k', v') ∈ dict_set d k v.
Proof.
  intros Hin Hkeep. induction d as [|[k0 v0] d IH]; cbn [dict_set];
    [by apply elem_of_nil in Hin|].
  apply elem_of_cons in Hin.
  destruct (String.eqb_spec k0 k) as [->|Hne]; rewrite elem_of_cons.
  - destruct Hin as [[= -> ->]|Hin]; [|tauto].
    destruct Hkeep as [?| ->]; [done|tauto].
  - destruct Hin as [?|Hin]; [tauto|]. right. by apply IH.
Qed.

Lemma dict_set_elem {V} (d : list (string * V)) (k : string) (v : V) :
  (k, v) ∈ dict_set d k v.
Proof.
  induction d as [|[k0 v0] d IH]; cbn [dict_set].
  - by apply list_elem_of_singleton.
  - destruct (String.eqb_spec k0 k) as [->|Hne]; rewrite elem_of_cons; tauto.
Qed.

Lemma dict_lookup_elem {V} (d : list (string * V)) (k : string) (v : V) :
  dict_lookup d k = Some v → (k, v) ∈ d.
Proof.
  induction d as [|[k0 v0] d IH]; cbn [dict_lookup]; [done|].
  destruct (String.eqb_spec k0 k) as [->|Hne]; rewrite elem_of_cons.
  - intros [= ->]. tauto.
  - intros Hl. right. by apply IH.
Qed.

Lemma find_sr_elem (m : list (string * string)) (p k : string) :
  find_sr m p = Some k → (k, p) ∈ m.
Proof.
  induction m as [|[k0 v0] m IH]; cbn [find_sr]; [done|].
  destruct (String.eqb_spec v0 p) as [->|Hne]; rewrite elem_of_cons.
  - intros [= ->]. tauto.
  - intros Hf. right. by apply IH.
Qed.

Lemma find_sr_is_Some (m : list (string * string)) (p k : string) :
  (k, p) ∈ m → is_Some (find_sr m p).
Proof.
  induction m as [|[k0 v0] m IH]; cbn [find_sr]; [by intros ?%elem_of_nil|].
  destruct (String.eqb_spec v0 p) as [->|Hne]; [eauto|].
  intros [[= -> ->]|Hin]%elem_of_cons; [done|]. by apply IH.
Qed.

Section Map.
Variable all_entries : list (string * dict).
Let keys := all_entries.*1.

Lemma single_rider_step_sound acc entry_id k v :
  (k, v) ∈ single_rider_step all_entries acc entry_id →
  (k, v) ∈ acc ∨ (k = entry_id ∧ matched keys k v).
Proof.
  unfold single_rider_step, matched.
  destruct (is_single_rider entry_id) eqn:Hsr; [|tauto].
  destruct (find_match _ _) as [m|] eqn:Hm; [|tauto].
  destruct (String.eqb_spec m "") as [->|Hne]; [tauto|].
  intros [?|[-> ->]]%elem_of_dict_set; [tauto|]. right. done.
Qed.

Lemma single_rider_step_keep acc entry_id k v :
  (k, v) ∈ acc → matched keys k v →
  (k, v) ∈ single_rider_step all_entries acc entry_id.
Proof.
  intros Hin (Hsr & Hm & Hne). unfold single_rider_step.
  destruct (is_single_rider entry_id) eqn:Hsr'; [|done].
  destruct (find_match _ (parent_id_of entry_id)) as [m|] eqn:Hm'; [|done].
  destruct (String.eqb_spec m "") as [->|Hne']; [done|].
  apply dict_set_keep; [done|].
  destruct (decide (k = entry_id)) as [->|]; [right|by left].
  fold keys in Hm'. congruence.
Qed.

Lemma single_rider_step_add acc entry_id v :
  matched keys entry_id v →
  (entry_id, v) ∈ single_rider_step all_entries acc entry_id.
Proof.
  intros (Hsr & Hm & Hne). unfold single_rider_step. fold keys.
  rewrite Hsr, Hm. destruct (String.eqb_spec v "") as [->|_]; [done|].
  apply dict_set_elem.
Qed.

Lemma single_rider_fold_sound l acc k v :
  (k, v) ∈ foldl (single_rider_step all_entries) acc l →
  (k, v) ∈ acc ∨ (k ∈ l ∧ matched keys k v).
Proof.
  revert acc. induction l as [|x l IH]; intros acc; cbn [foldl]; [tauto|].
  intros [Hin|[Hin Hm]]%IH.
  - apply single_rider_step_sound in Hin as [?|[-> ?]]; [tauto|].
    right. split; [apply elem_of_cons; tauto | done].
  - right. split; [apply elem_of_cons; tauto | done].
Qed.

Lemma single_rider_fold_keep l acc k v :
  (k, v) ∈ acc → matched keys k v →
  (k, v) ∈ foldl (single_rider_step all_entries) acc l.
Proof.
  revert acc. induction l as [|x l IH]; intros acc Hin Hm; cbn [foldl]; [done|].
  apply IH; [|done]. by apply single_rider_step_keep.
Qed.

Lemma single_rider_fold_complete l acc k v :
  k ∈ l → matched keys k v →
  (k, v) ∈ foldl (single_rider_step all_entries) acc l.
Proof.
  revert acc. induction l as [|x l IH]; intros acc Hin Hm; cbn [foldl].
  - by apply elem_of_nil in Hin.
  - apply elem_of_cons in Hin as [->|Hin]; [|by apply IH].
    apply single_rider_fold_keep; [|done]. by apply single_rider_step_add.
Qed.

(** [single_rider_map] binds exactly the matched secondary entries. *)
Lemma single_rider_map_spec k v :
  (k, v) ∈ single_rider_map_of all_entries ↔ k ∈ keys ∧ matched keys k v.
Proof.
  unfold single_rider_map_of. split.
  - intros [Hin|?]%single_rider_fold_sound; [by apply elem_of_nil in Hin | done].
  - intros [Hk Hm]. by apply single_rider_fold_complete.
Qed.

End Map.

Lemma resolved_id_single_rider (k sr_id : string) :
  is_single_rider sr_id = true → resolved_id_of k = sr_id → k = sr_id.
Proof.
  unfold resolved_id_of, special_merge. cbn [dict_lookup].
  destruct (String.eqb_spec "droomvluchtstandby" k) as [<-|_]; cbn [default].
  - intros Hsr <-. vm_compute in Hsr. discriminate.
  - done.
Qed.

Lemma resolved_id_of_single_rider (k : string) :
  is_single_rider k = true → resolved_id_of k = k.
Proof.
  unfold resolved_id_of, special_merge. cbn [dict_lookup].
  destruct (String.eqb_spec "droomvluchtstandby" k) as [<-|_]; cbn [default]; [|done].
  intros Hsr. vm_compute in Hsr. discriminate.
Qed.

Lemma not_skipped_unless_matched (all_entries : list (string * dict)) (k : string) :
  (∀ v, ¬ matched all_entries.*1 k v) →
  k ∉ fst <$> single_rider_map_of all_entries.
Proof.
  intros Hno [[k' v] [Hk Hin]]%list_elem_of_fmap. cbn in Hk. subst k'.
  apply single_rider_map_spec in Hin as [_ Hm]. by eapply Hno.
Qed.

Section Merge.
Context `{Runtime}.

(** An entry of [all_entries] that is of an attraction type and is not
    skipped yields one element of the result. *)
Lemma emitted (all_entries : list (string * dict)) clock out entry_id entry :
  attractions_from all_entries (single_rider_map_of all_entries) clock 0 all_entries
  = Ok out →
  dict_lookup all_entries entry_id = Some entry →
  is_attraction_type entry = true →
  (∀ v, ¬ matched all_entries.*1 entry_id v) →
  ∃ a, a ∈ out
       ∧ AttractionLive.id a = resolved_id_of entry_id
       ∧ (single_rider_of all_entries (single_rider_map_of all_entries) entry_id
          = Ok (AttractionLive.single_rider a)).
Proof.
  intros Hout Hentry Hty Hno.
  apply dict_lookup_elem, list_elem_of_lookup in Hentry as [j Hj].
  destruct (Attractions.attractions_from_item _ _ _ _ _ _ _ _ _ Hout Hj)
    as (r & Hr & Hin).
  destruct (Attractions.attraction_of_emits _ _ _ _ _ _ Hr Hty) as [a ->].
  { by apply not_skipped_unless_matched. }
  exists a. split; [by apply Hin|].
  apply Attractions.attraction_of_fields in Hr. tauto.
Qed.

(** C4, as amended. A secondary entry (identifier containing "singlerider"
    or ending in "sr", case-insensitively) is matched to the first entry
    whose lower-cased identifier is its lower-cased identifier with every
    "singlerider" and every "sr" removed, provided that entry's identifier
    is not empty.  A matched secondary entry is absent from the result.  It
    is attached as SingleRiderInfo (available, status open or closed, wait
    when open) to its parent when the parent is of an attraction type, is
    not itself a secondary identifier and has no other secondary entry
    matched to it.  An unmatched secondary entry of an attraction type is
    not dropped: it is returned as an entity of its own.  Given dreamflight
    open/12 and dreamflightsr open/3 the result is one dreamflight entity
    with single_rider.wait_time 3. *)
Theorem single_rider_merge :
  (∀ (data : json) (clock : nat → datetime) (all_entries : list (string * dict))
     (out : list AttractionLive.t),
     all_entries_of data = Ok all_entries →
     fetch_wait_times (Ok data) clock = Ok out →
     let keys := all_entries.*1 in
     (∀ sr_id parent,
        sr_id ∈ keys → matched keys sr_id parent →
        ∀ a, a ∈ out → AttractionLive.id a ≠ sr_id)
     ∧ (∀ sr_id parent sr parent_entry,
          matched keys sr_id parent →
          dict_lookup all_entries sr_id = Some sr →
          dict_lookup all_entries parent = Some parent_entry →
          is_attraction_type parent_entry = true →
          is_single_rider parent = false →
          (∀ k, k ∈ keys → matched keys k parent → k = sr_id) →
          ∃ a sr_status sr_wait,
            a ∈ out
            ∧ AttractionLive.id a = resolved_id_of parent
            ∧ _map_state (dict_get sr "State" (JStr "")) = Ok sr_status
            ∧ wait_time_of sr_status sr = Ok sr_wait
            ∧ AttractionLive.single_rider a
              = Some {| SingleRiderInfo.available := true;
                        SingleRiderInfo.status :=
                          Some (if decide (sr_status = AttractionStatus.open)
                                then "open" else "closed");
                        SingleRiderInfo.wait_time := sr_wait |})
     ∧ (∀ sr_id entry,
          dict_lookup all_entries sr_id = Some entry →
          is_single_rider sr_id = true →
          find_match keys (parent_id_of sr_id) = None →
          is_attraction_type entry = true →
          ∃ a, a ∈ out ∧ AttractionLive.id a = sr_id))
  ∧ fetch_wait_times
      (Ok (Sample.wis [Sample.attraction_entry "dreamflight" "open" 12;
                       Sample.attraction_entry "dreamflightsr" "open" 3]))
      (λ _, Sample.park_time 2026 2 20 14 0 0)
    = Ok [ {| AttractionLive.id := "dreamflight";
              AttractionLive.name := "dreamflight";
              AttractionLive.status := AttractionStatus.open;
              AttractionLive.wait_time := Some 12;
              AttractionLive.single_rider :=
                Some {| SingleRiderInfo.available := true;
                        SingleRiderInfo.status := Some "open";
                        SingleRiderInfo.wait_time := Some 3 |};
              AttractionLive.virtual_queue := None |} ].
Proof.
  split; [|vm_compute; reflexivity].
  intros data clock all_entries out Hall Hout keys. subst keys.
  cbn [fetch_wait_times] in Hout. rewrite Hall in Hout. cbn [mbind result_bind] in Hout.
  split; [|split].
  - intros sr_id parent Hk Hm a Ha Hid.
    destruct (Attractions.attractions_from_elem _ _ _ _ _ _ _ Hout Ha)
      as (j & k & e & _ & Hat).
    apply Attractions.attraction_of_fields in Hat as (_ & Hskip & Hres & _).
    rewrite Hres in Hid. apply resolved_id_single_rider in Hid; [|apply Hm].
    subst k. apply Hskip. apply list_elem_of_fmap. exists (sr_id, parent).
    split; [done|]. by apply single_rider_map_spec.
  - intros sr_id parent sr parent_entry Hm Hsr Hparent Hty Hnot Honly.
    destruct (emitted _ _ _ _ _ Hout Hparent Hty) as (a & Ha & Hid & Hrider).
    { intros v (Hs & _). congruence. }
    assert (sr_id ∈ all_entries.*1) as Hk.
    { apply dict_lookup_elem in Hsr. apply list_elem_of_fmap. by exists (sr_id, sr). }
    assert (find_sr (single_rider_map_of all_entries) parent = Some sr_id) as Hfind.
    { destruct (find_sr_is_Some (single_rider_map_of all_entries) parent sr_id)
        as [k Hfind]; [by apply single_rider_map_spec|].
      rewrite Hfind. f_equal.
      apply find_sr_elem, single_rider_map_spec in Hfind as [? ?]. by apply Honly. }
    unfold single_rider_of in Hrider. rewrite Hfind, Hsr in Hrider.
    destruct (String.eqb_spec sr_id "") as [->|_].
    { destruct Hm as [Hs _]. vm_compute in Hs. discriminate. }
    apply bind_Ok in Hrider as (sr_status & Hstatus & Hrider).
    apply bind_Ok in Hrider as (sr_wait & Hwait & Hrider).
    injection Hrider as Hrider.
    exists a, sr_status, sr_wait. done.
  - intros sr_id entry Hentry Hs Hnone Hty.
    destruct (emitted _ _ _ _ _ Hout Hentry Hty) as (a & Ha & Hid & _).
    { intros v (_ & Hm & _). congruence. }
    exists a. split; [done|]. by rewrite Hid, resolved_id_of_single_rider.
Qed.

End Merge.

(** The hypotheses of the merge hold for dreamflight and dreamflightsr. *)
Lemma single_rider_merge_witness :
  let data := Sample.wis [Sample.attraction_entry "dreamflight" "open" 12;
                          Sample.attraction_entry "dreamflightsr" "open" 3] in
  fetch_wait_times (Ok data) Sample.clock = Ok [Sample.dreamflight]
  ∧ matched ["dreamflight"; "dreamflightsr"] "dreamflightsr" "dreamflight"
  ∧ (∀ a, a ∈ [Sample.dreamflight] → AttractionLive.id a ≠ "dreamflightsr")
  ∧ (∃ a sr_status sr_wait,
       a ∈ [Sample.dreamflight]
       ∧ AttractionLive.id a = resolved_id_of "dreamflight"
       ∧ AttractionLive.single_rider a
         = Some {| SingleRiderInfo.available := true;
                   SingleRiderInfo.status :=
                     Some (if decide (sr_status = AttractionStatus.open)
                           then "open" else "closed");
                   SingleRiderInfo.wait_time := sr_wait |}).
Proof.
  intros data.
  assert (fetch_wait_times (Ok data) Sample.clock = Ok [Sample.dreamflight]) as Hout
    by (vm_compute; reflexivity).
  assert (matched ["dreamflight"; "dreamflightsr"] "dreamflightsr" "dreamflight") as Hm
    by (split; [reflexivity | split; [reflexivity | discriminate]]).
  destruct (proj1 single_rider_merge data Sample.clock _ [Sample.dreamflight]
              eq_refl Hout) as (Hremoved & Hattached & _).
  split; [exact Hout|]. split; [exact Hm|]. split.
  - apply (Hremoved "dreamflightsr" "dreamflight"); [|exact Hm].
    apply list_elem_of_further, list_elem_of_here.
  - destruct (Hattached "dreamflightsr" "dreamflight" _ _ Hm eq_refl eq_refl eq_refl eq_refl)
      as (a & sr_status & sr_wait & Hin & Hid & _ & _ & Hrider);
      [|by exists a, sr_status, sr_wait].
    intros k Hk (Hs & _). cbn in Hk.
    apply elem_of_cons in Hk as [->|Hk]; [discriminate Hs|].
    apply elem_of_cons in Hk as [->|Hk]; [reflexivity|]. by apply elem_of_nil in Hk.
Defined.

(** An unmatched secondary entry is returned as an entity of its own:
    "batasr" has no parent "bata" among the entries. *)
Lemma unmatched_secondary_is_kept :
  ∃ out a,
    fetch_wait_times
      (Ok (Sample.wis [Sample.attraction_entry "python" "open" 12;
                       Sample.attraction_entry "batasr" "open" 3]))
      (λ _, Sample.park_time 2026 2 20 14 0 0) = Ok out
    ∧ is_single_rider "batasr" = true
    ∧ find_match ["python"; "batasr"] (parent_id_of "batasr") = None
    ∧ a ∈ out
    ∧ AttractionLive.id a = "batasr".
Proof.
  eexists _, _. split; [vm_compute; reflexivity|].
  split; [reflexivity|]. split; [reflexivity|].
  split; [apply list_elem_of_further, list_elem_of_here | reflexivity].
Qed.

End SingleRider.

(** ** Shows, restaurants and shops *)

Module Categories.
Import Efteling.

Lemma mapM_cons_Ok {A B} (f : A → result B) (x : A) (l : list A) (ys : list B) :
  mapM f (x :: l) = Ok ys →
  ∃ y ys', f x = Ok y ∧ mapM f l = Ok ys' ∧ ys = y :: ys'.
Proof.
  cbn [mapM]. intros Hys.
  apply bind_Ok in Hys as (y & Hy & Hys).
  apply bind_Ok in Hys as (ys' & Hys' & Hys).
  injection Hys as <-. eauto.
Qed.

Lemma mapM_Ok_elem {A B} (f : A → result (option B)) (l : list A)
    (ys : list (option B)) (y : B) :
  mapM f l = Ok ys → y ∈ omap (λ x, x) ys → ∃ x, x ∈ l ∧ f x = Ok (Some y).
Proof.
  revert ys. induction l as [|x l IH]; intros ys Hys Hy.
  - injection Hys as <-. by apply elem_of_nil in Hy.
  - apply mapM_cons_Ok in Hys as (r & ys' & Hr & Hys' & ->).
    cbn [omap list_omap] in Hy.
    assert (y ∈ omap (λ x, x) ys' → ∃ x0, x0 ∈ x :: l ∧ f x0 = Ok (Some y)) as Hrest.
    { intros Hin. destruct (IH _ Hys' Hin) as (x0 & ? & ?).
      exists x0. split; [apply elem_of_cons; tauto | done]. }
    destruct r as [b|]; [|by apply Hrest].
    apply elem_of_cons in Hy as [->|Hin]; [|by apply Hrest].
    exists x. split; [apply elem_of_cons; tauto | done].
Qed.

Section Derived.
Context `{Runtime}.

Lemma show_of_status (now_park : datetime) (entry : json) (show : Show.t) :
  show_of now_park entry = Ok (Some show) →
  Show.status show
  = if has_upcoming now_park (Show.show_times show) then "open" else "closed".
Proof.
  unfold show_of. intros Hshow.
  apply bind_Ok in Hshow as (ty & _ & Hshow).
  destruct (negb _); [discriminate|].
  inv_Ok. reflexivity.
Qed.

Lemma has_upcoming_spec (now_park : datetime) (show_times : list ShowTime.t) :
  has_upcoming now_park show_times = true
  ↔ ∃ st, st ∈ show_times ∧ dt_ge (ShowTime.start_date_time st) now_park = true.
Proof.
  unfold has_upcoming. rewrite existsb_exists.
  split; intros (st & Hin & Hge); exists st; split; try done;
    by apply list_elem_of_In.
Qed.

(** C6, as amended. The status of every show returned by [fetch_shows] is
    derived from its show times: it is "open" exactly when one of them
    starts at or after the park-local time read at the fetch, and "closed"
    otherwise. *)
Theorem show_status_is_derived (wis : result json) (now_park : datetime)
    (out : list Show.t) (show : Show.t) :
  fetch_shows wis now_park = Ok out →
  show ∈ out →
  (Show.status show = "open"
   ↔ ∃ st, st ∈ Show.show_times show
           ∧ dt_ge (ShowTime.start_date_time st) now_park = true)
  ∧ (Show.status show = "closed"
     ↔ ¬ ∃ st, st ∈ Show.show_times show
               ∧ dt_ge (ShowTime.start_date_time st) now_park = true).
Proof.
  intros Hout Hshow. destruct wis as [data|e].
  - cbn [fetch_shows] in Hout.
    apply bind_Ok in Hout as (info & _ & Hout).
    apply bind_Ok in Hout as (items & _ & Hout).
    apply fmap_Ok in Hout as (parsed & Hparsed & ->).
    destruct (mapM_Ok_elem _ _ _ _ Hparsed Hshow) as (entry & _ & Hof).
    rewrite (show_of_status _ _ _ Hof), <- has_upcoming_spec.
    destruct (has_upcoming _ _); split; split; try done; intros Hno; by destruct Hno.
  - injection Hout as <-. by apply elem_of_nil in Hshow.
Qed.


End Derived.

Lemma show_status_is_derived_witness :
  let st := Sample.show_time (Sample.cet_time 2026 2 20 16 0 0)
                             (Sample.cet_time 2026 2 20 17 0 0) in
  let show := Sample.show_result "open" st in
  let now_park := Sample.park_time 2026 2 20 14 0 0 in
  fetch_shows
    (Ok (Sample.wis [Sample.show_entry "2026-02-20T16:00:00+01:00"
                                       "2026-02-20T17:00:00+01:00"]))
    now_park = Ok [show]
  ∧ show ∈ [show]
  ∧ (Show.status show = "open"
     ↔ ∃ st, st ∈ Show.show_times show
             ∧ dt_ge (ShowTime.start_date_time st) now_park = true).
Proof.
  intros st show now_park.
  assert (fetch_shows
            (Ok (Sample.wis [Sample.show_entry "2026-02-20T16:00:00+01:00"
                                               "2026-02-20T17:00:00+01:00"]))
            now_park = Ok [show]) as Hout by (vm_compute; reflexivity).
  assert (show ∈ [show]) as Hshow by apply list_elem_of_here.
  split; [exact Hout|]. split; [exact Hshow|].
  exact (proj1 (show_status_is_derived _ _ _ _ Hout Hshow)).
Defined.



(** A show that runs from 13:00 to 15:00 and is the only one of the day:
    at 14:00 its interval has not ended, and its status is "closed". *)
Lemma running_show_is_closed :
  ∃ show st,
    fetch_shows
      (Ok (Sample.wis
             [JDict [("Id", JStr "Raveleijn"); ("Name", JStr "Raveleijn");
                     ("Type", JStr "Shows en Entertainment");
                     ("ShowTimes",
                      JList [JDict [("StartDateTime", JStr "2026-02-20T13:00:00+01:00");
                                    ("EndDateTime", JStr "2026-02-20T15:00:00+01:00")]])]]))
      (Sample.park_time 2026 2 20 14 0 0) = Ok [show]
    ∧ st ∈ Show.show_times show
    ∧ dt_lt (Sample.park_time 2026 2 20 14 0 0) (ShowTime.end_date_time st) = true
    ∧ Show.status show = "closed".
Proof.
  eexists _, _. split; [vm_compute; reflexivity|].
  split; [apply list_elem_of_here|]. split; reflexivity.
Qed.

End Categories.

(** ** Source response cache *)

Module ResponseCache.
Import Efteling.

(** C7. While the cache holds a payload younger than 60 seconds,
    [_fetch_wis] returns it without a GET and leaves the connector as it
    is.  Otherwise it issues exactly one GET: on success the payload and
    the time of the call are stored and the payload is returned; on failure
    the exception propagates and the cache and its time are left as they
    were.  Hence two calls less than 60 seconds apart issue one GET. *)
Theorem wis_cache_ttl (transport : nat → result json) (self : EftelingConnector)
    (calls : nat) :
  (∀ now t,
     _wis_cache self ≠ JNull →
     _wis_cache_time self = Some t →
     now - t < WIS_CACHE_SECONDS * 1000000 →
     _fetch_wis transport now self calls = (Ok (_wis_cache self), self, calls))
  ∧ (∀ now t,
       _wis_cache_time self = Some t →
       WIS_CACHE_SECONDS * 1000000 ≤ now - t →
       cache_is_fresh self now = false)
  ∧ (∀ now data,
       cache_is_fresh self now = false →
       transport calls = Ok data →
       _fetch_wis transport now self calls
       = (Ok data, {| _wis_cache := data; _wis_cache_time := Some now |}, S calls))
  ∧ (∀ now e,
       cache_is_fresh self now = false →
       transport calls = Raise e →
       _fetch_wis transport now self calls = (Raise e, self, S calls))
  ∧ (∀ now later data,
       cache_is_fresh self now = false →
       transport calls = Ok data →
       data ≠ JNull →
       later - now < WIS_CACHE_SECONDS * 1000000 →
       let '(_, self', calls') := _fetch_wis transport now self calls in
       _fetch_wis transport later self' calls' = (Ok data, self', S calls)).
Proof.
  assert (∀ (c : EftelingConnector) now t,
    _wis_cache c ≠ JNull → _wis_cache_time c = Some t →
    now - t < WIS_CACHE_SECONDS * 1000000 → cache_is_fresh c now = true) as Hfresh.
  { intros c now t Hc Ht Hlt. unfold cache_is_fresh. rewrite Ht.
    apply Z.ltb_lt in Hlt. by destruct (_wis_cache c). }
  repeat apply conj.
  - intros now t Hc Ht Hlt. unfold _fetch_wis. by rewrite (Hfresh _ _ _ Hc Ht Hlt).
  - intros now t Ht Hge. unfold cache_is_fresh. rewrite Ht.
    apply Z.ltb_ge in Hge. by destruct (_wis_cache self).
  - intros now data Hstale Hget. unfold _fetch_wis. by rewrite Hstale, Hget.
  - intros now e Hstale Hget. unfold _fetch_wis. by rewrite Hstale, Hget.
  - intros now later data Hstale Hget Hdata Hlt.
    unfold _fetch_wis at 1. rewrite Hstale, Hget.
    unfold _fetch_wis. by rewrite (Hfresh _ later now).
Qed.

(** Two calls 30 seconds apart on an empty cache issue one GET. *)
Lemma wis_cache_ttl_witness :
  let self := {| _wis_cache := JNull; _wis_cache_time := None |} in
  let transport := λ _ : nat, Ok (Sample.wis []) in
  cache_is_fresh self 0 = false
  ∧ (let '(_, self', calls') := _fetch_wis transport 0 self 0 in
     _fetch_wis transport 30000000 self' calls' = (Ok (Sample.wis []), self', 1%nat)).
Proof.
  intros self transport. split; [reflexivity|].
  destruct (wis_cache_ttl transport self 0) as (_ & _ & _ & _ & Htwice).
  apply (Htwice 0 30000000 (Sample.wis []));
    [reflexivity | reflexivity | discriminate | reflexivity].
Defined.

End ResponseCache.

(** ** Snapshot writer *)

Module SnapshotWriter.
Import Scheduler.

Lemma fs_step_other (fs : gmap path string) (op : fs_op) (q : path) :
  q ∉ targets op → fs_step fs op !! q = fs !! q.
Proof.
  destruct op as [d|p|p c|p|src dst]; cbn [targets fs_step];
    rewrite ?not_elem_of_cons; intros Hq; try done.
  - apply lookup_insert_ne. intros ->. tauto.
  - apply lookup_alter_ne. intros ->. tauto.
  - destruct (fs !! src); [|done].
    rewrite lookup_insert_ne, lookup_delete_ne; [done| |]; intros ->; tauto.
Qed.

Lemma run_other (ops : list fs_op) (fs : gmap path string) (q : path) :
  Forall (λ op, q ∉ targets op) ops → run ops fs !! q = fs !! q.
Proof.
  unfold run. revert fs. induction ops as [|op ops IH]; intros fs Hops; [done|].
  apply Forall_cons in Hops as [Hop Hops]. cbn [foldl].
  rewrite IH by done. by apply fs_step_other.
Qed.

Lemma run_writes (p : path) (chunks : list string) (fs : gmap path string) (content : string) :
  fs !! p = Some content →
  run (Write p <$> chunks) fs !! p = Some (foldl String.append content chunks).
Proof.
  unfold run. revert fs content.
  induction chunks as [|c chunks IH]; intros fs content Hp; [done|].
  cbn [fmap list_fmap foldl fs_step]. apply IH.
  by rewrite lookup_alter_eq, Hp.
Qed.

Lemma tmp_name_differs (filename : string) : filename +:+ ".tmp" ≠ filename.
Proof.
  induction filename as [|c filename IH]; [discriminate|].
  cbn [String.append]. intros [= Heq]. by apply IH.
Qed.

Section Paths.
Variable DATA_DIR : path.

Lemma tmp_is_not_final (park_id park_id' filename : string) :
  tmp_path DATA_DIR park_id filename ≠ final_path DATA_DIR park_id' filename.
Proof.
  unfold tmp_path, final_path. intros [_ Heq]%app_inj_tail.
  by apply tmp_name_differs in Heq.
Qed.

Lemma final_path_inj (park_id park_id' filename : string) :
  final_path DATA_DIR park_id filename = final_path DATA_DIR park_id' filename →
  park_id = park_id'.
Proof.
  unfold final_path, park_dir. intros [Heq _]%app_inj_tail.
  by apply app_inj_tail in Heq as [_ ->].
Qed.

Lemma write_ops_staging park_id filename chunks :
  write_ops DATA_DIR park_id filename chunks
  = staging DATA_DIR park_id filename chunks
    ++ [Rename (tmp_path DATA_DIR park_id filename) (final_path DATA_DIR park_id filename)].
Proof. unfold write_ops, staging. by rewrite <- !app_assoc. Qed.

Lemma staging_targets park_id filename chunks (q : path) :
  q ≠ tmp_path DATA_DIR park_id filename →
  Forall (λ op, q ∉ targets op) (staging DATA_DIR park_id filename chunks).
Proof.
  intros Hq. unfold staging. rewrite !Forall_app, !Forall_cons, Forall_fmap.
  cbn [targets]. rewrite !not_elem_of_cons.
  repeat split; try done; try apply not_elem_of_nil.
  apply Forall_forall. intros c _. cbn. rewrite not_elem_of_cons.
  split; [done | apply not_elem_of_nil].
Qed.

Lemma write_ops_targets park_id filename chunks (q : path) :
  q ≠ tmp_path DATA_DIR park_id filename →
  q ≠ final_path DATA_DIR park_id filename →
  Forall (λ op, q ∉ targets op) (write_ops DATA_DIR park_id filename chunks).
Proof.
  intros Htmp Hfinal. rewrite write_ops_staging, Forall_app. split.
  - by apply staging_targets.
  - apply Forall_singleton. cbn [targets]. rewrite !not_elem_of_cons.
    repeat split; try done. apply not_elem_of_nil.
Qed.

Lemma run_staging park_id filename chunks fs :
  run (staging DATA_DIR park_id filename chunks) fs !! tmp_path DATA_DIR park_id filename
  = Some (document chunks).
Proof.
  unfold staging, run. rewrite !foldl_app. cbn [foldl fs_step].
  apply (run_writes _ chunks). apply lookup_insert_eq.
Qed.

Lemma run_write_ops park_id filename chunks fs :
  run (write_ops DATA_DIR park_id filename chunks) fs
    !! final_path DATA_DIR park_id filename
  = Some (document chunks).
Proof.
  rewrite write_ops_staging. unfold run. rewrite foldl_app. cbn [foldl fs_step].
  fold (run (staging DATA_DIR park_id filename chunks) fs). rewrite run_staging.
  apply lookup_insert_eq.
Qed.

Lemma run_before_rename park_id filename chunks fs (n : nat) :
  (n < length (write_ops DATA_DIR park_id filename chunks))%nat →
  run (take n (write_ops DATA_DIR park_id filename chunks)) fs
    !! final_path DATA_DIR park_id filename
  = fs !! final_path DATA_DIR park_id filename.
Proof.
  rewrite write_ops_staging, length_app. cbn [length]. intros Hn.
  rewrite take_app_le by lia. apply run_other, Forall_take, staging_targets.
  intros Heq. by eapply tmp_is_not_final.
Qed.

(** C9. [_write_json] creates the park's directory, opens [filename.tmp]
    in it, next to the final path, writes the chunks of the document to
    that file, closes it and, as its last operation, renames it over the
    final path: a write that meets no fault performs exactly these
    operations and returns, and a write whose operation [n] fails has
    performed the operations before it and raises.  Just before the rename
    the temporary file holds the complete document.  At every point of the
    write, and whichever operation fails, a reader of the final path finds
    what was there before the write or the complete new document; once the
    write has returned it finds the new document. *)
Theorem snapshot_write_is_atomic (disk_fault : path → option nat)
    (park_id filename : string) (chunks : list string) (fs : gmap path string) :
  let ops := write_ops DATA_DIR park_id filename chunks in
  let tmp := tmp_path DATA_DIR park_id filename in
  let final := final_path DATA_DIR park_id filename in
  tmp = park_dir DATA_DIR park_id ++ [filename +:+ ".tmp"]
  ∧ final = park_dir DATA_DIR park_id ++ [filename]
  ∧ tmp ≠ final
  ∧ ops = [Mkdir (park_dir DATA_DIR park_id); OpenW tmp]
          ++ (Write tmp <$> chunks) ++ [Close tmp; Rename tmp final]
  ∧ last ops = Some (Rename tmp final)
  ∧ run (take (length ops - 1) ops) fs !! tmp = Some (document chunks)
  ∧ (∀ n : nat,
       run (take n ops) fs !! final = fs !! final
       ∨ run (take n ops) fs !! final = Some (document chunks))
  ∧ (∀ n : nat, (n < length ops)%nat → run (take n ops) fs !! final = fs !! final)
  ∧ run ops fs !! final = Some (document chunks)
  ∧ (disk_fault final = None →
     _write_json DATA_DIR disk_fault park_id filename chunks fs = (Ok (), run ops fs))
  ∧ (∀ n : nat,
       disk_fault final = Some n →
       ((n < length ops)%nat →
        _write_json DATA_DIR disk_fault park_id filename chunks fs
        = (Raise OSError, run (take n ops) fs))
       ∧ ((length ops ≤ n)%nat →
          _write_json DATA_DIR disk_fault park_id filename chunks fs
          = (Ok (), run ops fs)))
  ∧ (∃ n : nat,
       (_write_json DATA_DIR disk_fault park_id filename chunks fs).2
       = run (take n ops) fs)
  ∧ (let '(r, fs') := _write_json DATA_DIR disk_fault park_id filename chunks fs in
     match r with
     | Ok _ => fs' !! final = Some (document chunks)
     | Raise _ => fs' !! final = fs !! final
     end).
Proof.
  intros ops tmp final. subst ops tmp final.
  split; [done|]. split; [done|]. split; [apply tmp_is_not_final|].
  split; [done|].
  split; [by rewrite write_ops_staging, last_snoc|].
  split.
  { rewrite write_ops_staging, length_app. cbn [length].
    replace (length (staging DATA_DIR park_id filename chunks) + 1 - 1)%nat
      with (length (staging DATA_DIR park_id filename chunks)) by lia.
    rewrite take_app_length. apply run_staging. }
  split; [|split; [|split; [|split; [|split; [|split]]]]].
  - intros n.
    destruct (decide (n < length (write_ops DATA_DIR park_id filename chunks))%nat).
    + left. by apply run_before_rename.
    + right. rewrite take_ge by lia. apply run_write_ops.
  - intros n Hn. by apply run_before_rename.
  - apply run_write_ops.
  - intros Hdisk. unfold _write_json. by rewrite Hdisk.
  - intros n Hdisk. unfold _write_json. rewrite Hdisk.
    split; intros Hn; case_bool_decide; done || lia.
  - unfold _write_json. destruct (disk_fault _) as [n|].
    + case_bool_decide; [by exists n|].
      exists (length (write_ops DATA_DIR park_id filename chunks)).
      by rewrite take_ge.
    + exists (length (write_ops DATA_DIR park_id filename chunks)).
      by rewrite take_ge.
  - unfold _write_json. destruct (disk_fault _) as [n|]; [|apply run_write_ops].
    case_bool_decide; [by apply run_before_rename | apply run_write_ops].
Qed.

End Paths.

(** A write of two chunks over an old snapshot, without a fault: it returns
    and the final path holds the new document; with a fault in the second
    [write] it raises and the final path holds the old one. *)
Lemma snapshot_write_is_atomic_witness :
  let fs : gmap path string := {[ ["data"; "efteling"; "live.json"] := "old" ]} in
  (_write_json Sample.DATA_DIR Sample.no_fault "efteling" "live.json" ["{"; "}"] fs).1
  = Ok ()
  ∧ (_write_json Sample.DATA_DIR Sample.no_fault "efteling" "live.json" ["{"; "}"] fs).2
      !! ["data"; "efteling"; "live.json"]
    = Some "{}"
  ∧ (_write_json Sample.DATA_DIR (λ _, Some 3%nat) "efteling" "live.json" ["{"; "}"] fs).1
    = Raise OSError
  ∧ (_write_json Sample.DATA_DIR (λ _, Some 3%nat) "efteling" "live.json" ["{"; "}"] fs).2
      !! ["data"; "efteling"; "live.json"]
    = Some "old".
Proof.
  intros fs.
  destruct (snapshot_write_is_atomic Sample.DATA_DIR Sample.no_fault
              "efteling" "live.json" ["{"; "}"] fs)
    as (_ & _ & _ & _ & _ & _ & _ & _ & Hnew & Hdone & _).
  destruct (snapshot_write_is_atomic Sample.DATA_DIR (λ _, Some 3%nat)
              "efteling" "live.json" ["{"; "}"] fs)
    as (_ & _ & _ & _ & _ & _ & _ & Hold & _ & _ & Hfault & _).
  rewrite (Hdone eq_refl).
  rewrite (proj1 (Hfault 3%nat eq_refl) ltac:(cbn; lia)).
  split; [done|]. split; [exact Hnew|]. split; [done|].
  transitivity (fs !! final_path Sample.DATA_DIR "efteling" "live.json");
    [exact (Hold 3%nat ltac:(cbn; lia)) | by vm_compute].
Defined.

End SnapshotWriter.

(** ** Per-park isolation of a tick and the derived park status *)

Module Tick.
Import Scheduler.

(** What the two jobs share: a loop over the parks that logs what a step
    raises and goes on. *)
Section Loop.
Context {Calendar : Type}.
Variable DATA_DIR : path.
Variable filename : string.
Variable step : string → Connector Calendar → World → result unit * World.
Variable record : string → exn → LogRecord.
Variable job : list (string * Connector Calendar) → World → World.
Implicit Types (connector : Connector Calendar) (w : World).
Implicit Types (PARKS : list (string * Connector Calendar)).

Hypothesis job_nil : ∀ w, job [] w = w.
Hypothesis job_cons : ∀ park_id connector PARKS w,
  job ((park_id, connector) :: PARKS) w
  = job PARKS (after_step record park_id (step park_id connector w).1
                                         (step park_id connector w).2).
Hypothesis step_files_other : ∀ park_id connector w (q : path),
  q ≠ tmp_path DATA_DIR park_id filename →
  q ≠ final_path DATA_DIR park_id filename →
  files (step park_id connector w).2 !! q = files w !! q.
Hypothesis step_log : ∀ park_id connector w (l : LogRecord),
  l ∈ log w → l ∈ log (step park_id connector w).2.
Hypothesis step_outcome : ∀ park_id connector w w',
  (step park_id connector w).1 = (step park_id connector w').1.

Lemma after_step_files park_id r w : files (after_step record park_id r w) = files w.
Proof. by destruct r. Qed.

Lemma after_step_log park_id r w (l : LogRecord) :
  l ∈ log w → l ∈ log (after_step record park_id r w).
Proof. destruct r; [done|]. intros Hl. apply elem_of_app. by left. Qed.

Lemma job_files_other PARKS w (q : path) :
  (∀ park_id, park_id ∈ PARKS.*1 →
     q ≠ tmp_path DATA_DIR park_id filename
     ∧ q ≠ final_path DATA_DIR park_id filename) →
  files (job PARKS w) !! q = files w !! q.
Proof.
  revert w. induction PARKS as [|[p c] PARKS IH]; intros w Hq; [by rewrite job_nil|].
  rewrite job_cons, IH.
  - rewrite after_step_files. apply step_files_other; apply Hq, elem_of_cons; by left.
  - intros p' Hp'. apply Hq, elem_of_cons. by right.
Qed.

Lemma job_log PARKS w (l : LogRecord) : l ∈ log w → l ∈ log (job PARKS w).
Proof.
  revert w. induction PARKS as [|[p c] PARKS IH]; intros w Hl; [by rewrite job_nil|].
  rewrite job_cons. by apply IH, after_step_log, step_log.
Qed.

(** What a park's step writes to its final path is there after the job,
    whatever the other parks do. *)
Lemma job_written PARKS w park_id connector (content : string) :
  NoDup PARKS.*1 →
  (park_id, connector) ∈ PARKS →
  (∀ w', files (step park_id connector w').2 !! final_path DATA_DIR park_id filename
         = Some content) →
  files (job PARKS w) !! final_path DATA_DIR park_id filename = Some content.
Proof.
  intros Hnodup Hin Hwrites.
  revert w. induction PARKS as [|[p c] PARKS IH]; intros w.
  { by apply elem_of_nil in Hin. }
  cbn [fmap list_fmap] in Hnodup. apply NoDup_cons in Hnodup as [Hp Hnodup].
  rewrite job_cons. apply elem_of_cons in Hin as [[= <- <-]|Hin]; [|by apply IH].
  rewrite job_files_other.
  - by rewrite after_step_files.
  - intros p' Hp'. split.
    + intros Heq. symmetry in Heq. by eapply SnapshotWriter.tmp_is_not_final.
    + by intros ->%SnapshotWriter.final_path_inj.
Qed.

(** What a park's step raises is in the log after the job. *)
Lemma job_logged PARKS w park_id connector (e : exn) :
  (park_id, connector) ∈ PARKS →
  (step park_id connector w).1 = Raise e →
  record park_id e ∈ log (job PARKS w).
Proof.
  intros Hin. revert w. induction PARKS as [|[p c] PARKS IH]; intros w Hraise.
  { by apply elem_of_nil in Hin. }
  rewrite job_cons. apply elem_of_cons in Hin as [[= <- <-]|Hin].
  - apply job_log. rewrite Hraise. cbn [after_step log].
    apply elem_of_app. right. apply list_elem_of_here.
  - apply IH; [done|]. by rewrite <- Hraise; apply step_outcome.
Qed.

End Loop.

Section Jobs.
Context {Calendar : Type}.
Variable DATA_DIR : path.
Variable dump_live : LiveData → list string.
Variable dump_calendar : Calendar → list string.
Variable insert_many : list Doc → list Doc → list Doc * option exn.
Variable clock : string → Z.
Variable disk_fault : path → option nat.

Local Abbreviation live_step :=
  (_fetch_park_live DATA_DIR dump_live insert_many clock disk_fault).
Local Abbreviation live_job :=
  (fetch_all_live DATA_DIR dump_live insert_many clock disk_fault).
Local Abbreviation calendar_step := (fetch_park_calendar DATA_DIR dump_calendar disk_fault).
Local Abbreviation calendar_job := (fetch_all_calendars DATA_DIR dump_calendar disk_fault).
Implicit Types (connector : Connector Calendar) (w : World).
Implicit Types (PARKS : list (string * Connector Calendar)).

Lemma store_history_files park_id now attractions w :
  files (store_history insert_many park_id now attractions w) = files w.
Proof.
  unfold store_history. destruct attractions; [done|].
  destruct (db w); [|done]. by destruct (insert_many _ _).
Qed.

Lemma store_history_log park_id now attractions w (l : LogRecord) :
  l ∈ log w → l ∈ log (store_history insert_many park_id now attractions w).
Proof.
  unfold store_history. destruct attractions; [done|].
  destruct (db w); [|done]. destruct (insert_many _ _) as [c [e|]]; cbn; [|done].
  intros Hl. apply elem_of_app. by left.
Qed.

Lemma write_json_other park_id filename chunks fs (q : path) :
  q ≠ tmp_path DATA_DIR park_id filename →
  q ≠ final_path DATA_DIR park_id filename →
  (_write_json DATA_DIR disk_fault park_id filename chunks fs).2 !! q = fs !! q.
Proof.
  intros Htmp Hfinal. unfold _write_json.
  pose proof (SnapshotWriter.write_ops_targets DATA_DIR park_id filename chunks q
                Htmp Hfinal) as Hops.
  destruct (disk_fault _) as [n|]; [case_bool_decide|]; cbn [snd];
    apply SnapshotWriter.run_other; by try apply Forall_take.
Qed.

Lemma write_json_outcome park_id filename chunks fs fs' :
  (_write_json DATA_DIR disk_fault park_id filename chunks fs).1
  = (_write_json DATA_DIR disk_fault park_id filename chunks fs').1.
Proof.
  unfold _write_json. destruct (disk_fault _) as [n|]; [|done]. by case_bool_decide.
Qed.

(** A park's live step changes no file of another park. *)
Lemma live_step_files_other park_id connector w (q : path) :
  q ≠ tmp_path DATA_DIR park_id "live.json" →
  q ≠ final_path DATA_DIR park_id "live.json" →
  files (live_step park_id connector w).2 !! q = files w !! q.
Proof.
  intros Htmp Hfinal. unfold _fetch_park_live.
  destruct (fetch_wait_times connector); [|done].
  destruct (fetch_shows connector); [|done].
  destruct (fetch_restaurants connector); [|done].
  destruct (fetch_shops connector); [|done].
  destruct (_write_json _ _ _ _ _ _) as [r fs] eqn:Hw. cbn [snd files].
  replace fs with (r, fs).2 by done. rewrite <- Hw.
  rewrite write_json_other by done. by rewrite store_history_files.
Qed.

Lemma live_step_log park_id connector w (l : LogRecord) :
  l ∈ log w → l ∈ log (live_step park_id connector w).2.
Proof.
  intros Hl. unfold _fetch_park_live.
  destruct (fetch_wait_times connector); [|done].
  destruct (fetch_shows connector); [|done].
  destruct (fetch_restaurants connector); [|done].
  destruct (fetch_shops connector); [|done].
  destruct (_write_json _ _ _ _ _ _) as [r fs]. cbn [snd log].
  by apply store_history_log.
Qed.

(** Whether a park's step raises does not depend on the world it starts in. *)
Lemma live_step_outcome park_id connector w w' :
  (live_step park_id connector w).1 = (live_step park_id connector w').1.
Proof.
  unfold _fetch_park_live.
  destruct (fetch_wait_times connector); [|done].
  destruct (fetch_shows connector); [|done].
  destruct (fetch_restaurants connector); [|done].
  destruct (fetch_shops connector); [|done].
  pose proof (write_json_outcome park_id "live.json"
    (dump_live (live_data_of park_id connector (clock park_id) a a0 a1 a2))
    (files (store_history insert_many park_id (clock park_id) a w))
    (files (store_history insert_many park_id (clock park_id) a w'))) as Hsame.
  by do 2 destruct (_write_json _ _ _ _ _ _).
Qed.

Lemma live_step_writes park_id connector w attractions shows restaurants shops :
  fetch_wait_times connector = Ok attractions →
  fetch_shows connector = Ok shows →
  fetch_restaurants connector = Ok restaurants →
  fetch_shops connector = Ok shops →
  disk_fault (final_path DATA_DIR park_id "live.json") = None →
  files (live_step park_id connector w).2 !! final_path DATA_DIR park_id "live.json"
  = Some (document (dump_live (live_data_of park_id connector (clock park_id)
                                 attractions shows restaurants shops))).
Proof.
  intros Ha Hs Hr Hsh Hdisk. unfold _fetch_park_live, _write_json.
  rewrite Ha, Hs, Hr, Hsh, Hdisk. cbn [snd files].
  apply SnapshotWriter.run_write_ops.
Qed.

Lemma live_job_cons park_id connector PARKS w :
  live_job ((park_id, connector) :: PARKS) w
  = live_job PARKS (after_step UnhandledError park_id
                      (live_step park_id connector w).1
                      (live_step park_id connector w).2).
Proof. cbn [fetch_all_live]. by destruct (live_step park_id connector w) as [[|] ?]. Qed.

Lemma calendar_step_files_other park_id connector w (q : path) :
  q ≠ tmp_path DATA_DIR park_id "calendar.json" →
  q ≠ final_path DATA_DIR park_id "calendar.json" →
  files (calendar_step park_id connector w).2 !! q = files w !! q.
Proof.
  intros Htmp Hfinal. unfold fetch_park_calendar.
  destruct (fetch_calendar connector); [|done].
  destruct (_write_json _ _ _ _ _ _) as [r fs] eqn:Hw. cbn [snd files].
  replace fs with (r, fs).2 by done. rewrite <- Hw.
  by rewrite write_json_other.
Qed.

Lemma calendar_step_log park_id connector w (l : LogRecord) :
  l ∈ log w → l ∈ log (calendar_step park_id connector w).2.
Proof.
  intros Hl. unfold fetch_park_calendar.
  destruct (fetch_calendar connector); [|done].
  by destruct (_write_json _ _ _ _ _ _).
Qed.

Lemma calendar_step_outcome park_id connector w w' :
  (calendar_step park_id connector w).1 = (calendar_step park_id connector w').1.
Proof.
  unfold fetch_park_calendar.
  destruct (fetch_calendar connector) as [calendar|]; [|done].
  pose proof (write_json_outcome park_id "calendar.json" (dump_calendar calendar)
                (files w) (files w')) as Hsame.
  by do 2 destruct (_write_json _ _ _ _ _ _).
Qed.

Lemma calendar_step_writes park_id connector w calendar :
  fetch_calendar connector = Ok calendar →
  disk_fault (final_path DATA_DIR park_id "calendar.json") = None →
  files (calendar_step park_id connector w).2
    !! final_path DATA_DIR park_id "calendar.json"
  = Some (document (dump_calendar calendar)).
Proof.
  intros Hc Hdisk. unfold fetch_park_calendar, _write_json.
  rewrite Hc, Hdisk. cbn [snd files].
  apply SnapshotWriter.run_write_ops.
Qed.

Lemma calendar_job_cons park_id connector PARKS w :
  calendar_job ((park_id, connector) :: PARKS) w
  = calendar_job PARKS (after_step CalendarError park_id
                          (calendar_step park_id connector w).1
                          (calendar_step park_id connector w).2).
Proof.
  cbn [fetch_all_calendars]. by destruct (calendar_step park_id connector w) as [[|] ?].
Qed.

(** C8. In a live tick over parks with distinct identifiers, a park whose
    four fetches return and whose write meets no fault has its live.json
    written with its own snapshot, whatever the other parks' steps raise;
    and an exception raised by a park's step is caught and logged with the
    park's identifier.  The calendar job isolates the parks the same way. *)
Theorem per_park_isolation (PARKS : list (string * Connector Calendar)) (w : World) :
  NoDup PARKS.*1 →
  (∀ park_id connector attractions shows restaurants shops,
     (park_id, connector) ∈ PARKS →
     fetch_wait_times connector = Ok attractions →
     fetch_shows connector = Ok shows →
     fetch_restaurants connector = Ok restaurants →
     fetch_shops connector = Ok shops →
     disk_fault (final_path DATA_DIR park_id "live.json") = None →
     files (live_job PARKS w) !! final_path DATA_DIR park_id "live.json"
     = Some (document (dump_live (live_data_of park_id connector (clock park_id)
                                    attractions shows restaurants shops))))
  ∧ (∀ park_id connector e,
       (park_id, connector) ∈ PARKS →
       (live_step park_id connector w).1 = Raise e →
       UnhandledError park_id e ∈ log (live_job PARKS w))
  ∧ (∀ park_id connector calendar,
       (park_id, connector) ∈ PARKS →
       fetch_calendar connector = Ok calendar →
       disk_fault (final_path DATA_DIR park_id "calendar.json") = None →
       files (calendar_job PARKS w) !! final_path DATA_DIR park_id "calendar.json"
       = Some (document (dump_calendar calendar)))
  ∧ (∀ park_id connector e,
       (park_id, connector) ∈ PARKS →
       (calendar_step park_id connector w).1 = Raise e →
       CalendarError park_id e ∈ log (calendar_job PARKS w)).
Proof.
  intros Hnodup. split; [|split; [|split]].
  - intros park_id connector attractions shows restaurants shops Hin Ha Hs Hr Hsh Hdisk.
    apply (job_written DATA_DIR "live.json" live_step UnhandledError live_job)
      with (connector := connector);
      auto using live_job_cons, live_step_files_other.
    intros w'. by apply live_step_writes.
  - intros park_id connector e Hin Hraise.
    apply (job_logged live_step UnhandledError live_job)
      with (connector := connector);
      auto using live_job_cons, live_step_log, live_step_outcome.
  - intros park_id connector calendar Hin Hc Hdisk.
    apply (job_written DATA_DIR "calendar.json" calendar_step CalendarError calendar_job)
      with (connector := connector);
      auto using calendar_job_cons, calendar_step_files_other.
    intros w'. by apply calendar_step_writes.
  - intros park_id connector e Hin Hraise.
    apply (job_logged calendar_step CalendarError calendar_job)
      with (connector := connector);
      auto using calendar_job_cons, calendar_step_log, calendar_step_outcome.
Qed.

End Jobs.

(** The first park's step raises in [fetch_shows]; the second park's
    snapshot is written all the same. *)
Lemma per_park_isolation_witness :
  NoDup Sample.PARKS.*1
  ∧ files (fetch_all_live Sample.DATA_DIR Sample.dump_live Sample.insert_many
             Sample.utc_clock Sample.no_fault Sample.PARKS Sample.empty_world)
      !! ["data"; "europapark"; "live.json"]
    = Some "{europapark:unknown}"
  ∧ UnhandledError "efteling" AttributeError
    ∈ log (fetch_all_live Sample.DATA_DIR Sample.dump_live Sample.insert_many
             Sample.utc_clock Sample.no_fault Sample.PARKS Sample.empty_world).
Proof.
  assert (NoDup Sample.PARKS.*1) as Hnodup.
  { apply NoDup_cons. split.
    - intros [[=]|Hin%elem_of_nil]%elem_of_cons. exact Hin.
    - apply NoDup_singleton. }
  destruct (per_park_isolation Sample.DATA_DIR Sample.dump_live (λ _ : unit, [])
              Sample.insert_many Sample.utc_clock Sample.no_fault
              Sample.PARKS Sample.empty_world Hnodup)
    as (Hwritten & Hlogged & _).
  split; [exact Hnodup|]. split.
  - apply (Hwritten "europapark" Sample.placeholder [] [] [] []); try reflexivity.
    apply list_elem_of_further, list_elem_of_here.
  - apply (Hlogged "efteling" Sample.failing); [apply list_elem_of_here | reflexivity].
Defined.



End Tick.

(** * Further properties of the connector *)

Module Outputs.
Import Efteling Returned.

Section Attractions.
Context `{Runtime}.

Lemma wait_time_of_not_open (status : AttractionStatus.t) (entry : dict) r :
  wait_time_of status entry = Ok r → status ≠ AttractionStatus.open → r = None.
Proof. destruct status; cbn; intros Hr Hs; by try injection Hr as <-. Qed.

Lemma fetched_from_entry (wis : result json) clock out (a : AttractionLive.t) :
  fetch_wait_times wis clock = Ok out →
  a ∈ out →
  ∃ all_entries now entry_id entry,
    (entry_id, entry) ∈ all_entries
    ∧ (attraction_of all_entries (single_rider_map_of all_entries) now entry_id entry
       = Ok (Some a)).
Proof.
  intros Hout Ha. destruct wis as [data|e].
  - cbn [fetch_wait_times] in Hout.
    apply bind_Ok in Hout as (all_entries & _ & Hout).
    destruct (Attractions.attractions_from_elem _ _ _ _ _ _ _ Hout Ha)
      as (j & k & e & Hj & Hat).
    exists all_entries, (clock (0 + j)%nat), k, e. split; [|done].
    apply list_elem_of_lookup. eauto.
  - injection Hout as <-. by apply elem_of_nil in Ha.
Qed.

(** X1. An attraction returned by [fetch_wait_times] has a wait time only
    when it is open; its single-rider queue, when it has one, is available,
    has status "open" or "closed", and has a wait time only when "open". *)
Theorem wait_time_only_when_open (wis : result json) (clock : nat → datetime)
    (out : list AttractionLive.t) (a : AttractionLive.t) :
  fetch_wait_times wis clock = Ok out →
  a ∈ out →
  (AttractionLive.status a ≠ AttractionStatus.open → AttractionLive.wait_time a = None)
  ∧ (∀ sr, AttractionLive.single_rider a = Some sr →
       SingleRiderInfo.available sr = true
       ∧ (SingleRiderInfo.status sr = Some "open"
          ∨ SingleRiderInfo.status sr = Some "closed"
            ∧ SingleRiderInfo.wait_time sr = None)).
Proof.
  intros Hout Ha.
  destruct (fetched_from_entry _ _ _ _ Hout Ha) as (ae & now & k & e & _ & Hat).
  apply Attractions.attraction_of_fields in Hat as (_ & _ & _ & _ & Hwait & Hsr & _).
  split; [by apply (wait_time_of_not_open _ e)|].
  intros sr Hrider. rewrite Hrider in Hsr. unfold single_rider_of in Hsr.
  destruct (find_sr _ _) as [sr_id|]; [|discriminate].
  destruct (String.eqb sr_id ""); [discriminate|].
  destruct (dict_lookup ae sr_id) as [sr_entry|]; [|discriminate].
  apply bind_Ok in Hsr as (sr_status & _ & Hsr).
  apply bind_Ok in Hsr as (sr_wait & Hsr_wait & Hsr).
  injection Hsr as <-. cbn. split; [done|].
  destruct (decide (sr_status = AttractionStatus.open)); [by left|right].
  split; [done|]. by apply (wait_time_of_not_open sr_status sr_entry).
Qed.

Lemma attractions_from_ids all_entries single_rider_map clock i items out :
  attractions_from all_entries single_rider_map clock i items = Ok out →
  AttractionLive.id <$> out = returned_ids single_rider_map items.
Proof.
  revert i out. induction items as [|[k e] items IH]; intros i out Hout.
  - by injection Hout as <-.
  - apply Attractions.attractions_from_cons in Hout as (r & rest & Hr & Hrest & ->).
    cbn [returned_ids]. unfold is_returned. cbn [fst snd].
    destruct r as [a|].
    + apply Attractions.attraction_of_fields in Hr as (-> & Hskip & Hid & _).
      rewrite bool_decide_eq_false_2 by done. cbn. by rewrite Hid, (IH _ _ Hrest).
    + unfold attraction_of in Hr.
      destruct (is_attraction_type e); cbn [negb andb] in *; [|by eapply IH].
      case_bool_decide; cbn [negb]; [by eapply IH|].
      apply bind_Ok in Hr as (? & _ & Hr). apply bind_Ok in Hr as (? & _ & Hr).
      apply bind_Ok in Hr as (? & _ & Hr). apply bind_Ok in Hr as (? & _ & Hr).
      apply bind_Ok in Hr as (? & _ & Hr). discriminate.
Qed.

Lemma returned_ids_length single_rider_map items :
  (length (returned_ids single_rider_map items) ≤ length items)%nat.
Proof.
  induction items as [|p items IH]; cbn [returned_ids length]; [done|].
  destruct (is_returned _ _); cbn [length]; lia.
Qed.

(** X2. The identifiers [fetch_wait_times] returns are, in payload order,
    the resolved identifiers of the entries of an attraction type that are
    not matched secondary entries: no other entry is returned, none of
    these is left out, and the list is no longer than the payload's. *)
Theorem returned_identifiers (data : json) (clock : nat → datetime)
    (all_entries : list (string * dict)) (out : list AttractionLive.t) :
  all_entries_of data = Ok all_entries →
  fetch_wait_times (Ok data) clock = Ok out →
  AttractionLive.id <$> out
  = returned_ids (single_rider_map_of all_entries) all_entries
  ∧ (length out ≤ length all_entries)%nat.
Proof.
  intros Hall Hout. cbn [fetch_wait_times] in Hout. rewrite Hall in Hout.
  cbn [mbind result_bind] in Hout.
  pose proof (attractions_from_ids _ _ _ _ _ _ Hout) as Hids.
  split; [done|].
  rewrite <- (length_fmap AttractionLive.id), Hids. apply returned_ids_length.
Qed.

(** X3. An entry without a (truthy) VirtualQueue gets none.  A virtual
    queue whose state, lower-cased but not stripped, is not "enabled" never
    raises and has no return window: "walkin" is temporarily_full, "full" is
    full, and everything else, a missing state included, is closed.  Every
    VirtualQueueInfo returned is available and has a state. *)
Theorem queue_states :
  (∀ now (entry : dict),
     truthy (dict_get entry "VirtualQueue" JNull) = false →
     virtual_queue_of now entry = Ok None)
  ∧ (∀ now (entry vq : dict) (s : string),
       dict_get entry "VirtualQueue" JNull = JDict vq →
       vq ≠ [] →
       py_or (dict_get vq "State" JNull) (JStr "") = JStr s →
       lower s ≠ "enabled" →
       virtual_queue_of now entry
       = Ok (Some {| VirtualQueueInfo.available := true;
                     VirtualQueueInfo.state := Some (queue_state (lower s));
                     VirtualQueueInfo.return_start := None;
                     VirtualQueueInfo.return_end := None |}))
  ∧ (∀ wis clock out (a : AttractionLive.t) (vq : VirtualQueueInfo.t),
       fetch_wait_times wis clock = Ok out →
       a ∈ out →
       AttractionLive.virtual_queue a = Some vq →
       VirtualQueueInfo.available vq = true
       ∧ is_Some (VirtualQueueInfo.state vq)).
Proof.
  split; [|split].
  - intros now entry Hf. unfold virtual_queue_of. by rewrite Hf.
  - intros now entry vq s Hvq Hne Hs Hen. unfold virtual_queue_of. rewrite Hvq.
    assert (truthy (JDict vq) = true) as -> by (by destruct vq).
    cbn [py_get mbind result_bind]. rewrite Hs. cbn [py_lower mbind result_bind].
    unfold queue_state.
    destruct (String.eqb_spec (lower s) "walkin"); [done|].
    destruct (String.eqb_spec (lower s) "enabled"); [done|].
    by destruct (String.eqb_spec (lower s) "full").
  - intros wis clock out a vq Hout Ha Hvq.
    destruct (fetched_from_entry _ _ _ _ Hout Ha) as (ae & now & k & e & _ & Hat).
    apply Attractions.attraction_of_fields in Hat as (_ & _ & _ & _ & _ & _ & Hq).
    rewrite Hvq in Hq. unfold virtual_queue_of in Hq.
    destruct (truthy _); [|discriminate].
    apply bind_Ok in Hq as (st & _ & Hq). apply bind_Ok in Hq as (raw & _ & Hq).
    apply bind_Ok in Hq as (wait & _ & Hq).
    repeat case_match; inv_Ok; cbn; eauto.
Qed.

End Attractions.

(** A ride in maintenance with a posted wait of 25 minutes is returned
    without a wait time. *)
Lemma wait_time_only_when_open_witness :
  fetch_wait_times (Ok (Sample.wis [Sample.attraction_entry "bob" "inonderhoud" 25]))
    Sample.clock
  = Ok [Sample.bob]
  ∧ AttractionLive.wait_time Sample.bob = None.
Proof.
  assert (fetch_wait_times
            (Ok (Sample.wis [Sample.attraction_entry "bob" "inonderhoud" 25]))
            Sample.clock
          = Ok [Sample.bob]) as Hout by (vm_compute; reflexivity).
  split; [exact Hout|].
  apply (proj1 (wait_time_only_when_open _ _ _ _ Hout (list_elem_of_here _ _))).
  discriminate.
Defined.

(** Of a ride, its single-rider entry and a single-rider entry without a
    parent, the first and the last are returned, in that order. *)
Lemma returned_identifiers_witness :
  let data := Sample.wis [Sample.attraction_entry "dreamflight" "open" 12;
                          Sample.attraction_entry "dreamflightsr" "open" 3;
                          Sample.attraction_entry "batasr" "open" 5] in
  let out := [Sample.dreamflight; Sample.batasr] in
  fetch_wait_times (Ok data) Sample.clock = Ok out
  ∧ AttractionLive.id <$> out = ["dreamflight"; "batasr"]
  ∧ (length out ≤ 3)%nat.
Proof.
  intros data out.
  assert (fetch_wait_times (Ok data) Sample.clock = Ok out) as Hout
    by (vm_compute; reflexivity).
  split; [exact Hout|].
  exact (returned_identifiers data Sample.clock _ out eq_refl Hout).
Defined.

End Outputs.

Module ShowsAndVenues.
Import Efteling Returned.

Lemma lower_char_idemp (c : ascii) : lower_char (lower_char c) = lower_char c.
Proof. by destruct c as [[] [] [] [] [] [] [] []]. Qed.

Lemma lower_idemp (s : string) : lower (lower s) = lower s.
Proof.
  induction s as [|c s IH]; [done|]. cbn [lower]. by rewrite lower_char_idemp, IH.
Qed.

Section Sorting.
Context `{Runtime}.

Abbreviation start_key st := (sort_key (ShowTime.start_date_time st)).
Abbreviation starts l := (ShowTime.start_date_time <$> l).

Lemma sub_ltb_0 (x y : Z) : (x - y <? 0) = (x <? y).
Proof. destruct (Z.ltb_spec x y); [apply Z.ltb_lt | apply Z.ltb_ge]; lia. Qed.

Lemma dt_lt_sort_key (a b : datetime) :
  one_kind [a; b] → dt_lt a b = (sort_key a <? sort_key b).
Proof.
  unfold one_kind, dt_lt, dt_sub, utcoffset, sort_key.
  rewrite !Forall_cons.
  intros [(-> & -> & _)|([oa ->] & [ob ->] & _)]; apply sub_ltb_0.
Qed.

Lemma one_kind_cons (x : datetime) (l : list datetime) :
  one_kind (x :: l) → one_kind l ∧ ∀ y, y ∈ l → one_kind [x; y].
Proof.
  unfold one_kind. rewrite !Forall_cons.
  intros [[Hx Hl]|[Hx Hl]]; (split; [tauto|]); intros y Hy;
    pose proof (proj1 (Forall_forall _ _) Hl y Hy) as Hy';
    [left|right]; rewrite !Forall_cons, Forall_nil; tauto.
Qed.

Lemma insert_by_start_perm (x : ShowTime.t) (l : list ShowTime.t) :
  insert_by_start x l ≡ₚ x :: l.
Proof.
  induction l as [|y l IH]; cbn [insert_by_start]; [done|].
  destruct (dt_lt _ _); [done|]. rewrite IH. apply Permutation_swap.
Qed.

Lemma sort_by_start_perm (l : list ShowTime.t) : sort_by_start l ≡ₚ l.
Proof.
  unfold sort_by_start.
  assert (∀ acc, foldl (λ acc x, insert_by_start x acc) acc l ≡ₚ acc ++ l) as Hgen.
  { induction l as [|x l IH]; intros acc; cbn [foldl].
    - by rewrite app_nil_r.
    - rewrite IH, insert_by_start_perm. apply Permutation_middle. }
  apply Hgen.
Qed.

Lemma insert_by_start_sorted (x : ShowTime.t) (l : list ShowTime.t) :
  one_kind (starts (x :: l)) →
  StronglySorted (λ a b, start_key a ≤ start_key b) l →
  StronglySorted (λ a b, start_key a ≤ start_key b) (insert_by_start x l).
Proof.
  intros Hkind Hsorted. induction Hsorted as [|y l Hl IH Hy]; cbn [insert_by_start].
  - repeat constructor.
  - assert (one_kind [ShowTime.start_date_time x; ShowTime.start_date_time y]) as Hxy.
    { cbn [fmap list_fmap] in Hkind. apply one_kind_cons in Hkind as [_ Hkind].
      apply Hkind. apply elem_of_cons. by left. }
    rewrite (dt_lt_sort_key _ _ Hxy).
    destruct (Z.ltb_spec (start_key x) (start_key y)) as [Hlt|Hge].
    + constructor; [by constructor|].
      apply Forall_cons. split; [lia|].
      eapply Forall_impl; [exact Hy|]. cbn. intros z Hz. lia.
    + constructor.
      * apply IH. cbn [fmap list_fmap] in *.
        unfold one_kind in *. rewrite !Forall_cons in *. tauto.
      * rewrite insert_by_start_perm. apply Forall_cons. split; [lia | done].
Qed.

Lemma sort_by_start_sorted (l : list ShowTime.t) :
  one_kind (starts l) →
  StronglySorted (λ a b, start_key a ≤ start_key b) (sort_by_start l).
Proof.
  unfold sort_by_start. intros Hkind.
  assert (∀ acc, one_kind (starts (acc ++ l)) →
            StronglySorted (λ a b, start_key a ≤ start_key b) acc →
            StronglySorted (λ a b, start_key a ≤ start_key b)
              (foldl (λ acc x, insert_by_start x acc) acc l)) as Hgen.
  { clear Hkind. induction l as [|x l IH]; intros acc Hkind Hacc; cbn [foldl]; [done|].
    apply IH.
    - unfold one_kind in *. rewrite insert_by_start_perm. cbn [app].
      by rewrite Permutation_middle.
    - apply insert_by_start_sorted; [|done].
      unfold one_kind in *. rewrite fmap_app, !fmap_cons in *.
      rewrite !Forall_app, !Forall_cons in Hkind. rewrite !Forall_cons. tauto. }
  apply (Hgen []); [done | constructor].
Qed.

Lemma show_of_fields (now_park : datetime) (entry : json) (show : Show.t) :
  show_of now_park entry = Ok (Some show) →
  (∃ parsed, Show.show_times show = sort_by_start parsed)
  ∧ lower (Show.id show) = Show.id show.
Proof.
  unfold show_of. intros Hshow.
  apply bind_Ok in Hshow as (ty & _ & Hshow).
  destruct (negb _); [discriminate|].
  inv_Ok. cbn. split; [eauto|].
  destruct a3; try discriminate. injection Ha4 as <-. apply lower_idemp.
Qed.

Lemma fetched_show (wis : result json) now_park out (show : Show.t) :
  fetch_shows wis now_park = Ok out → show ∈ out →
  ∃ entry, show_of now_park entry = Ok (Some show).
Proof.
  intros Hout Hshow. destruct wis as [data|e].
  - cbn [fetch_shows] in Hout.
    apply bind_Ok in Hout as (info & _ & Hout).
    apply bind_Ok in Hout as (items & _ & Hout).
    apply fmap_Ok in Hout as (parsed & Hparsed & ->).
    destruct (Categories.mapM_Ok_elem _ _ _ _ Hparsed Hshow) as (entry & _ & Hof).
    eauto.
  - injection Hout as <-. by apply elem_of_nil in Hshow.
Qed.

(** X4. The show times of every show returned by [fetch_shows] are in
    ascending order of start when their starts carry one kind of tzinfo
    (all with an offset in the payload, or all without): by instant for
    offsets, by wall clock for park-local times. *)
Theorem show_times_ascending (wis : result json) (now_park : datetime)
    (out : list Show.t) (show : Show.t) :
  fetch_shows wis now_park = Ok out →
  show ∈ out →
  one_kind (starts (Show.show_times show)) →
  StronglySorted (λ a b, start_key a ≤ start_key b) (Show.show_times show).
Proof.
  intros Hout Hshow Hkind.
  destruct (fetched_show _ _ _ _ Hout Hshow) as (entry & Hof).
  apply show_of_fields in Hof as [[parsed Hsorted] _].
  rewrite Hsorted in *. apply sort_by_start_sorted.
  unfold one_kind in *. by rewrite <- (sort_by_start_perm parsed).
Qed.

Lemma venue_of_fields (type : string) (entry : json) (v : Venue.t) :
  venue_of type entry = Ok (Some v) →
  lower (Venue.id v) = Venue.id v
  ∧ (Venue.status v = VenueStatus.closed →
     Venue.opening_time v = None ∧ Venue.closing_time v = None).
Proof.
  unfold venue_of. intros Hv.
  apply bind_Ok in Hv as (ty & _ & Hv).
  destruct (negb _); [discriminate|].
  apply bind_Ok in Hv as (opening & _ & Hv).
  apply bind_Ok in Hv as ([[opening_time closing_time] status] & Htimes & Hv).
  apply bind_Ok in Hv as (raw_id & _ & Hv).
  apply bind_Ok in Hv as (id & Hid & Hv).
  apply bind_Ok in Hv as (raw_name & _ & Hv).
  apply bind_Ok in Hv as (name & _ & Hv).
  injection Hv as <-. cbn. split.
  - destruct raw_id; try discriminate. injection Hid as <-. apply lower_idemp.
  - destruct (truthy _).
    + inv_Ok. discriminate.
    + by injection Htimes as <- <- <-.
Qed.

Lemma fetched_venue (type : string) (wis : result json) out (v : Venue.t) :
  venues type wis = Ok out → v ∈ out →
  ∃ entry, venue_of type entry = Ok (Some v).
Proof.
  intros Hout Hv. destruct wis as [data|e].
  - cbn [venues] in Hout.
    apply bind_Ok in Hout as (info & _ & Hout).
    apply bind_Ok in Hout as (items & _ & Hout).
    apply fmap_Ok in Hout as (parsed & Hparsed & ->).
    destruct (Categories.mapM_Ok_elem _ _ _ _ Hparsed Hv) as (entry & _ & Hof).
    eauto.
  - injection Hout as <-. by apply elem_of_nil in Hv.
Qed.

(** X5. The identifier of every show, restaurant and shop returned is in
    lower case: lower-casing it again changes nothing. *)
Theorem identifiers_are_lower_case :
  (∀ wis now_park out (show : Show.t),
     fetch_shows wis now_park = Ok out → show ∈ out →
     lower (Show.id show) = Show.id show)
  ∧ (∀ wis out (v : Venue.t),
       fetch_restaurants wis = Ok out → v ∈ out → lower (Venue.id v) = Venue.id v)
  ∧ (∀ wis out (v : Venue.t),
       fetch_shops wis = Ok out → v ∈ out → lower (Venue.id v) = Venue.id v).
Proof.
  split; [|split].
  - intros wis now_park out show Hout Hshow.
    destruct (fetched_show _ _ _ _ Hout Hshow) as (entry & Hof).
    by apply show_of_fields in Hof as [_ ?].
  - intros wis out v Hout Hv.
    destruct (fetched_venue _ _ _ _ Hout Hv) as (entry & Hof).
    by apply venue_of_fields in Hof as [? _].
  - intros wis out v Hout Hv.
    destruct (fetched_venue _ _ _ _ Hout Hv) as (entry & Hof).
    by apply venue_of_fields in Hof as [? _].
Qed.

(** X6. A restaurant or shop returned with status closed has neither an
    opening nor a closing time. *)
Theorem closed_venue_has_no_hours (type : string) (wis : result json)
    (out : list Venue.t) (v : Venue.t) :
  venues type wis = Ok out →
  v ∈ out →
  Venue.status v = VenueStatus.closed →
  Venue.opening_time v = None ∧ Venue.closing_time v = None.
Proof.
  intros Hout Hv Hclosed.
  destruct (fetched_venue _ _ _ _ Hout Hv) as (entry & Hof).
  apply venue_of_fields in Hof as [_ Hhours]. by apply Hhours.
Qed.

End Sorting.

(** Two show times that come latest first in the payload are returned
    earliest first. *)
Lemma show_times_ascending_witness :
  let early := Sample.show_time (Sample.park_time 2026 2 20 16 0 0)
                                (Sample.park_time 2026 2 20 16 15 0) in
  let late := Sample.show_time (Sample.park_time 2026 2 20 20 0 0)
                               (Sample.park_time 2026 2 20 20 15 0) in
  fetch_shows (Ok (Sample.wis [Sample.evening_first])) (Sample.park_time 2026 2 20 14 0 0)
  = Ok [Sample.aquanura [early; late]]
  ∧ StronglySorted (λ a b, sort_key (ShowTime.start_date_time a)
                           ≤ sort_key (ShowTime.start_date_time b)) [early; late].
Proof.
  intros early late.
  assert (fetch_shows (Ok (Sample.wis [Sample.evening_first]))
            (Sample.park_time 2026 2 20 14 0 0)
          = Ok [Sample.aquanura [early; late]]) as Hout by (vm_compute; reflexivity).
  split; [exact Hout|].
  apply (show_times_ascending _ _ _ (Sample.aquanura [early; late]) Hout
           (list_elem_of_here _ _)).
  left. by repeat constructor.
Defined.

(** A restaurant with an empty list of opening times is closed, without
    hours. *)
Lemma closed_venue_has_no_hours_witness :
  fetch_restaurants (Ok (Sample.wis [Sample.closed_venue])) = Ok [Sample.polles_keuken]
  ∧ Venue.opening_time Sample.polles_keuken = None
  ∧ Venue.closing_time Sample.polles_keuken = None.
Proof.
  assert (venues "Horeca" (Ok (Sample.wis [Sample.closed_venue]))
          = Ok [Sample.polles_keuken]) as Hout by (vm_compute; reflexivity).
  split; [exact Hout|].
  exact (closed_venue_has_no_hours _ _ _ _ Hout (list_elem_of_here _ _) eq_refl).
Defined.

End ShowsAndVenues.

(** * The response shared by the four fetches of a tick *)

Module SharedResponse.
Import Efteling LiveFetch.

Section Tick.
Context `{Runtime}.
Variable transport : nat → result json.
Variable t : nat → Z.
Variable clock : nat → datetime.
Variable now_park : datetime.

Lemma fetch_wis_fresh (self : EftelingConnector) (now : Z) (calls : nat) :
  cache_is_fresh self now = true →
  _fetch_wis transport now self calls = (Ok (_wis_cache self), self, calls).
Proof. unfold _fetch_wis. by intros ->. Qed.

Lemma fetch_wis_stale (self : EftelingConnector) (now : Z) (calls : nat) :
  cache_is_fresh self now = false →
  _fetch_wis transport now self calls
  = match transport calls with
    | Ok data =>
        (Ok data, {| _wis_cache := data; _wis_cache_time := Some now |}, S calls)
    | Raise e => (Raise e, self, S calls)
    end.
Proof. unfold _fetch_wis. by intros ->. Qed.

Lemma fresh_after_fetch (data : json) (t0 now : Z) :
  data ≠ JNull →
  now - t0 < WIS_CACHE_SECONDS * 1000000 →
  cache_is_fresh {| _wis_cache := data; _wis_cache_time := Some t0 |} now = true.
Proof.
  intros Hdata Hage. unfold cache_is_fresh. cbn [_wis_cache _wis_cache_time].
  destruct data; try done; by apply Z.ltb_lt.
Qed.

(** X7. A tick that finds the cache stale and whose GET succeeds issues that
    one GET only, when its later calls of [_fetch_wis] come less than 60
    seconds after the first: the four methods work on the same response,
    which is cached with the time of the first call.  A tick that finds the
    cache fresh in all four calls issues no GET at all. *)
Theorem one_request_per_tick (self : EftelingConnector) (calls : nat) :
  (∀ data,
     cache_is_fresh self (t 0) = false →
     transport calls = Ok data →
     (∀ i, (1 ≤ i ≤ 3)%nat → t i - t 0 < WIS_CACHE_SECONDS * 1000000) →
     live_fetches transport t clock now_park self calls
     = (fetched_from clock now_park (Ok data),
        {| _wis_cache := data; _wis_cache_time := Some (t 0) |}, S calls))
  ∧ ((∀ i, (i ≤ 3)%nat → cache_is_fresh self (t i) = true) →
     live_fetches transport t clock now_park self calls
     = (fetched_from clock now_park (Ok (_wis_cache self)), self, calls)).
Proof.
  split.
  - intros data Hstale Hget Hshort. unfold live_fetches, fetched_from.
    rewrite (fetch_wis_stale _ _ _ Hstale), Hget.
    assert (data = JNull ∨ data ≠ JNull) as [->|Hdata]
      by (destruct data; by (left + right)); [done|].
    destruct (fetch_wait_times (Ok data) clock) as [attractions|e]; [|done].
    cbn [mbind result_bind].
    rewrite (fetch_wis_fresh _ (t 1)) by (apply fresh_after_fetch; [done | apply Hshort; lia]).
    cbn [_wis_cache].
    destruct (fetch_shows (Ok data) now_park) as [shows|e]; [|done].
    cbn [mbind result_bind].
    rewrite (fetch_wis_fresh _ (t 2)) by (apply fresh_after_fetch; [done | apply Hshort; lia]).
    cbn [_wis_cache].
    destruct (fetch_restaurants (Ok data)) as [restaurants|e]; [|done].
    cbn [mbind result_bind].
    rewrite (fetch_wis_fresh _ (t 3)) by (apply fresh_after_fetch; [done | apply Hshort; lia]).
    cbn [_wis_cache].
    by destruct (fetch_shops (Ok data)) as [shops|e].
  - intros Hfresh. unfold live_fetches, fetched_from.
    rewrite (fetch_wis_fresh _ (t 0)) by (apply Hfresh; lia).
    destruct (fetch_wait_times _ clock) as [attractions|e]; [|done].
    cbn [mbind result_bind].
    rewrite (fetch_wis_fresh _ (t 1)) by (apply Hfresh; lia).
    destruct (fetch_shows _ now_park) as [shows|e]; [|done].
    cbn [mbind result_bind].
    rewrite (fetch_wis_fresh _ (t 2)) by (apply Hfresh; lia).
    destruct (fetch_restaurants _) as [restaurants|e]; [|done].
    cbn [mbind result_bind].
    rewrite (fetch_wis_fresh _ (t 3)) by (apply Hfresh; lia).
    by destruct (fetch_shops _) as [shops|e].
Qed.

(** X8. While the source is down and the cache is stale, a tick issues four
    GETs, one per method; every method swallows the failure and returns an
    empty list, and the connector keeps the cache it had. *)
Theorem outage_gives_empty_lists (self : EftelingConnector) (calls : nat) :
  (∀ i, (i ≤ 3)%nat → cache_is_fresh self (t i) = false) →
  (∀ i, (i ≤ 3)%nat → ∃ e, transport (calls + i)%nat = Raise e) →
  live_fetches transport t clock now_park self calls
  = (Ok ([], [], [], []), self, (calls + 4)%nat).
Proof.
  intros Hstale Hdown. unfold live_fetches.
  destruct (Hdown 0%nat ltac:(lia)) as [e0 H0]. rewrite Nat.add_0_r in H0.
  destruct (Hdown 1%nat ltac:(lia)) as [e1 H1].
  destruct (Hdown 2%nat ltac:(lia)) as [e2 H2].
  destruct (Hdown 3%nat ltac:(lia)) as [e3 H3].
  replace (calls + 1)%nat with (S calls) in H1 by lia.
  replace (calls + 2)%nat with (S (S calls)) in H2 by lia.
  replace (calls + 3)%nat with (S (S (S calls))) in H3 by lia.
  replace (calls + 4)%nat with (S (S (S (S calls)))) by lia.
  rewrite (fetch_wis_stale _ (t 0)), H0 by (apply Hstale; lia). cbn [fetch_wait_times].
  rewrite (fetch_wis_stale _ (t 1)), H1 by (apply Hstale; lia). cbn [fetch_shows].
  rewrite (fetch_wis_stale _ (t 2)), H2 by (apply Hstale; lia).
  unfold fetch_restaurants at 1. cbn [venues].
  rewrite (fetch_wis_stale _ (t 3)), H3 by (apply Hstale; lia).
  done.
Qed.

End Tick.

(** A connector with an empty cache: one GET serves the four methods of a
    tick that takes three seconds. *)
Lemma one_request_per_tick_witness :
  let data := Sample.wis [Sample.attraction_entry "bob" "inonderhoud" 25;
                          Sample.closed_venue] in
  let seconds := λ i : nat, Z.of_nat i * 1000000 in
  live_fetches (λ _, Ok data) seconds Sample.clock (Sample.park_time 2026 2 20 14 0 0)
    {| _wis_cache := JNull; _wis_cache_time := None |} 0
  = (Ok ([Sample.bob], [], [Sample.polles_keuken], []),
     {| _wis_cache := data; _wis_cache_time := Some 0 |}, 1%nat).
Proof.
  intros data seconds.
  apply (proj1 (one_request_per_tick (λ _, Ok data) seconds Sample.clock
                  (Sample.park_time 2026 2 20 14 0 0)
                  {| _wis_cache := JNull; _wis_cache_time := None |} 0) data);
    [reflexivity | reflexivity |].
  intros i Hi. unfold seconds, WIS_CACHE_SECONDS. lia.
Defined.

(** A source that answers every GET with an error. *)
Lemma outage_gives_empty_lists_witness :
  live_fetches (λ _, Raise HTTPError) (λ _, 0) Sample.clock
    (Sample.park_time 2026 2 20 14 0 0)
    {| _wis_cache := JNull; _wis_cache_time := None |} 0
  = (Ok ([], [], [], []), {| _wis_cache := JNull; _wis_cache_time := None |}, 4%nat).
Proof.
  apply (outage_gives_empty_lists (λ _, Raise HTTPError) (λ _, 0) Sample.clock
           (Sample.park_time 2026 2 20 14 0 0)
           {| _wis_cache := JNull; _wis_cache_time := None |} 0).
  - intros i _. reflexivity.
  - intros i _. by exists HTTPError.
Defined.

End SharedResponse.

(** * What a write leaves on disk *)

Module Snapshots.
Import Scheduler.

Lemma run_app (ops1 ops2 : list fs_op) (fs : gmap path string) :
  run (ops1 ++ ops2) fs = run ops2 (run ops1 fs).
Proof. unfold run. apply foldl_app. Qed.

Lemma run_writes_insert (p : path) (chunks : list string) (fs : gmap path string)
    (content : string) :
  run (Write p <$> chunks) (<[p := content]> fs)
  = <[p := foldl String.append content chunks]> fs.
Proof.
  unfold run. revert content.
  induction chunks as [|c chunks IH]; intros content; [done|].
  cbn [fmap list_fmap foldl fs_step]. by rewrite alter_insert_eq, IH.
Qed.

(** Only a rename takes a file away. *)
Lemma run_keeps (ops : list fs_op) (fs : gmap path string) (q : path) :
  Forall (λ op, ∀ src dst, op ≠ Rename src dst) ops →
  is_Some (fs !! q) → is_Some (run ops fs !! q).
Proof.
  unfold run. revert fs. induction ops as [|op ops IH]; intros fs Hops Hq; [done|].
  apply Forall_cons in Hops as [Hop Hops]. cbn [foldl]. apply IH; [done|].
  destruct op as [d|p|p c|p|src dst]; cbn [fs_step]; try done.
  - destruct (decide (p = q)) as [->|Hne].
    + rewrite lookup_insert_eq. eauto.
    + by rewrite lookup_insert_ne.
  - destruct (decide (p = q)) as [->|Hne].
    + rewrite lookup_alter_eq. destruct Hq as [x ->]. cbn. eauto.
    + by rewrite lookup_alter_ne.
  - by destruct (Hop src dst).
Qed.

Section Writer.
Variable DATA_DIR : path.
Variable disk_fault : path → option nat.

Local Abbreviation write := (_write_json DATA_DIR disk_fault).
Local Abbreviation tmp := (tmp_path DATA_DIR).
Local Abbreviation final := (final_path DATA_DIR).

Lemma run_staging_insert park_id filename chunks fs :
  run (staging DATA_DIR park_id filename chunks) fs
  = <[tmp park_id filename := document chunks]> fs.
Proof.
  unfold staging. rewrite !run_app. unfold run at 2 3. cbn [foldl fs_step].
  apply run_writes_insert.
Qed.

Lemma run_write_ops_insert park_id filename chunks fs :
  run (write_ops DATA_DIR park_id filename chunks) fs
  = <[final park_id filename := document chunks]> (delete (tmp park_id filename) fs).
Proof.
  rewrite SnapshotWriter.write_ops_staging, run_app, run_staging_insert.
  unfold run. cbn [foldl fs_step]. by rewrite lookup_insert_eq, delete_insert_eq.
Qed.

Lemma write_returned park_id filename chunks fs :
  (write park_id filename chunks fs).1 = Ok () →
  (write park_id filename chunks fs).2
  = run (write_ops DATA_DIR park_id filename chunks) fs.
Proof.
  unfold _write_json. destruct (disk_fault _) as [n|]; [|done].
  by case_bool_decide.
Qed.

Lemma write_raised park_id filename chunks fs e :
  (write park_id filename chunks fs).1 = Raise e →
  e = OSError
  ∧ ∃ n, disk_fault (final park_id filename) = Some n
         ∧ (n < length (write_ops DATA_DIR park_id filename chunks))%nat
         ∧ (write park_id filename chunks fs).2
           = run (take n (write_ops DATA_DIR park_id filename chunks)) fs.
Proof.
  unfold _write_json. destruct (disk_fault _) as [n|]; [|done].
  case_bool_decide; [|done]. intros [= <-]. eauto.
Qed.

(** X9. A write that returns leaves the complete document at the final
    path and no temporary file; every other file is as before. *)
Theorem completed_write_effect park_id filename chunks fs :
  (_write_json DATA_DIR disk_fault park_id filename chunks fs).1 = Ok () →
  (_write_json DATA_DIR disk_fault park_id filename chunks fs).2
  = <[final_path DATA_DIR park_id filename := document chunks]>
      (delete (tmp_path DATA_DIR park_id filename) fs)
  ∧ (_write_json DATA_DIR disk_fault park_id filename chunks fs).2
      !! tmp_path DATA_DIR park_id filename = None.
Proof.
  intros Hok. rewrite (write_returned _ _ _ _ Hok), run_write_ops_insert.
  split; [done|].
  rewrite lookup_insert_ne by (intros Heq; symmetry in Heq;
                                by eapply SnapshotWriter.tmp_is_not_final).
  apply lookup_delete_eq.
Qed.

(** X10. Of two writes of the same file that return, the later one decides:
    the files are as if only the later write had taken place. *)
Theorem last_write_wins park_id filename chunks chunks' fs :
  (_write_json DATA_DIR disk_fault park_id filename chunks fs).1 = Ok () →
  (_write_json DATA_DIR disk_fault park_id filename chunks' fs).1 = Ok () →
  (_write_json DATA_DIR disk_fault park_id filename chunks'
     (_write_json DATA_DIR disk_fault park_id filename chunks fs).2).2
  = (_write_json DATA_DIR disk_fault park_id filename chunks' fs).2.
Proof.
  intros Hfirst Hsecond.
  assert ((write park_id filename chunks' (write park_id filename chunks fs).2).1 = Ok ())
    as Hthen.
  { rewrite <- Hsecond. unfold _write_json.
    destruct (disk_fault _) as [n|]; [|done]. by case_bool_decide. }
  rewrite (write_returned _ _ _ _ Hthen), (write_returned _ _ _ _ Hsecond),
    (write_returned _ _ _ _ Hfirst), !run_write_ops_insert.
  rewrite delete_insert_ne by apply SnapshotWriter.tmp_is_not_final.
  by rewrite delete_delete_eq, insert_insert_eq.
Qed.

(** X11. A write that raises raises OSError and changes no file but the
    temporary one; when the failing operation comes after the [open], the
    temporary file is left behind. *)
Theorem failed_write_effect park_id filename chunks fs e :
  (_write_json DATA_DIR disk_fault park_id filename chunks fs).1 = Raise e →
  e = OSError
  ∧ (∀ q, q ≠ tmp_path DATA_DIR park_id filename →
          (_write_json DATA_DIR disk_fault park_id filename chunks fs).2 !! q = fs !! q)
  ∧ (∀ n, disk_fault (final_path DATA_DIR park_id filename) = Some n → (2 ≤ n)%nat →
          is_Some ((_write_json DATA_DIR disk_fault park_id filename chunks fs).2
                     !! tmp_path DATA_DIR park_id filename)).
Proof.
  intros Hraise.
  destruct (write_raised _ _ _ _ _ Hraise) as (-> & n & Hfault & Hn & Hfs).
  split; [done|]. rewrite Hfs. split.
  - intros q Hq. destruct (decide (q = final park_id filename)) as [->|Hfinal].
    + by apply SnapshotWriter.run_before_rename.
    + apply SnapshotWriter.run_other, Forall_take.
      by apply SnapshotWriter.write_ops_targets.
  - intros n' Hn' Hopen. rewrite Hfault in Hn'. injection Hn' as <-.
    rewrite SnapshotWriter.write_ops_staging in *.
    rewrite length_app in Hn. cbn [length] in Hn.
    rewrite take_app_le by lia. unfold staging.
    rewrite take_app_ge by (cbn [length]; lia). cbn [length].
    rewrite run_app. unfold run at 2. cbn [foldl fs_step].
    apply run_keeps; [|rewrite lookup_insert_eq; eauto].
    apply Forall_take, Forall_app. split.
    + apply Forall_fmap, Forall_forall. by intros c _ src dst.
    + apply Forall_singleton. by intros src dst.
Qed.

End Writer.

Lemma completed_write_effect_witness :
  (_write_json Sample.DATA_DIR Sample.no_fault "efteling" "live.json" ["{"; "}"]
     {[ ["data"; "efteling"; "live.json"] := "old";
        ["data"; "efteling"; "live.json.tmp"] := "stale" ]}).2
  = {[ ["data"; "efteling"; "live.json"] := "{}" ]}.
Proof.
  rewrite (proj1 (completed_write_effect Sample.DATA_DIR Sample.no_fault
                    "efteling" "live.json" ["{"; "}"] _ eq_refl)).
  apply map_eq. intros q. by vm_compute.
Defined.

Lemma last_write_wins_witness :
  (_write_json Sample.DATA_DIR Sample.no_fault "efteling" "live.json" ["new"]
     (_write_json Sample.DATA_DIR Sample.no_fault "efteling" "live.json" ["old"] ∅).2).2
    !! ["data"; "efteling"; "live.json"]
  = Some "new".
Proof.
  rewrite (last_write_wins Sample.DATA_DIR Sample.no_fault "efteling" "live.json"
             ["old"] ["new"] ∅ eq_refl eq_refl).
  by vm_compute.
Defined.

(** The second [write] of the document fails: the snapshot is the old one
    and the temporary file stays. *)
Lemma failed_write_effect_witness :
  let fs : gmap path string := {[ ["data"; "efteling"; "live.json"] := "old" ]} in
  let out := _write_json Sample.DATA_DIR (λ _, Some 3%nat) "efteling" "live.json"
               ["{"; "}"] fs in
  out.1 = Raise OSError
  ∧ out.2 !! ["data"; "efteling"; "live.json"] = Some "old"
  ∧ is_Some (out.2 !! ["data"; "efteling"; "live.json.tmp"]).
Proof.
  intros fs out.
  destruct (failed_write_effect Sample.DATA_DIR (λ _, Some 3%nat) "efteling" "live.json"
              ["{"; "}"] fs OSError eq_refl) as (_ & Hother & Hleft).
  split; [reflexivity|]. split.
  - unfold out. rewrite Hother by discriminate. by vm_compute.
  - apply (Hleft 3%nat eq_refl). lia.
Defined.

End Snapshots.

(** * What a tick leaves behind when something fails *)

Module Failures.
Import Scheduler.

Section Loop.
Context {Calendar : Type}.
Variable DATA_DIR : path.
Variable filename : string.
Variable step : string → Connector Calendar → World → result unit * World.
Variable record : string → exn → LogRecord.
Variable job : list (string * Connector Calendar) → World → World.
Implicit Types (connector : Connector Calendar) (w : World).
Implicit Types (PARKS : list (string * Connector Calendar)).

Hypothesis job_nil : ∀ w, job [] w = w.
Hypothesis job_cons : ∀ park_id connector PARKS w,
  job ((park_id, connector) :: PARKS) w
  = job PARKS (after_step record park_id (step park_id connector w).1
                                         (step park_id connector w).2).
Hypothesis step_files_other : ∀ park_id connector w (q : path),
  q ≠ tmp_path DATA_DIR park_id filename →
  q ≠ final_path DATA_DIR park_id filename →
  files (step park_id connector w).2 !! q = files w !! q.
Hypothesis step_outcome : ∀ park_id connector w w',
  (step park_id connector w).1 = (step park_id connector w').1.
Hypothesis step_raise_keeps : ∀ park_id connector w e,
  (step park_id connector w).1 = Raise e →
  files (step park_id connector w).2 !! final_path DATA_DIR park_id filename
  = files w !! final_path DATA_DIR park_id filename.

Lemma other_park_paths (park_id park_id' : string) :
  park_id ≠ park_id' →
  final_path DATA_DIR park_id filename ≠ tmp_path DATA_DIR park_id' filename
  ∧ final_path DATA_DIR park_id filename ≠ final_path DATA_DIR park_id' filename.
Proof.
  intros Hne. split.
  - intros Heq. symmetry in Heq. by eapply SnapshotWriter.tmp_is_not_final.
  - by intros Heq%SnapshotWriter.final_path_inj.
Qed.

(** The final path of a park whose step raises holds after the job what it
    held before. *)
Lemma job_kept PARKS w park_id connector (e : exn) :
  NoDup PARKS.*1 →
  (park_id, connector) ∈ PARKS →
  (step park_id connector w).1 = Raise e →
  files (job PARKS w) !! final_path DATA_DIR park_id filename
  = files w !! final_path DATA_DIR park_id filename.
Proof.
  intros Hnodup Hin. revert w. induction PARKS as [|[p c] PARKS IH]; intros w Hraise.
  { by apply elem_of_nil in Hin. }
  cbn [fmap list_fmap] in Hnodup. apply NoDup_cons in Hnodup as [Hp Hnodup].
  rewrite job_cons. apply elem_of_cons in Hin as [[= <- <-]|Hin].
  - rewrite (Tick.job_files_other DATA_DIR filename step record job job_nil job_cons
               step_files_other).
    + rewrite Tick.after_step_files. by eapply step_raise_keeps.
    + intros p' Hp'. apply other_park_paths. by intros ->.
  - rewrite IH; [|done|done|by rewrite <- Hraise; apply step_outcome].
    rewrite Tick.after_step_files.
    apply step_files_other; apply other_park_paths; intros ->; apply Hp;
      apply list_elem_of_fmap; by exists (p, connector).
Qed.

End Loop.

Section Jobs.
Context {Calendar : Type}.
Variable DATA_DIR : path.
Variable dump_live : LiveData → list string.
Variable dump_calendar : Calendar → list string.
Variable insert_many : list Doc → list Doc → list Doc * option exn.
Variable clock : string → Z.
Variable disk_fault : path → option nat.

Local Abbreviation live_step :=
  (_fetch_park_live DATA_DIR dump_live insert_many clock disk_fault).
Local Abbreviation live_job :=
  (fetch_all_live DATA_DIR dump_live insert_many clock disk_fault).
Local Abbreviation calendar_step := (fetch_park_calendar DATA_DIR dump_calendar disk_fault).
Local Abbreviation calendar_job := (fetch_all_calendars DATA_DIR dump_calendar disk_fault).
Implicit Types (connector : Connector Calendar) (w : World).
Implicit Types (PARKS : list (string * Connector Calendar)).

Lemma write_raise_keeps park_id filename chunks fs e :
  (_write_json DATA_DIR disk_fault park_id filename chunks fs).1 = Raise e →
  (_write_json DATA_DIR disk_fault park_id filename chunks fs).2
    !! final_path DATA_DIR park_id filename
  = fs !! final_path DATA_DIR park_id filename.
Proof.
  intros Hraise.
  destruct (Snapshots.write_raised _ _ _ _ _ _ _ Hraise) as (_ & n & _ & Hn & ->).
  by apply SnapshotWriter.run_before_rename.
Qed.

Lemma live_step_raise_keeps park_id connector w e :
  (live_step park_id connector w).1 = Raise e →
  files (live_step park_id connector w).2 !! final_path DATA_DIR park_id "live.json"
  = files w !! final_path DATA_DIR park_id "live.json".
Proof.
  unfold _fetch_park_live.
  destruct (fetch_wait_times connector); [|done].
  destruct (fetch_shows connector); [|done].
  destruct (fetch_restaurants connector); [|done].
  destruct (fetch_shops connector); [|done].
  destruct (_write_json _ _ _ _ _ _) as [r fs] eqn:Hw. cbn [fst snd files].
  intros ->. replace fs with (Raise e : result unit, fs).2 by done. rewrite <- Hw.
  rewrite (write_raise_keeps _ _ _ _ e) by (by rewrite Hw).
  by rewrite Tick.store_history_files.
Qed.

Lemma calendar_step_raise_keeps park_id connector w e :
  (calendar_step park_id connector w).1 = Raise e →
  files (calendar_step park_id connector w).2
    !! final_path DATA_DIR park_id "calendar.json"
  = files w !! final_path DATA_DIR park_id "calendar.json".
Proof.
  unfold fetch_park_calendar.
  destruct (fetch_calendar connector); [|done].
  destruct (_write_json _ _ _ _ _ _) as [r fs] eqn:Hw. cbn [fst snd files].
  intros ->. replace fs with (Raise e : result unit, fs).2 by done. rewrite <- Hw.
  by rewrite (write_raise_keeps _ _ _ _ e) by (by rewrite Hw).
Qed.

(** X12. In a tick over parks with distinct identifiers, a park whose step
    raises (in a fetch or in the write) keeps the snapshot it had before the
    tick: its live.json, and in the calendar job its calendar.json, is
    neither removed nor replaced. *)
Theorem failed_park_keeps_snapshot (PARKS : list (string * Connector Calendar))
    (w : World) :
  NoDup PARKS.*1 →
  (∀ park_id connector e,
     (park_id, connector) ∈ PARKS →
     (live_step park_id connector w).1 = Raise e →
     files (live_job PARKS w) !! final_path DATA_DIR park_id "live.json"
     = files w !! final_path DATA_DIR park_id "live.json")
  ∧ (∀ park_id connector e,
       (park_id, connector) ∈ PARKS →
       (calendar_step park_id connector w).1 = Raise e →
       files (calendar_job PARKS w) !! final_path DATA_DIR park_id "calendar.json"
       = files w !! final_path DATA_DIR park_id "calendar.json").
Proof.
  intros Hnodup. split.
  - intros park_id connector e Hin Hraise.
    exact (job_kept DATA_DIR "live.json" live_step UnhandledError live_job
             (λ _, eq_refl)
             (Tick.live_job_cons DATA_DIR dump_live insert_many clock disk_fault)
             (Tick.live_step_files_other DATA_DIR dump_live insert_many clock disk_fault)
             (Tick.live_step_outcome DATA_DIR dump_live insert_many clock disk_fault)
             live_step_raise_keeps PARKS w park_id connector e Hnodup Hin Hraise).
  - intros park_id connector e Hin Hraise.
    exact (job_kept DATA_DIR "calendar.json" calendar_step CalendarError calendar_job
             (λ _, eq_refl)
             (Tick.calendar_job_cons DATA_DIR dump_calendar disk_fault)
             (Tick.calendar_step_files_other DATA_DIR dump_calendar disk_fault)
             (Tick.calendar_step_outcome DATA_DIR dump_calendar disk_fault)
             calendar_step_raise_keeps PARKS w park_id connector e Hnodup Hin Hraise).
Qed.

(** X13. A step whose four fetches return and whose write meets no fault
    returns normally and writes the snapshot whatever the history store
    does.  [insert_many] is not called for an empty list of attractions or
    without a database; otherwise it is called once, with one document per
    attraction, and an exception it raises is logged as a failed insert and
    goes no further. *)
Theorem history_is_best_effort park_id connector w attractions shows restaurants shops :
  fetch_wait_times connector = Ok attractions →
  fetch_shows connector = Ok shows →
  fetch_restaurants connector = Ok restaurants →
  fetch_shops connector = Ok shops →
  disk_fault (final_path DATA_DIR park_id "live.json") = None →
  (live_step park_id connector w).1 = Ok ()
  ∧ files (live_step park_id connector w).2 !! final_path DATA_DIR park_id "live.json"
    = Some (document (dump_live (live_data_of park_id connector (clock park_id)
                                   attractions shows restaurants shops)))
  ∧ (attractions = [] ∨ db w = None →
     db (live_step park_id connector w).2 = db w
     ∧ log (live_step park_id connector w).2 = log w)
  ∧ (∀ collection,
       attractions ≠ [] → db w = Some collection →
       let docs := doc_of park_id (clock park_id) <$> attractions in
       length docs = length attractions
       ∧ db (live_step park_id connector w).2 = Some (insert_many docs collection).1
       ∧ log (live_step park_id connector w).2
         = log w ++ match (insert_many docs collection).2 with
                    | Some e => [InsertFailed park_id e]
                    | None => []
                    end).
Proof.
  intros Ha Hs Hr Hsh Hdisk. split; [|split; [by apply Tick.live_step_writes|]].
  - unfold _fetch_park_live, _write_json. by rewrite Ha, Hs, Hr, Hsh, Hdisk.
  - unfold _fetch_park_live, _write_json. rewrite Ha, Hs, Hr, Hsh, Hdisk.
    cbn [snd db log]. unfold store_history. split.
    + intros [->|Hdb]; [done|]. rewrite Hdb. by destruct attractions.
    + intros collection Hne Hdb. split; [apply length_fmap|].
      rewrite Hdb. destruct attractions as [|a l]; [done|].
      destruct (insert_many _ collection) as [c [e|]]; cbn;
        by rewrite ?app_nil_r.
Qed.

End Jobs.

(** The first park's step raises in [fetch_shows]: the live.json it had
    before the tick is still there. *)
Lemma failed_park_keeps_snapshot_witness :
  let w := {| files := {[ ["data"; "efteling"; "live.json"] := "old" ]};
              db := Some []; log := [] |} in
  files (fetch_all_live Sample.DATA_DIR Sample.dump_live Sample.insert_many
           Sample.utc_clock Sample.no_fault Sample.PARKS w)
    !! ["data"; "efteling"; "live.json"]
  = Some "old".
Proof.
  intros w.
  assert (NoDup Sample.PARKS.*1) as Hnodup.
  { apply NoDup_cons. split.
    - intros [[=]|Hin%elem_of_nil]%elem_of_cons. exact Hin.
    - apply NoDup_singleton. }
  transitivity (files w !! ["data"; "efteling"; "live.json"]); [|by vm_compute].
  exact (proj1 (failed_park_keeps_snapshot Sample.DATA_DIR Sample.dump_live
                  (λ _ : unit, []) Sample.insert_many Sample.utc_clock
                  Sample.no_fault Sample.PARKS w Hnodup)
           "efteling" Sample.failing AttributeError
           (list_elem_of_here _ _) eq_refl).
Defined.

(** The insert raises: the step returns, the failure is logged and the
    snapshot is written. *)
Lemma history_is_best_effort_witness :
  let connector : Connector unit :=
    {| park_name := "Efteling";
       fetch_wait_times := Ok [Sample.dreamflight];
       fetch_shows := Ok [];
       fetch_restaurants := Ok [];
       fetch_shops := Ok [];
       fetch_calendar := Ok () |} in
  let out := _fetch_park_live Sample.DATA_DIR Sample.dump_live
               (λ docs collection, (collection, Some OSError))
               Sample.utc_clock Sample.no_fault "efteling" connector
               Sample.empty_world in
  out.1 = Ok ()
  ∧ files out.2 !! ["data"; "efteling"; "live.json"] = Some "{efteling:open}"
  ∧ log out.2 = [InsertFailed "efteling" OSError].
Proof.
  intros connector out.
  destruct (history_is_best_effort Sample.DATA_DIR Sample.dump_live
              (λ docs collection, (collection, Some OSError))
              Sample.utc_clock Sample.no_fault "efteling" connector
              Sample.empty_world [Sample.dreamflight] [] [] []
              eq_refl eq_refl eq_refl eq_refl eq_refl)
    as (Hok & Hwritten & _ & Hstore).
  split; [exact Hok|]. split; [exact Hwritten|].
  exact (proj2 (proj2 (Hstore [] ltac:(discriminate) eq_refl))).
Defined.

End Failures.

(** * Serving the snapshots *)

Module Serving.
Import Scheduler DataLoader.

Lemma first_segment_rstrip (park_id rest : string) :
  "/"%char ∉ String.list_ascii_of_string park_id →
  rest = "" ∨ (∃ r, rest = String "/" r) →
  first_segment (rstrip_slashes (park_id +:+ rest)) = park_id.
Proof.
  intros Hslash Hrest. induction park_id as [|c p IH].
  - destruct Hrest as [->|[r ->]]; [done|].
    change (first_segment (rstrip_slashes (String "/" r)) = "").
    cbn [rstrip_slashes]. by destruct (rstrip_slashes r).
  - cbn [String.list_ascii_of_string] in Hslash.
    apply not_elem_of_cons in Hslash as [Hc Hp].
    assert (Ascii.eqb c "/" = false) as Hne
      by (apply Ascii.eqb_neq; by intros ->).
    change (String c p +:+ rest) with (String c (p +:+ rest)).
    cbn [rstrip_slashes]. specialize (IH Hp).
    destruct (rstrip_slashes (p +:+ rest)) as [|c' t].
    + rewrite Hne. cbn [first_segment] in *. by rewrite Hne, <- IH.
    + cbn [first_segment] in *. by rewrite Hne, IH.
Qed.

(** X14. On a path under the prefix of a park, with or without further
    segments, [get_park_id] recovers the park: it returns the first segment
    when that is a supported park and raises 404 otherwise. *)
Theorem routed_requests (park_id rest : string) :
  park_id ≠ "" →
  "/"%char ∉ String.list_ascii_of_string park_id →
  rest = "" ∨ (∃ r, rest = String "/" r) →
  get_park_id ("/" +:+ park_id +:+ rest)
  = if bool_decide (park_id ∈ SUPPORTED_PARKS) then Return park_id
    else HTTPException 404.
Proof.
  intros Hne Hslash Hrest. unfold get_park_id.
  replace (lstrip_slashes ("/" +:+ park_id +:+ rest)) with (park_id +:+ rest).
  - by rewrite first_segment_rstrip.
  - destruct park_id as [|c p]; [done|].
    cbn [String.list_ascii_of_string] in Hslash.
    apply not_elem_of_cons in Hslash as [Hc _].
    change ("/" +:+ String c p +:+ rest) with (String "/" (String c (p +:+ rest))).
    change (String c p +:+ rest) with (String c (p +:+ rest)).
    cbn [lstrip_slashes]. rewrite Ascii.eqb_refl.
    destruct (Ascii.eqb_spec c "/"); [by subst|done].
Qed.

Lemma routed_requests_witness :
  get_park_id "/efteling/rides" = Return "efteling"
  ∧ get_park_id "/tivoli/rides" = HTTPException 404.
Proof.
  split.
  - apply (routed_requests "efteling" "/rides"); [done| |right; by eexists].
    apply (bool_decide_unpack _). by vm_compute.
  - apply (routed_requests "tivoli" "/rides"); [done| |right; by eexists].
    apply (bool_decide_unpack _). by vm_compute.
Defined.

Section Reader.
Variable DATA_DIR RIDE_INFO_DIR : path.
Variable json_load : string → result json.
Variable disk_fault : path → option nat.

Lemma snapshot_path (park_id filename : string) :
  DATA_DIR ++ [park_id; filename] = final_path DATA_DIR park_id filename.
Proof. unfold final_path, park_dir. by rewrite <- app_assoc. Qed.

(** X15. A request that reads a snapshot while [_write_json] writes it gets
    the previous answer or the complete new document, whichever operation
    the write has reached: never a part of a document, and never 503 once a
    snapshot exists.  After a write that returned it gets the new
    document. *)
Theorem reader_sees_whole_snapshots (park_id : string) (chunks : list string)
    (fs : gmap path string) :
  (∀ n : nat,
     let during := run (take n (write_ops DATA_DIR park_id "live.json" chunks)) fs in
     (load_live_json DATA_DIR json_load during park_id
      = load_live_json DATA_DIR json_load fs park_id
      ∨ load_live_json DATA_DIR json_load during park_id
        = read_json json_load (document chunks))
     ∧ (load_live_json DATA_DIR json_load fs park_id ≠ HTTPException 503 →
        load_live_json DATA_DIR json_load during park_id ≠ HTTPException 503))
  ∧ (∀ n : nat,
       let during := run (take n (write_ops DATA_DIR park_id "calendar.json" chunks)) fs in
       (load_calendar_json DATA_DIR json_load during park_id
        = load_calendar_json DATA_DIR json_load fs park_id
        ∨ load_calendar_json DATA_DIR json_load during park_id
          = read_json json_load (document chunks))
       ∧ (load_calendar_json DATA_DIR json_load fs park_id ≠ HTTPException 503 →
          load_calendar_json DATA_DIR json_load during park_id ≠ HTTPException 503))
  ∧ ((_write_json DATA_DIR disk_fault park_id "live.json" chunks fs).1 = Ok () →
     load_live_json DATA_DIR json_load
       (_write_json DATA_DIR disk_fault park_id "live.json" chunks fs).2 park_id
     = read_json json_load (document chunks))
  ∧ ((_write_json DATA_DIR disk_fault park_id "calendar.json" chunks fs).1 = Ok () →
     load_calendar_json DATA_DIR json_load
       (_write_json DATA_DIR disk_fault park_id "calendar.json" chunks fs).2 park_id
     = read_json json_load (document chunks)).
Proof.
  assert (∀ filename (n : nat),
            run (take n (write_ops DATA_DIR park_id filename chunks)) fs
              !! (DATA_DIR ++ [park_id; filename])
            = fs !! (DATA_DIR ++ [park_id; filename])
            ∨ run (take n (write_ops DATA_DIR park_id filename chunks)) fs
                !! (DATA_DIR ++ [park_id; filename])
              = Some (document chunks)) as Hduring.
  { intros filename n. rewrite snapshot_path.
    destruct (decide (n < length (write_ops DATA_DIR park_id filename chunks))%nat).
    - left. by apply SnapshotWriter.run_before_rename.
    - right. rewrite take_ge by lia. apply SnapshotWriter.run_write_ops. }
  assert (∀ content, read_json json_load content ≠ HTTPException 503) as Hread.
  { intros content. unfold read_json. by destruct (json_load content). }
  assert (∀ filename,
            (_write_json DATA_DIR disk_fault park_id filename chunks fs).1 = Ok () →
            (_write_json DATA_DIR disk_fault park_id filename chunks fs).2
              !! (DATA_DIR ++ [park_id; filename])
            = Some (document chunks)) as Hafter.
  { intros filename Hok. rewrite (Snapshots.write_returned _ _ _ _ _ _ Hok), snapshot_path.
    apply SnapshotWriter.run_write_ops. }
  split; [|split; [|split]].
  - intros n during. subst during. unfold load_live_json.
    destruct (Hduring "live.json" n) as [-> | ->]; [|split; [by right | by intros _]].
    split; [by left | done].
  - intros n during. subst during. unfold load_calendar_json.
    destruct (Hduring "calendar.json" n) as [-> | ->]; [|split; [by right | by intros _]].
    split; [by left | done].
  - intros Hok. unfold load_live_json. by rewrite (Hafter _ Hok).
  - intros Hok. unfold load_calendar_json. by rewrite (Hafter _ Hok).
Qed.

End Reader.
End Serving.

(** * The registry, the scheduler and the loader together *)

Module Registered.
Import Scheduler DataLoader Parks.

Section Api.
Variable DATA_DIR : path.
Variable dump_live : LiveData → list string.
Variable insert_many : list Doc → list Doc → list Doc * option exn.
Variable clock : string → Z.
Variable disk_fault : path → option nat.
Variable json_load : string → result json.

(** The snapshot of a park without attractions, shows, restaurants and
    shops. *)
Local Abbreviation empty_snapshot park_id name :=
  {| park_id := park_id; live_park_name := name; last_updated := clock park_id;
     park_status := "unknown"; attractions := []; shows := [];
     restaurants := []; shops := [] |}.

Lemma registry_NoDup efteling now : NoDup (PARKS efteling now).*1.
Proof. apply (bool_decide_unpack _). by vm_compute. Qed.

Lemma placeholder_served efteling now w park_id name :
  (park_id, _PlaceholderConnector park_id name now) ∈ PARKS efteling now →
  disk_fault (final_path DATA_DIR park_id "live.json") = None →
  load_live_json DATA_DIR json_load
    (files (fetch_all_live DATA_DIR dump_live insert_many clock disk_fault
              (PARKS efteling now) w)) park_id
  = read_json json_load (document (dump_live (empty_snapshot park_id name))).
Proof.
  intros Hin Hdisk. unfold load_live_json. rewrite Serving.snapshot_path.
  rewrite (Tick.job_written DATA_DIR "live.json"
             (_fetch_park_live DATA_DIR dump_live insert_many clock disk_fault)
             UnhandledError
             (fetch_all_live DATA_DIR dump_live insert_many clock disk_fault)
             (λ _, eq_refl)
             (Tick.live_job_cons DATA_DIR dump_live insert_many clock disk_fault)
             (Tick.live_step_files_other DATA_DIR dump_live insert_many clock disk_fault)
             (PARKS efteling now) w park_id (_PlaceholderConnector park_id name now)
             (document (dump_live (empty_snapshot park_id name)))
             (registry_NoDup efteling now) Hin); [done|].
  intros w'.
  exact (Tick.live_step_writes DATA_DIR dump_live insert_many clock disk_fault park_id
           (_PlaceholderConnector park_id name now) w' [] [] [] []
           eq_refl eq_refl eq_refl eq_refl Hdisk).
Qed.

(** X16. The registry holds a connector for exactly the parks the API
    serves.  After a live tick over the registry, whatever the Efteling
    connector returns or raises, every other supported park whose write met
    no fault is served: [load_live_json] does not raise 503 but reads the
    snapshot of its placeholder connector, with park status "unknown" and
    four empty lists. *)
Theorem placeholder_parks_are_served efteling now w park_id :
  park_id ∈ SUPPORTED_PARKS →
  park_id ≠ "efteling" →
  disk_fault (final_path DATA_DIR park_id "live.json") = None →
  (PARKS efteling now).*1 = SUPPORTED_PARKS
  ∧ ∃ name,
      get_park efteling now park_id = Some (_PlaceholderConnector park_id name now)
      ∧ load_live_json DATA_DIR json_load
          (files (fetch_all_live DATA_DIR dump_live insert_many clock disk_fault
                    (PARKS efteling now) w)) park_id
        = read_json json_load (document (dump_live (empty_snapshot park_id name))).
Proof.
  intros Hin Hne Hdisk. split; [done|]. unfold SUPPORTED_PARKS in Hin.
  apply elem_of_cons in Hin as [->|Hin]; [done|].
  apply elem_of_cons in Hin as [->|Hin].
  { exists "Disneyland Paris". split; [done|]. apply placeholder_served; [|done].
    apply list_elem_of_further, list_elem_of_here. }
  apply elem_of_cons in Hin as [->|Hin].
  { exists "Europa-Park". split; [done|]. apply placeholder_served; [|done].
    do 2 apply list_elem_of_further. apply list_elem_of_here. }
  apply elem_of_cons in Hin as [->|Hin%elem_of_nil]; [|done].
  exists "Phantasialand". split; [done|]. apply placeholder_served; [|done].
  do 3 apply list_elem_of_further. apply list_elem_of_here.
Qed.

End Api.

(** The Efteling connector raises in every fetch; Europa-Park is served. *)
Lemma placeholder_parks_are_served_witness :
  let efteling : Connector ParkCalendar.t :=
    {| park_name := "Efteling";
       fetch_wait_times := Raise KeyError;
       fetch_shows := Raise AttributeError;
       fetch_restaurants := Raise AttributeError;
       fetch_shops := Raise AttributeError;
       fetch_calendar := Raise OverflowError |} in
  load_live_json Sample.DATA_DIR (λ content, Ok (JStr content))
    (files (fetch_all_live Sample.DATA_DIR Sample.dump_live Sample.insert_many
              Sample.utc_clock Sample.no_fault (PARKS efteling 0) Sample.empty_world))
    "europapark"
  = Return (JStr "{europapark:unknown}").
Proof.
  intros efteling.
  destruct (placeholder_parks_are_served Sample.DATA_DIR Sample.dump_live
              Sample.insert_many Sample.utc_clock Sample.no_fault
              (λ content, Ok (JStr content)) efteling 0 Sample.empty_world "europapark")
    as (_ & name & Hpark & Hserved).
  - do 2 apply list_elem_of_further. apply list_elem_of_here.
  - discriminate.
  - reflexivity.
  - injection Hpark as <-. exact Hserved.
Defined.

End Registered.

(** * Looking up one ride *)

Module RideInfo.
Import Scheduler DataLoader Routers.

Lemma py_eq_str_true (v : json) (s : string) : py_eq_str v s = true ↔ v = JStr s.
Proof.
  destruct v; cbn; try (split; [discriminate|done]).
  rewrite String.eqb_eq. split; [by intros -> | by intros [= ->]].
Qed.

Lemma py_eq_str_false (v : json) (s : string) : py_eq_str v s = false ↔ v ≠ JStr s.
Proof.
  rewrite <- py_eq_str_true. by destruct (py_eq_str v s).
Qed.

Lemma first_with_id_found (ride_id : string) (items : list json) (ride : json) :
  first_with_id ride_id items = Ok ride →
  truthy ride = true →
  ride ∈ items ∧ py_getitem ride "id" = Ok (JStr ride_id).
Proof.
  induction items as [|a items IH]; cbn [first_with_id]; intros Hfound Htruthy.
  { injection Hfound as <-. discriminate. }
  apply bind_Ok in Hfound as (id & Hid & Hfound).
  destruct (py_eq_str id ride_id) eqn:Heq.
  - injection Hfound as <-. apply py_eq_str_true in Heq as ->.
    split; [apply list_elem_of_here | done].
  - destruct (IH Hfound Htruthy) as [Hin Hride].
    split; [by apply list_elem_of_further | done].
Qed.

Lemma first_with_id_skip (ride_id : string) (before rest : list json) :
  (∀ a, a ∈ before → ∃ id, py_getitem a "id" = Ok id ∧ id ≠ JStr ride_id) →
  first_with_id ride_id (before ++ rest) = first_with_id ride_id rest.
Proof.
  induction before as [|a before IH]; intros Hother; [done|].
  cbn [app first_with_id].
  destruct (Hother a (list_elem_of_here _ _)) as (id & -> & Hne%py_eq_str_false).
  cbn [mbind result_bind]. rewrite Hne. apply IH.
  intros a' Ha'. by apply Hother, list_elem_of_further.
Qed.

Section Handlers.
Variable RIDE_INFO_DIR : path.
Variable json_load : string → result json.

(** X17. [get_single_ride_info] never returns a ride with another
    identifier: what it returns is an entry of the park's [attractions]
    whose "id" equals the requested one.  When every entry before the first
    such entry has an "id", that first entry is returned, whatever comes
    after it; when every entry has an "id" and none equals the request, the
    answer is 404. *)
Theorem single_ride_lookup (fs : gmap path string) (url_path ride_id : string) :
  (∀ ride,
     get_single_ride_info RIDE_INFO_DIR json_load fs url_path ride_id = Return ride →
     py_getitem ride "id" = Ok (JStr ride_id))
  ∧ (∀ park_id data before ride after,
       get_park_id url_path = Return park_id →
       load_ride_info RIDE_INFO_DIR json_load fs park_id = Return data →
       py_get data "attractions" (JList []) = Ok (JList (before ++ ride :: after)) →
       (∀ a, a ∈ before → ∃ id, py_getitem a "id" = Ok id ∧ id ≠ JStr ride_id) →
       py_getitem ride "id" = Ok (JStr ride_id) →
       get_single_ride_info RIDE_INFO_DIR json_load fs url_path ride_id = Return ride)
  ∧ (∀ park_id data items,
       get_park_id url_path = Return park_id →
       load_ride_info RIDE_INFO_DIR json_load fs park_id = Return data →
       py_get data "attractions" (JList []) = Ok (JList items) →
       (∀ a, a ∈ items → ∃ id, py_getitem a "id" = Ok id ∧ id ≠ JStr ride_id) →
       get_single_ride_info RIDE_INFO_DIR json_load fs url_path ride_id
       = HTTPException 404).
Proof.
  split; [|split].
  - intros ride. unfold get_single_ride_info.
    destruct (get_park_id url_path) as [park_id| |]; [|done..].
    destruct (load_ride_info _ _ _ _) as [data| |]; [|done..].
    destruct (_ ← py_get data "attractions" (JList []); _) as [found|e] eqn:Hfound;
      [|done].
    destruct (truthy found) eqn:Htruthy; [|done]. intros [= ->].
    apply bind_Ok in Hfound as (attractions & _ & Hfound).
    apply bind_Ok in Hfound as (items & _ & Hfound).
    by destruct (first_with_id_found _ _ _ Hfound Htruthy).
  - intros park_id data before ride after Hpark Hdata Hattractions Hbefore Hride.
    unfold get_single_ride_info. rewrite Hpark, Hdata, Hattractions.
    cbn [mbind result_bind py_iter]. rewrite first_with_id_skip by done.
    cbn [first_with_id]. rewrite Hride. cbn [mbind result_bind].
    rewrite (proj2 (py_eq_str_true _ _) eq_refl).
    destruct ride as [| | | | |l|[|kv d]]; try discriminate; done.
  - intros park_id data items Hpark Hdata Hattractions Hnone.
    unfold get_single_ride_info. rewrite Hpark, Hdata, Hattractions.
    cbn [mbind result_bind py_iter].
    rewrite <- (app_nil_r items), first_with_id_skip by done. done.
Qed.

End Handlers.
End RideInfo.

(** * The opening calendar *)

Module OpeningCalendar.
Import Calendar.

Lemma mapM_Ok_lookup {A B} (f : A → result B) (l : list A) (ys : list B) (y : B) :
  mapM f l = Ok ys → y ∈ ys → ∃ x, x ∈ l ∧ f x = Ok y.
Proof.
  revert ys. induction l as [|x l IH]; intros ys Hys Hy.
  - injection Hys as <-. by apply elem_of_nil in Hy.
  - apply Categories.mapM_cons_Ok in Hys as (r & ys' & Hr & Hys' & ->).
    apply elem_of_cons in Hy as [->|Hy].
    + exists x. split; [apply list_elem_of_here | done].
    + destruct (IH _ Hys' Hy) as (x0 & ? & ?).
      exists x0. split; [by apply list_elem_of_further | done].
Qed.

Section Fetch.
Context `{Runtime}.
Variable sorted_mixed : list (json * json) → result (list json).
Variable get : Z → Z → month_response.

Local Abbreviation day_of := (day_of sorted_mixed).
Local Abbreviation month_days := (month_days sorted_mixed).
Local Abbreviation months := (months sorted_mixed get).

Local Abbreviation contribution := (contribution sorted_mixed get).

Lemma months_cons now offset rest days target :
  target_of now offset = Ok target →
  months now (offset :: rest) days
  = (new ← contribution target; months now rest (days ++ new)).
Proof.
  intros Htarget. cbn [Calendar.months]. rewrite Htarget. cbn [mbind result_bind].
  unfold Calendar.contribution. destruct (get _ _); cbn [mbind result_bind];
    by rewrite ?app_nil_r.
Qed.

(** X18. [fetch_calendar] does not fail because a month could not be
    fetched: a month that answers 400, whose request raises or whose body
    is not JSON contributes no day, and the days of the other months are
    kept, in the order of the months.  With all three months failing the
    calendar is returned without days. *)
Theorem failed_months_are_skipped (now : datetime) (utc_now : Z)
    (t0 t1 t2 : datetime) :
  target_of now 0 = Ok t0 →
  target_of now 1 = Ok t1 →
  target_of now 2 = Ok t2 →
  fetch_calendar sorted_mixed get now utc_now
  = (d0 ← contribution t0;
     d1 ← contribution t1;
     d2 ← contribution t2;
     Ok {| ParkCalendar.park_id := "efteling";
           ParkCalendar.park_name := "Efteling";
           ParkCalendar.last_updated := utc_now;
           ParkCalendar.days := d0 ++ d1 ++ d2 |})
  ∧ ((∀ t, t ∈ [t0; t1; t2] → ∀ cal, get (year t) (month t) ≠ Payload cal) →
     fetch_calendar sorted_mixed get now utc_now
     = Ok {| ParkCalendar.park_id := "efteling";
             ParkCalendar.park_name := "Efteling";
             ParkCalendar.last_updated := utc_now;
             ParkCalendar.days := [] |}).
Proof.
  intros H0 H1 H2.
  assert (fetch_calendar sorted_mixed get now utc_now
          = (d0 ← contribution t0;
             d1 ← contribution t1;
             d2 ← contribution t2;
             Ok {| ParkCalendar.park_id := "efteling";
                   ParkCalendar.park_name := "Efteling";
                   ParkCalendar.last_updated := utc_now;
                   ParkCalendar.days := d0 ++ d1 ++ d2 |})) as Heq.
  { unfold fetch_calendar. rewrite (months_cons _ _ _ _ _ H0).
    destruct (contribution t0) as [d0|e]; [|done]. cbn [mbind result_bind app].
    rewrite (months_cons _ _ _ _ _ H1).
    destruct (contribution t1) as [d1|e]; [|done]. cbn [mbind result_bind].
    rewrite (months_cons _ _ _ _ _ H2).
    destruct (contribution t2) as [d2|e]; [|done]. cbn [mbind result_bind Calendar.months].
    by rewrite <- app_assoc. }
  split; [exact Heq|]. intros Hfailed. rewrite Heq.
  assert (∀ t, t ∈ [t0; t1; t2] → contribution t = Ok []) as Hnone.
  { intros t Ht. unfold Calendar.contribution. specialize (Hfailed t Ht).
    destruct (get _ _) as [|e|cal]; [done..|]. by destruct (Hfailed cal). }
  rewrite (Hnone t0) by apply list_elem_of_here.
  rewrite (Hnone t1) by apply list_elem_of_further, list_elem_of_here.
  by rewrite (Hnone t2) by (do 2 apply list_elem_of_further; apply list_elem_of_here).
Qed.

Lemma hours_from_shape (idx : nat) (raw_hours : list json) (hours : list ParkHours.t) :
  hours_from idx raw_hours = Ok hours →
  length hours = length raw_hours
  ∧ ∀ (i : nat) h, hours !! i = Some h →
      ParkHours.type h = (if Nat.eqb (idx + i) 0 then "operating" else "informational")
      ∧ ParkHours.description h
        = (if Nat.eqb (idx + i) 0 then None else Some "Evening Hours").
Proof.
  revert idx hours. induction raw_hours as [|x l IH]; intros idx hours Hhours.
  - injection Hhours as <-. split; [done|]. intros i h Hi. by destruct i.
  - cbn [hours_from] in Hhours.
    apply bind_Ok in Hhours as (h0 & Hh0 & Hhours).
    apply bind_Ok in Hhours as (rest & Hrest & Hhours). injection Hhours as <-.
    destruct (IH _ _ Hrest) as [Hlen Hshape]. split; [cbn; by rewrite Hlen|].
    intros [|i] h Hi.
    + injection Hi as <-. rewrite Nat.add_0_r. unfold park_hours_of in Hh0.
      apply bind_Ok in Hh0 as (o & _ & Hh0). apply bind_Ok in Hh0 as (c & _ & Hh0).
      apply bind_Ok in Hh0 as (ot & _ & Hh0). apply bind_Ok in Hh0 as (ct & _ & Hh0).
      by injection Hh0 as <-.
    + replace (idx + S i)%nat with (S idx + i)%nat by lia. by apply Hshape.
Qed.

Lemma day_of_fields (day_entry : json) (d : ParkDay.t) :
  day_of day_entry = Ok d →
  ∃ raw_hours,
    hours_from 0 raw_hours = Ok (ParkDay.hours d)
    ∧ ParkDay.is_open d = bool_decide (0 < length (ParkDay.hours d))%nat
    ∧ ParkDay.special_event d = None.
Proof.
  unfold Calendar.day_of. intros Hd.
  apply bind_Ok in Hd as (raw & _ & Hd). apply bind_Ok in Hd as (items & _ & Hd).
  apply bind_Ok in Hd as (keys & _ & Hd). apply bind_Ok in Hd as (raw_hours & _ & Hd).
  apply bind_Ok in Hd as (park_hours & Hhours & Hd).
  apply bind_Ok in Hd as (raw_date & _ & Hd). apply bind_Ok in Hd as (date & _ & Hd).
  injection Hd as <-. by exists raw_hours.
Qed.

Lemma months_days now offsets days out (d : ParkDay.t) :
  months now offsets days = Ok out →
  d ∈ out →
  d ∈ days ∨ ∃ day_entry, day_of day_entry = Ok d.
Proof.
  revert days. induction offsets as [|offset rest IH]; intros days Hout Hd.
  - injection Hout as <-. by left.
  - cbn [Calendar.months] in Hout. apply bind_Ok in Hout as (target & _ & Hout).
    destruct (get _ _) as [|e|cal]; [by apply IH in Hout..|].
    apply bind_Ok in Hout as (new & Hnew & Hout).
    destruct (IH _ Hout Hd) as [[Hin|Hin]%elem_of_app|Hin]; [by left| |by right].
    right. unfold Calendar.month_days in Hnew.
    apply bind_Ok in Hnew as (opening & _ & Hnew).
    apply bind_Ok in Hnew as (entries & _ & Hnew).
    destruct (mapM_Ok_lookup _ _ _ _ Hnew Hin) as (day_entry & _ & Hday). eauto.
Qed.

(** X19. Every day of a calendar returned by [fetch_calendar] is open
    exactly when it has hours and has no special event; its first hours are
    of type "operating" without description, and all further hours are
    "informational" with the description "Evening Hours". *)
Theorem calendar_day_shape (now : datetime) (utc_now : Z) (calendar : ParkCalendar.t)
    (d : ParkDay.t) :
  fetch_calendar sorted_mixed get now utc_now = Ok calendar →
  d ∈ ParkCalendar.days calendar →
  (ParkDay.is_open d = true ↔ ParkDay.hours d ≠ [])
  ∧ ParkDay.special_event d = None
  ∧ (∀ (i : nat) h, ParkDay.hours d !! i = Some h →
       ParkHours.type h = (if Nat.eqb i 0 then "operating" else "informational")
       ∧ ParkHours.description h
         = (if Nat.eqb i 0 then None else Some "Evening Hours")).
Proof.
  unfold fetch_calendar. intros Hcal Hd.
  apply bind_Ok in Hcal as (days & Hdays & Hcal). injection Hcal as <-.
  cbn [ParkCalendar.days] in Hd.
  destruct (months_days _ _ _ _ _ Hdays Hd) as [Hin%elem_of_nil|[day_entry Hday]];
    [done|].
  destruct (day_of_fields _ _ Hday) as (raw_hours & Hhours & Hopen & Hevent).
  destruct (hours_from_shape _ _ _ Hhours) as [_ Hshape].
  split; [|split; [done|exact Hshape]].
  rewrite Hopen, bool_decide_eq_true. destruct (ParkDay.hours d); cbn; [|split; [done|lia]].
  split; [lia|done].
Qed.

(** ** The order of the hours of a day *)

Lemma str_lt_asym (a b : string) : str_lt a b = true → str_lt b a = false.
Proof.
  revert b. induction a as [|x a IH]; intros [|y b]; cbn; try done.
  destruct (Z.ltb_spec (code x) (code y)), (Z.ltb_spec (code y) (code x));
    try done; try lia. apply IH.
Qed.

Lemma str_le_trans (a b c : string) :
  str_lt b a = false → str_lt c b = false → str_lt c a = false.
Proof.
  revert b c. induction a as [|x a IH]; intros [|y b] [|z c]; cbn; try done.
  destruct (Z.ltb_spec (code y) (code x)), (Z.ltb_spec (code x) (code y)),
    (Z.ltb_spec (code z) (code y)), (Z.ltb_spec (code y) (code z)),
    (Z.ltb_spec (code z) (code x)), (Z.ltb_spec (code x) (code z));
    try done; try lia. apply IH.
Qed.

Local Abbreviation by_key := (λ a b : string * json, str_lt b.1 a.1 = false).
Local Abbreviation sort_by_key := (foldl (λ acc x, insert_by_key x acc) []).

Lemma insert_by_key_perm (x : string * json) (l : list (string * json)) :
  insert_by_key x l ≡ₚ x :: l.
Proof.
  induction l as [|y l IH]; cbn [insert_by_key]; [done|].
  destruct (str_lt _ _); [done|]. rewrite IH. apply Permutation_swap.
Qed.

Lemma insert_by_key_sorted (x : string * json) (l : list (string * json)) :
  StronglySorted by_key l → StronglySorted by_key (insert_by_key x l).
Proof.
  induction l as [|y l IH]; cbn [insert_by_key]; intros Hsorted.
  - repeat constructor.
  - apply StronglySorted_inv in Hsorted as [Hl Hy].
    destruct (str_lt x.1 y.1) eqn:Hlt.
    + apply str_lt_asym in Hlt. constructor; [by constructor|].
      constructor; [done|]. eapply Forall_impl; [exact Hy|].
      intros z Hz. cbn in *. by apply (str_le_trans _ y.1).
    + constructor; [by apply IH|].
      rewrite insert_by_key_perm. by constructor.
Qed.

Lemma sort_by_key_spec (l acc : list (string * json)) :
  StronglySorted by_key acc →
  StronglySorted by_key (foldl (λ acc x, insert_by_key x acc) acc l)
  ∧ foldl (λ acc x, insert_by_key x acc) acc l ≡ₚ acc ++ l.
Proof.
  revert acc. induction l as [|x l IH]; intros acc Hacc; cbn [foldl].
  - by rewrite app_nil_r.
  - destruct (IH _ (insert_by_key_sorted x _ Hacc)) as [Hsorted Hperm].
    split; [done|]. rewrite Hperm, insert_by_key_perm. apply Permutation_middle.
Qed.

(** The pairs of [sorted]'s input in which the key is the [Open] of the
    item, a str *)
Local Abbreviation keyed_ok :=
  (λ p : string * json, py_get p.2 "Open" (JStr "") = Ok (JStr p.1)).

Lemma dict_get_bound (d : dict) (k : string) (a b : json) :
  existsb (λ kv, String.eqb kv.1 k) d = true → dict_get d k a = dict_get d k b.
Proof.
  induction d as [|[k' v] d IH]; cbn [existsb dict_get fst]; [done|].
  destruct (String.eqb k' k); [done|]. exact IH.
Qed.

Lemma open_key (h : json) (s : string) (default : json) :
  py_getitem h "Open" = Ok (JStr s) → py_get h "Open" default = Ok (JStr s).
Proof.
  destruct h as [| | | | | |d]; try discriminate. cbn [py_getitem py_get].
  destruct (existsb _ d) eqn:Hbound; [|by destruct (dict_get d "Open" JNull)].
  rewrite (dict_get_bound d "Open" default JNull Hbound).
  by destruct (dict_get d "Open" JNull).
Qed.

Lemma keys_of_items (items keys : list json) :
  (∀ h, h ∈ items → ∃ s, py_getitem h "Open" = Ok (JStr s)) →
  mapM (λ h, py_get h "Open" (JStr "00:00")) items = Ok keys →
  ∃ strs, mapM str_keyed (zip keys items) = Some strs
          ∧ Forall keyed_ok strs
          ∧ length strs = length items.
Proof.
  revert keys. induction items as [|h items IH]; intros keys Hstr Hkeys.
  - injection Hkeys as <-. by exists [].
  - apply Categories.mapM_cons_Ok in Hkeys as (k & keys' & Hk & Hkeys' & ->).
    destruct (Hstr h (list_elem_of_here _ _)) as [s Hs].
    rewrite (open_key _ _ _ Hs) in Hk. injection Hk as <-.
    destruct (IH keys') as (strs & Hstrs & Hok & Hlen); [|done|].
    { intros h' Hh'. by apply Hstr, list_elem_of_further. }
    exists ((s, h) :: strs). cbn [zip zip_with mapM]. rewrite Hstrs.
    split; [done|]. split; [|by cbn; rewrite Hlen].
    constructor; [|done]. by apply open_key.
Qed.

Lemma sorted_by_key_strs (keyed : list (json * json)) (strs : list (string * json)) :
  mapM str_keyed keyed = Some strs →
  sorted_by_key sorted_mixed keyed = Ok (sort_by_key strs).*2.
Proof.
  intros Hstrs. unfold sorted_by_key.
  destruct keyed as [|kv [|kv' keyed]]; [| |by rewrite Hstrs].
  - by injection Hstrs as <-.
  - cbn [mapM] in Hstrs. destruct (str_keyed kv) as [p|] eqn:Hkv; [|done].
    injection Hstrs as <-. unfold str_keyed in Hkv.
    destruct kv.1; try done. by injection Hkv as <-.
Qed.

Lemma hours_from_keys (idx : nat) (sorted : list (string * json))
    (hours : list ParkHours.t) :
  Forall keyed_ok sorted →
  hours_from idx sorted.*2 = Ok hours →
  ParkHours.opening_time <$> hours = sorted.*1.
Proof.
  revert idx hours. induction sorted as [|[s h] l IH]; intros idx hours Hok Hhours.
  - by injection Hhours as <-.
  - apply Forall_cons in Hok as [Hopen Hok]. cbn [fmap list_fmap snd] in Hhours.
    cbn [hours_from] in Hhours.
    apply bind_Ok in Hhours as (h0 & Hh0 & Hhours).
    apply bind_Ok in Hhours as (rest & Hrest & Hhours). injection Hhours as <-.
    cbn [fmap list_fmap fst]. f_equal; [|by eapply IH].
    unfold park_hours_of in Hh0. cbn [fst snd] in Hopen. rewrite Hopen in Hh0.
    cbn [mbind result_bind] in Hh0.
    apply bind_Ok in Hh0 as (c & _ & Hh0). cbn [validate_str mbind result_bind] in Hh0.
    apply bind_Ok in Hh0 as (ct & _ & Hh0). by injection Hh0 as <-.
Qed.

(** X20. When every entry of a day's [OpeningHours] has a str [Open],
    [day_of] returns one [ParkHours] per entry, ordered by opening time:
    no hours open (as strs, by code points) before the hours listed before
    them.  The first hours, the "operating" ones, are therefore those that
    open first. *)
Theorem hours_in_opening_order (day_entry : json) (items : list json) (d : ParkDay.t) :
  py_get day_entry "OpeningHours" (JList []) = Ok (JList items) →
  (∀ h, h ∈ items → ∃ s, py_getitem h "Open" = Ok (JStr s)) →
  Calendar.day_of sorted_mixed day_entry = Ok d →
  length (ParkDay.hours d) = length items
  ∧ StronglySorted (λ a b, str_lt b a = false)
      (ParkHours.opening_time <$> ParkDay.hours d).
Proof.
  intros Hraw Hstr Hd. unfold Calendar.day_of in Hd. rewrite Hraw in Hd.
  cbn [mbind result_bind py_iter] in Hd.
  apply bind_Ok in Hd as (keys & Hkeys & Hd).
  destruct (keys_of_items _ _ Hstr Hkeys) as (strs & Hstrs & Hok & Hlen).
  rewrite (sorted_by_key_strs _ _ Hstrs) in Hd. cbn [mbind result_bind] in Hd.
  apply bind_Ok in Hd as (park_hours & Hhours & Hd).
  apply bind_Ok in Hd as (raw_date & _ & Hd). apply bind_Ok in Hd as (date & _ & Hd).
  injection Hd as <-. cbn [ParkDay.hours].
  destruct (sort_by_key_spec strs [] (SSorted_nil _)) as [Hsorted Hperm].
  cbn [app] in Hperm. split.
  - destruct (hours_from_shape _ _ _ Hhours) as [-> _].
    by rewrite length_fmap, Hperm.
  - assert (Forall keyed_ok (sort_by_key strs)) as Hok' by (by rewrite Hperm).
    rewrite (hours_from_keys _ _ _ Hok' Hhours).
    by apply (StronglySorted_fmap fst by_key).
Qed.

End Fetch.

(** ** The months asked for *)

Lemma days_before_year_split (y : Z) :
  1 ≤ y →
  let p := y - 1 in
  let a := p `div` 400 in
  let b := (p `mod` 400) `div` 100 in
  let c := (p `mod` 100) `div` 4 in
  let e := p `mod` 4 in
  days_before_year y = 146097 * a + 36524 * b + 1461 * c + 365 * e
  ∧ y = 400 * a + 100 * b + 4 * c + e + 1
  ∧ 0 ≤ a ∧ 0 ≤ b ≤ 3 ∧ 0 ≤ c ≤ 24 ∧ 0 ≤ e ≤ 3
  ∧ is_leap y = (e =? 3) && (negb (c =? 24) || (b =? 3)).
Proof.
  intros Hy p a b c e. subst a b c e p. unfold days_before_year, is_leap.
  repeat split; try (Z.div_mod_to_equations; lia).
Qed.

Local Abbreviation dbm leap m :=
  (nth (Z.to_nat m) [0; 0; 31; 59; 90; 120; 151; 181; 212; 243; 273; 304; 334] 0
   + (if (2 <? m) && leap then 1 else 0)).
Local Abbreviation dim leap m :=
  (if (m =? 2) && leap then 29 else nth (Z.to_nat m) _DAYS_IN_MONTH 0).

Lemma month_table (P : bool → Z → bool) :
  forallb (λ leap, forallb (P leap) (seqZ 1 12)) [true; false] = true →
  ∀ leap m, 1 ≤ m ≤ 12 → P leap m = true.
Proof.
  intros Htable leap m Hm. rewrite forallb_forall in Htable.
  assert (In leap [true; false]) as Hleap by (destruct leap; cbn; tauto).
  specialize (Htable leap Hleap). rewrite forallb_forall in Htable.
  apply Htable, list_elem_of_In, elem_of_seqZ. lia.
Qed.

Lemma month_facts (leap : bool) (m : Z) :
  1 ≤ m ≤ 12 →
  28 ≤ dim leap m ≤ 31
  ∧ 0 ≤ dbm leap m ≤ 335
  ∧ (m < 12 → dbm leap (m + 1) = dbm leap m + dim leap m)
  ∧ (m = 12 → dbm leap m + dim leap m = 365 + (if leap then 1 else 0)).
Proof.
  intros Hm.
  pose proof (month_table
    (λ leap m, (28 <=? dim leap m) && (dim leap m <=? 31) && (0 <=? dbm leap m)
               && (dbm leap m <=? 335)
               && ((12 <=? m) || (dbm leap (m + 1) =? dbm leap m + dim leap m))
               && ((m <? 12)
                   || (dbm leap m + dim leap m =? 365 + (if leap then 1 else 0))))
    ltac:(vm_compute; reflexivity) leap m Hm) as Hfacts.
  cbv beta in Hfacts. lia.
Qed.

Lemma day_table (leap : bool) (m d : Z) :
  1 ≤ m ≤ 12 →
  1 ≤ d ≤ dim leap m →
  let r := dbm leap m + d - 1 in
  0 ≤ r ≤ 365
  ∧ (r = 365 → leap = true ∧ m = 12 ∧ d = 31)
  ∧ (r ≠ 365 → month_and_day leap r = (m, d)).
Proof.
  intros Hm Hd r. destruct (month_facts leap m Hm) as (Hdim & Hdbm & _).
  pose proof (month_table
    (λ leap m, forallb (λ d,
       let r := dbm leap m + d - 1 in
       (dim leap m <? d)
       || ((r <=? 365) && implb (r =? 365) (leap && (m =? 12) && (d =? 31))
           && ((r =? 365) || ((month_and_day leap r).1 =? m)
                             && ((month_and_day leap r).2 =? d)))) (seqZ 1 31))
    ltac:(vm_compute; reflexivity) leap m Hm) as Htable.
  cbv beta in Htable. rewrite forallb_forall in Htable.
  assert (In d (seqZ 1 31)) as Hd' by (apply list_elem_of_In, elem_of_seqZ; lia).
  specialize (Htable d Hd'). cbv zeta in Htable. fold r in Htable.
  destruct (month_and_day leap r) as [m' d'] eqn:Hmd. cbn [fst snd] in Htable.
  split; [lia|]. split.
  - intros Hr. destruct leap; [lia|]. lia.
  - intros Hr. f_equal; lia.
Qed.

Lemma ord2ymd_of_date (y m d : Z) :
  1 ≤ y → 1 ≤ m ≤ 12 → 1 ≤ d ≤ _days_in_month y m →
  _ord2ymd (days_before_year y + days_before_month y m + d) = (y, m, d).
Proof.
  intros Hy Hm Hd.
  destruct (days_before_year_split y Hy) as (Hdby & Hyear & Ha & Hb & Hc & He & Hleap).
  cbv zeta in *.
  set (a := (y - 1) `div` 400) in *.
  set (b := ((y - 1) `mod` 400) `div` 100) in *.
  set (c := ((y - 1) `mod` 100) `div` 4) in *.
  set (e := (y - 1) `mod` 4) in *.
  clearbody a b c e.
  unfold _days_in_month in Hd. unfold days_before_month.
  destruct (day_table (is_leap y) m d Hm Hd) as (Hr & Hr365 & Hmd).
  cbv zeta in *.
  set (r := dbm (is_leap y) m + d - 1) in *.
  unfold _ord2ymd. cbv zeta.
  replace (days_before_year y + dbm (is_leap y) m + d - 1)
    with (146097 * a + 36524 * b + 1461 * c + 365 * e + r) by (subst r; lia).
  clearbody r. unfold DI400Y, DI100Y, DI4Y.
  set (N := 146097 * a + 36524 * b + 1461 * c + 365 * e + r).
  destruct (decide (r = 365)) as [Hlast|Hnot].
  - destruct (Hr365 Hlast) as (Hl & -> & ->). rewrite Hl in Hleap.
    assert (e = 3 ∧ (c ≠ 24 ∨ b = 3)) as [-> Hcb] by (clear - Hleap; lia).
    assert (N `div` 146097 = a) as -> by (subst N; Z.div_mod_to_equations; lia).
    assert (N `mod` 146097 = 36524 * b + 1461 * c + 1460) as ->
      by (subst N; Z.div_mod_to_equations; lia).
    destruct (decide (c = 24)) as [->|Hc24].
    + assert (b = 3) as -> by lia.
      replace (36524 * 3 + 1461 * 24 + 1460) with 146096 by lia.
      vm_compute (146096 `div` 36524). vm_compute (146096 `mod` 36524).
      cbn. f_equal. f_equal. Z.div_mod_to_equations. lia.
    + assert ((36524 * b + 1461 * c + 1460) `div` 36524 = b) as ->
        by (Z.div_mod_to_equations; lia).
      assert ((36524 * b + 1461 * c + 1460) `mod` 36524 = 1461 * c + 1460) as ->
        by (Z.div_mod_to_equations; lia).
      assert ((1461 * c + 1460) `div` 1461 = c) as -> by (Z.div_mod_to_equations; lia).
      assert ((1461 * c + 1460) `mod` 1461 = 1460) as -> by (Z.div_mod_to_equations; lia).
      vm_compute (1460 `div` 365). cbn. f_equal. f_equal. lia.
  - assert (N `div` 146097 = a) as -> by (subst N; Z.div_mod_to_equations; lia).
    assert (N `mod` 146097 = 36524 * b + 1461 * c + 365 * e + r) as ->
      by (subst N; Z.div_mod_to_equations; lia).
    assert ((36524 * b + 1461 * c + 365 * e + r) `div` 36524 = b) as ->
      by (Z.div_mod_to_equations; lia).
    assert ((36524 * b + 1461 * c + 365 * e + r) `mod` 36524 = 1461 * c + 365 * e + r)
      as -> by (Z.div_mod_to_equations; lia).
    assert ((1461 * c + 365 * e + r) `div` 1461 = c) as ->
      by (Z.div_mod_to_equations; lia).
    assert ((1461 * c + 365 * e + r) `mod` 1461 = 365 * e + r) as ->
      by (Z.div_mod_to_equations; lia).
    assert ((365 * e + r) `div` 365 = e) as -> by (Z.div_mod_to_equations; lia).
    assert ((365 * e + r) `mod` 365 = r) as -> by (Z.div_mod_to_equations; lia).
    replace ((e =? 4) || (b =? 4)) with false by (clear - He Hb; lia).
    rewrite <- Hleap, (Hmd Hnot). f_equal. f_equal. lia.
Qed.

Lemma next_month (y m : Z) :
  1 ≤ y → 1 ≤ m ≤ 12 →
  ∃ y' m', months_later y m 1 = (y', m')
    ∧ days_before_year y' + days_before_month y' m'
      = days_before_year y + days_before_month y m + _days_in_month y m
    ∧ y ≤ y' ≤ y + 1 ∧ 1 ≤ m' ≤ 12
    ∧ months_later y m 2 = months_later y' m' 1.
Proof.
  intros Hy Hm. unfold months_later, days_before_month, _days_in_month.
  destruct (month_facts (is_leap y) m Hm) as (Hdim & Hdbm & Hnext & Hlast).
  destruct (decide (m = 12)) as [->|Hne].
  - exists (y + 1), 1. split; [f_equal; Z.div_mod_to_equations; lia|].
    specialize (Hlast eq_refl).
    split; [|split; [lia|split; [lia|f_equal; Z.div_mod_to_equations; lia]]].
    change (nth (Z.to_nat 1) _ 0 + (if (2 <? 1) && is_leap (y + 1) then 1 else 0)) with 0.
    assert (days_before_year (y + 1)
            = days_before_year y + 365 + (if is_leap y then 1 else 0)) as ->.
    { unfold days_before_year, is_leap.
      destruct ((y `mod` 4 =? 0) && (negb (y `mod` 100 =? 0) || (y `mod` 400 =? 0)))
        eqn:Hleap; Z.div_mod_to_equations; lia. }
    lia.
  - exists y, (m + 1).
    assert ((m - 1 + 1) `div` 12 = 0) as -> by (Z.div_mod_to_equations; lia).
    assert ((m - 1 + 1) `mod` 12 = m) as -> by (Z.div_mod_to_equations; lia).
    rewrite Z.add_0_r. split; [done|]. split; [rewrite Hnext by lia; lia|].
    split; [lia|]. split; [lia|]. f_equal; Z.div_mod_to_equations; lia.
Qed.

Lemma first_of_month (dt : datetime) (y m d t : Z) :
  1 ≤ y → 1 ≤ m ≤ 12 → 1 ≤ d ≤ _days_in_month y m →
  0 ≤ t < US_PER_DAY →
  wall dt = (days_before_year y + days_before_month y m + d - 1) * US_PER_DAY + t →
  ymd dt = (y, m, d)
  ∧ wall (replace_day_1 dt)
    = (days_before_year y + days_before_month y m) * US_PER_DAY + t
  ∧ ymd (replace_day_1 dt) = (y, m, 1).
Proof.
  intros Hy Hm Hd Ht Hwall.
  assert (ymd dt = (y, m, d)) as Hymd.
  { unfold ymd. rewrite Hwall.
    replace (((days_before_year y + days_before_month y m + d - 1) * US_PER_DAY + t)
               `div` US_PER_DAY + 1)
      with (days_before_year y + days_before_month y m + d)
      by (unfold US_PER_DAY in *; Z.div_mod_to_equations; lia).
    by apply ord2ymd_of_date. }
  assert (wall (replace_day_1 dt)
          = (days_before_year y + days_before_month y m) * US_PER_DAY + t) as Hfirst.
  { unfold replace_day_1, day. rewrite Hymd. cbn [wall snd]. lia. }
  split; [done|]. split; [done|].
  unfold ymd. rewrite Hfirst.
  replace (((days_before_year y + days_before_month y m) * US_PER_DAY + t)
             `div` US_PER_DAY + 1)
    with (days_before_year y + days_before_month y m + 1)
    by (unfold US_PER_DAY in *; Z.div_mod_to_equations; lia).
  apply ord2ymd_of_date; [done..|].
  unfold _days_in_month. destruct (month_facts (is_leap y) m Hm) as (Hdim & _). lia.
Qed.

Lemma days_before_year_bound (y : Z) :
  1 ≤ y ≤ 9998 → 0 ≤ days_before_year y ≤ 3651329.
Proof. intros Hy. unfold days_before_year. Z.div_mod_to_equations. lia. Qed.

(** X21. The three months [fetch_calendar] asks for are the month of
    [now] and the two months after it, whatever the day of the month and
    the lengths of the months in between, for every [now] before the year
    9999: stepping 32 days per month from the first of the month never
    skips a month and never stays in one. *)
Theorem three_consecutive_months (now : datetime) (y m d h mi s us k : Z) :
  1 ≤ y ≤ 9998 → 1 ≤ m ≤ 12 → 1 ≤ d ≤ _days_in_month y m →
  0 ≤ h < 24 → 0 ≤ mi < 60 → 0 ≤ s < 60 → 0 ≤ us < 1000000 →
  wall now = civil y m d h mi s + us →
  0 ≤ k ≤ 2 →
  ∃ target,
    target_of now k = Ok target
    ∧ (year target, month target) = months_later y m k
    ∧ day target = 1
    ∧ tz target = tz now.
Proof.
  intros Hy Hm Hd Hh Hmi Hs Hus Hwall Hk.
  set (t := (h * 3600 + mi * 60 + s) * 1000000 + us).
  assert (0 ≤ t < US_PER_DAY) as Ht by (unfold US_PER_DAY; lia).
  assert (wall now
          = (days_before_year y + days_before_month y m + d - 1) * US_PER_DAY + t)
    as Hnow by (rewrite Hwall; unfold civil, US_PER_DAY; lia).
  destruct (first_of_month now y m d t) as (_ & Hfirst & _); [lia|done..|].
  destruct (days_before_year_bound y Hy) as [Hdby0 Hdby].
  destruct (month_facts (is_leap y) m Hm) as (Hdim & Hdbm & _).
  fold (days_before_month y m) in Hdbm. fold (_days_in_month y m) in Hdim.
  destruct (next_month y m) as (y1 & m1 & Hlater1 & Hfirst1 & Hy1 & Hm1 & Hlater2);
    [lia|done|].
  destruct (next_month y1 m1) as (y2 & m2 & Hlater1' & Hfirst2 & Hy2 & Hm2 & _);
    [lia|done|].
  destruct (month_facts (is_leap y1) m1 Hm1) as (Hdim1 & _).
  fold (_days_in_month y1 m1) in Hdim1.
  destruct (month_facts (is_leap y2) m2 Hm2) as (Hdim2 & _).
  fold (_days_in_month y2 m2) in Hdim2.
  unfold target_of, dt_add. rewrite Hfirst.
  replace ((0 <=? _) && (_ <? _)) with true
    by (unfold MAXORDINAL, US_PER_DAY in *; lia).
  cbn [fmap result_fmap].
  eexists. split; [done|].
  set (sum := {| wall := _; tz := tz (replace_day_1 now); fold := false |}).
  assert (k = 0 ∨ k = 1 ∨ k = 2) as [->|[->| ->]] by lia.
  - destruct (first_of_month sum y m 1 t) as (_ & _ & Htarget); [lia|done|lia|done| |].
    { subst sum. cbn [wall]. lia. }
    unfold year, month, day. rewrite Htarget. cbn [fst snd].
    split; [|done]. unfold months_later. f_equal; Z.div_mod_to_equations; lia.
  - destruct (first_of_month sum y1 m1 (33 - _days_in_month y m) t)
      as (_ & _ & Htarget); [lia|done|lia|done| |].
    { subst sum. cbn [wall]. lia. }
    unfold year, month, day. rewrite Htarget. cbn [fst snd]. by rewrite Hlater1.
  - destruct (first_of_month sum y2 m2
                (65 - _days_in_month y m - _days_in_month y1 m1) t)
      as (_ & _ & Htarget); [lia|done|lia|done| |].
    { subst sum. cbn [wall]. lia. }
    unfold year, month, day. rewrite Htarget. cbn [fst snd].
    by rewrite Hlater2, Hlater1'.
Qed.

(** On 20 November 2026 the third month asked for is January 2027. *)
Lemma three_consecutive_months_witness :
  (λ target, (year target, month target))
    <$> target_of (Sample.park_time 2026 11 20 14 0 0) 2
  = Ok (2027, 1).
Proof.
  destruct (three_consecutive_months (Sample.park_time 2026 11 20 14 0 0)
              2026 11 20 14 0 0 0 2) as (target & Htarget & Hmonths & _);
    try lia; [by vm_compute..|].
  rewrite Htarget. cbn [fmap result_fmap]. by rewrite Hmonths.
Defined.

(** November answers 400 and January fails: the calendar holds the day of
    December. *)
Lemma failed_months_are_skipped_witness :
  fetch_calendar Sample.unsortable Sample.calendar_get
    (Sample.park_time 2026 11 20 14 0 0) 0
  = Ok (Sample.efteling_calendar [Sample.christmas_day]).
Proof.
  rewrite (proj1 (failed_months_are_skipped Sample.unsortable Sample.calendar_get
                    (Sample.park_time 2026 11 20 14 0 0) 0 _ _ _
                    eq_refl eq_refl eq_refl)).
  by vm_compute.
Defined.

Lemma calendar_day_shape_witness :
  fetch_calendar Sample.unsortable Sample.calendar_get
    (Sample.park_time 2026 11 20 14 0 0) 0
  = Ok (Sample.efteling_calendar [Sample.christmas_day])
  ∧ ParkDay.is_open Sample.christmas_day = true.
Proof.
  assert (fetch_calendar Sample.unsortable Sample.calendar_get
            (Sample.park_time 2026 11 20 14 0 0) 0
          = Ok (Sample.efteling_calendar [Sample.christmas_day])) as Hcal
    by (by vm_compute).
  split; [exact Hcal|].
  by apply (proj1 (calendar_day_shape _ _ _ _ _ Sample.christmas_day Hcal
                     (list_elem_of_here _ _))).
Defined.

Lemma hours_in_opening_order_witness :
  Calendar.day_of Sample.unsortable Sample.christmas = Ok Sample.christmas_day
  ∧ StronglySorted (λ a b, str_lt b a = false) ["10:00"; "18:00"].
Proof.
  assert (Calendar.day_of Sample.unsortable Sample.christmas = Ok Sample.christmas_day)
    as Hday by (by vm_compute).
  split; [exact Hday|].
  refine (proj2 (hours_in_opening_order Sample.unsortable Sample.christmas _
                   Sample.christmas_day eq_refl _ Hday)).
  intros h Hh. repeat (apply elem_of_cons in Hh as [->|Hh]); [by eexists..|].
  by apply elem_of_nil in Hh.
Defined.

End OpeningCalendar.
